(** * The icon-dex converter: a shallow embedding of
      [contracts/converter/converter.py] and its properties.

    Python integers are unbounded, so every [int] is a [Z]; [//] is floor
    division ([Z.div]) and [**] is [Z.pow].  A SCORE method either returns
    or reverts; the embedding threads the contract storage, the other
    SCOREs and the event log through a small state-and-revert monad whose
    failures keep the storage as it was when the exception was raised, and
    models the platform's rollback of a reverted transaction separately
    ([transact]). *)

From Stdlib Require Import ZArith Lia Ascii.
From stdpp Require Import base option list gmap strings fin_maps.

Open Scope Z_scope.

(** ** Addresses and storage records *)

(** An ICON address in its textual form, ["hx..."] or ["cx..."]. *)
Definition Address := string.

(** Keys of the score registry used by the converter
    ([ScoreRegistry.NETWORK], [ScoreRegistry.SCORE_REGISTRY]). *)
Inductive RegistryKey := NETWORK | SCORE_REGISTRY.

Definition TAG : string := "Converter".
Definition TRANSFER_DATA : string := "conversionResult".

(** class Connector: the five [VarDB]s of one connector.  *)
Record Connector := mkConnector {
  virtual_balance : Z;
  weight : Z;
  is_virtual_balance_enabled : bool;
  is_purchase_enabled : bool;
  is_set : bool
}.

(** What the five [VarDB]s read on a sub-database nothing was written to. *)
Definition unset_connector : Connector := mkConnector 0 0 false false false.

Definition set_virtual_balance (v : Z) (c : Connector) : Connector :=
  mkConnector v (weight c) (is_virtual_balance_enabled c)
              (is_purchase_enabled c) (is_set c).
Definition set_weight (v : Z) (c : Connector) : Connector :=
  mkConnector (virtual_balance c) v (is_virtual_balance_enabled c)
              (is_purchase_enabled c) (is_set c).
Definition set_is_virtual_balance_enabled (v : bool) (c : Connector) : Connector :=
  mkConnector (virtual_balance c) (weight c) v (is_purchase_enabled c) (is_set c).
Definition set_is_purchase_enabled (v : bool) (c : Connector) : Connector :=
  mkConnector (virtual_balance c) (weight c) (is_virtual_balance_enabled c)
              v (is_set c).
Definition set_is_set (v : bool) (c : Connector) : Connector :=
  mkConnector (virtual_balance c) (weight c) (is_virtual_balance_enabled c)
              (is_purchase_enabled c) v.

(** The storage of an installed converter: the [VarDB]s and the [ArrayDB]
    declared in [Converter.__init__], the connector table, and the three
    slots the base classes keep ([_owner], [_manager] of Managed, [_token]
    of FlexibleTokenController). *)
Record Converter := mkConverter {
  _owner : Address;
  _manager : option Address;
  _token : Address;
  _allow_registry_update : bool;
  _prev_registry : Address;
  _registry : Address;
  _connector_tokens : list Address;
  _total_connector_weight : Z;
  _max_conversion_fee : Z;
  _conversion_fee : Z;
  _conversions_enabled : bool;
  _connectors : gmap Address Connector
}.

Definition set_owner (v : Address) (c : Converter) : Converter :=
  mkConverter v (_manager c) (_token c) (_allow_registry_update c)
    (_prev_registry c) (_registry c) (_connector_tokens c)
    (_total_connector_weight c) (_max_conversion_fee c) (_conversion_fee c)
    (_conversions_enabled c) (_connectors c).
Definition set_token (v : Address) (c : Converter) : Converter :=
  mkConverter (_owner c) (_manager c) v (_allow_registry_update c)
    (_prev_registry c) (_registry c) (_connector_tokens c)
    (_total_connector_weight c) (_max_conversion_fee c) (_conversion_fee c)
    (_conversions_enabled c) (_connectors c).
Definition set_max_conversion_fee (v : Z) (c : Converter) : Converter :=
  mkConverter (_owner c) (_manager c) (_token c) (_allow_registry_update c)
    (_prev_registry c) (_registry c) (_connector_tokens c)
    (_total_connector_weight c) v (_conversion_fee c)
    (_conversions_enabled c) (_connectors c).
Definition set_allow_registry_update (v : bool) (c : Converter) : Converter :=
  mkConverter (_owner c) (_manager c) (_token c) v (_prev_registry c) (_registry c)
    (_connector_tokens c) (_total_connector_weight c) (_max_conversion_fee c)
    (_conversion_fee c) (_conversions_enabled c) (_connectors c).
Definition set_prev_registry (v : Address) (c : Converter) : Converter :=
  mkConverter (_owner c) (_manager c) (_token c) (_allow_registry_update c) v
    (_registry c) (_connector_tokens c) (_total_connector_weight c)
    (_max_conversion_fee c) (_conversion_fee c) (_conversions_enabled c)
    (_connectors c).
Definition set_registry (v : Address) (c : Converter) : Converter :=
  mkConverter (_owner c) (_manager c) (_token c) (_allow_registry_update c)
    (_prev_registry c) v (_connector_tokens c) (_total_connector_weight c)
    (_max_conversion_fee c) (_conversion_fee c) (_conversions_enabled c)
    (_connectors c).
Definition set_connector_tokens (v : list Address) (c : Converter) : Converter :=
  mkConverter (_owner c) (_manager c) (_token c) (_allow_registry_update c)
    (_prev_registry c) (_registry c) v (_total_connector_weight c)
    (_max_conversion_fee c) (_conversion_fee c) (_conversions_enabled c)
    (_connectors c).
Definition set_total_connector_weight (v : Z) (c : Converter) : Converter :=
  mkConverter (_owner c) (_manager c) (_token c) (_allow_registry_update c)
    (_prev_registry c) (_registry c) (_connector_tokens c) v
    (_max_conversion_fee c) (_conversion_fee c) (_conversions_enabled c)
    (_connectors c).
Definition set_conversion_fee (v : Z) (c : Converter) : Converter :=
  mkConverter (_owner c) (_manager c) (_token c) (_allow_registry_update c)
    (_prev_registry c) (_registry c) (_connector_tokens c)
    (_total_connector_weight c) (_max_conversion_fee c) v
    (_conversions_enabled c) (_connectors c).
Definition set_conversions_enabled (v : bool) (c : Converter) : Converter :=
  mkConverter (_owner c) (_manager c) (_token c) (_allow_registry_update c)
    (_prev_registry c) (_registry c) (_connector_tokens c)
    (_total_connector_weight c) (_max_conversion_fee c) (_conversion_fee c) v
    (_connectors c).
Definition set_connectors (v : gmap Address Connector) (c : Converter) : Converter :=
  mkConverter (_owner c) (_manager c) (_token c) (_allow_registry_update c)
    (_prev_registry c) (_registry c) (_connector_tokens c)
    (_total_connector_weight c) (_max_conversion_fee c) (_conversion_fee c)
    (_conversions_enabled c) v.

(** ConnectorDict.__getitem__: a key never written to reads as the wrapper
    of an empty sub-database. *)
Definition connector_at (key : Address) (c : Converter) : Connector :=
  default unset_connector (_connectors c !! key).

(** A [VarDB.set] on one of the five slots of [self._connectors[key]]. *)
Definition connector_update (key : Address) (f : Connector -> Connector)
    (c : Converter) : Converter :=
  set_connectors (<[key := f (connector_at key c)]> (_connectors c)) c.

(** The event log entries ([@eventlog] methods). *)
Inductive Event :=
| Conversion (_fromToken _toToken _trader : Address)
             (_amount _return _conversionFee : Z)
| PriceDataUpdate (_connectorToken : Address)
                  (_tokenSupply _connectorBalance _connectorWeight : Z)
| ConversionFeeUpdate (_prevFee _newFee : Z)
| ConversionsEnable (_conversionsEnabled : bool).

(** The dict [{'amount': ..., 'fee': ...}] the quoting methods return. *)
Record Returns := mkReturns { returns_amount : Z; returns_fee : Z }.

(** What a call knows about itself: [self.address] and [self.msg.sender]. *)
Record Call := mkCall { score_address : Address; msg_sender : Address }.

(** ** The other SCOREs and the formula library

    The converter reaches the flexible token, the connector tokens and the
    score registry through [ProxyScore] interfaces; [W] is the state of all
    of them.  The first argument of a method is the SCORE called; a method
    that writes takes the calling SCORE next and may fail with the callee's
    message; queries are functions of [W] and always answer.  A call to
    another SCORE changes [W] only: no callee calls back into the
    converter. *)

Class FlexibleToken (W : Type) := {
  totalSupply : Address -> W -> Z;
  issue : Address -> Address -> Address -> Z -> W -> string + W;
  destroy : Address -> Address -> Address -> Z -> W -> string + W
}.

Class IRCToken (W : Type) := {
  balanceOf : Address -> Address -> W -> Z;
  transfer : Address -> Address -> Address -> Z -> string -> W -> string + W
}.

Class ScoreRegistry (W : Type) := {
  getAddress : Address -> RegistryKey -> W -> Address
}.

(** Modelled from the spec: FlexibleTokenController._is_active is not under
    src/; the activation state is "derived from external controller
    lifecycle", so it is a query on the other SCOREs, asked by the
    converter at [self.address] about its token. *)
Class FlexibleTokenController (W : Type) := {
  controller_active : Address -> Address -> W -> bool
}.

(** The functions of [contracts/formula/formula.py] the converter calls
    (the module is not under src/): pure, and reverting on inputs they
    reject. *)
Class Formula := {
  calculate_purchase_return : Z -> Z -> Z -> Z -> string + Z;
  calculate_sale_return : Z -> Z -> Z -> Z -> string + Z;
  calculate_cross_connector_return : Z -> Z -> Z -> Z -> Z -> string + Z
}.

(** ** The state-and-revert monad *)

Record State (W : Type) := mkState {
  db : Converter;
  world : W;
  eventlog : list Event
}.
Arguments mkState {W} _ _ _.
Arguments db {W} _.
Arguments world {W} _.
Arguments eventlog {W} _.

(** Who raised: the converter (and the library code it runs) through
    [revert], or another SCORE during an inter-SCORE call. *)
Inductive Failure :=
| Revert (msg : string)
| CalleeFailed (msg : string).

(** A method returns a value and the state it leaves, or fails leaving the
    state as it was when the exception was raised. *)
Inductive Outcome (W A : Type) :=
| Done (a : A) (s : State W)
| Failed (e : Failure) (s : State W).
Arguments Done {W A} _ _.
Arguments Failed {W A} _ _.

Definition M (W A : Type) := State W -> Outcome W A.

Definition ret {W A} (a : A) : M W A := fun s => Done a s.

Definition bind {W A B} (m : M W A) (k : A -> M W B) : M W B :=
  fun s => match m s with
           | Done a s' => k a s'
           | Failed e s' => Failed e s'
           end.

Notation "x <- m ; k" := (bind m (fun x => k))
  (at level 20, m at level 100, k at level 200, only parsing).
Notation "m ;; k" := (bind m (fun _ => k))
  (at level 100, k at level 200, right associativity, only parsing).

Definition revert {W A} (msg : string) : M W A := fun s => Failed (Revert msg) s.

Definition read {W A} (f : Converter -> A) : M W A := fun s => Done (f (db s)) s.

Definition write {W} (f : Converter -> Converter) : M W unit :=
  fun s => Done tt (mkState (f (db s)) (world s) (eventlog s)).

Definition query {W A} (f : W -> A) : M W A := fun s => Done (f (world s)) s.

Definition call {W} (f : W -> string + W) : M W unit :=
  fun s => match f (world s) with
           | inr w => Done tt (mkState (db s) w (eventlog s))
           | inl msg => Failed (CalleeFailed msg) s
           end.

Definition emit {W} (e : Event) : M W unit :=
  fun s => Done tt (mkState (db s) (world s) (eventlog s ++ [e])).

Definition lift_formula {W} (r : string + Z) : M W Z :=
  fun s => match r with
           | inr v => Done v s
           | inl msg => Failed (Revert msg) s
           end.

Definition when {W} (b : bool) (m : M W unit) : M W unit :=
  fun s => if b then m s else Done tt s.

(** The platform runs a transaction to its end or discards its writes. *)
Definition transact {W A} (m : M W A) (s : State W) : State W :=
  match m s with
  | Done _ s' => s'
  | Failed _ _ => s
  end.

(** The image of an outcome under a map of states. *)
Definition outcome_map {W A} (f : State W -> State W) (o : Outcome W A)
    : Outcome W A :=
  match o with
  | Done a s => Done a (f s)
  | Failed e s => Failed e (f s)
  end.

(** ** The converter's methods *)

Definition _MAX_WEIGHT : Z := 1000000.
Definition _MAX_CONVERSION_FEE : Z := 1000000.

Definition ZERO_SCORE_ADDRESS : Address :=
  "cx0000000000000000000000000000000000000000".

(** Modelled from the spec: utils.is_valid_address is not under src/; a
    "null/empty identity" is refused. *)
Definition is_valid_address (a : Address) : bool :=
  negb (bool_decide (a = ZERO_SCORE_ADDRESS)).

Section Methods.
Context {W : Type}.
Context `{!FlexibleToken W} `{!IRCToken W} `{!ScoreRegistry W}.
Context `{!FlexibleTokenController W} `{!Formula}.

(** Modelled from the spec: utils.require is not under src/; a failed
    requirement is a rejection of the request, and "every rejection carries
    a stable, descriptive reason string". *)
Definition require (condition : bool) (message : string) : M W unit :=
  fun s => if condition then Done tt s else Failed (Revert message) s.

(** Modelled from the spec: utils.require_positive_value is not under
    src/; the value "must be strictly positive".  The text of the message
    is the model's. *)
Definition require_positive_value (value : Z) : M W unit :=
  require (0 <? value) "value should be positive".

(** Modelled from the spec: utils.require_valid_address is not under src/;
    the text of the message is the model's. *)
Definition require_valid_address (a : Address) : M W unit :=
  require (is_valid_address a) "invalid address".

(** Modelled from the spec: utils.require_not_this is not under src/; the
    token may not be "the converter's own identity".  The text of the
    message is the model's. *)
Definition require_not_this (this a : Address) : M W unit :=
  require (negb (bool_decide (this = a))) "address should not be this".

(** Modelled from the spec: utils.safe_sub is not under src/; the
    difference "never below zero", an underflow being a failure.  The text
    of the message is the model's. *)
Definition safe_sub (a b : Z) : M W Z :=
  require (b <=? a) "underflow" ;; ret (a - b).

(** Modelled from the spec: Managed.getOwner (utility/managed.py) is not
    under src/. *)
Definition getOwner : M W Address := read _owner.

(** Modelled from the spec: Managed.require_owner_only is not under src/;
    an owner-only operation is refused to any other caller.  The text of
    the message is the model's. *)
Definition require_owner_only (self : Call) : M W unit :=
  owner <- getOwner ;
  require (bool_decide (msg_sender self = owner)) "owner only".

(** Modelled from the spec: Managed.require_owner_or_manager_only is not
    under src/; an owner-or-manager operation is refused to any other
    caller.  The text of the message is the model's. *)
Definition require_owner_or_manager_only (self : Call) : M W unit :=
  owner <- getOwner ;
  manager <- read _manager ;
  require (bool_decide (msg_sender self = owner)
           || bool_decide (Some (msg_sender self) = manager))
          "owner or manager only".

(** Modelled from the spec: FlexibleTokenController._is_active is not
    under src/; see [controller_active]. *)
Definition _is_active (self : Call) : M W bool :=
  token <- read _token ;
  query (controller_active (score_address self) token).

(** Modelled from the spec: FlexibleTokenController._require_active is not
    under src/; "conversions and return-quoting require active".  The text
    of the message is the model's. *)
Definition _require_active (self : Call) : M W unit :=
  active <- _is_active self ;
  require active "required active".

(** Modelled from the spec: FlexibleTokenController._require_inactive is
    not under src/; adding a reserve requires the converter to be inactive.
    The text of the message is the model's. *)
Definition _require_inactive (self : Call) : M W unit :=
  active <- _is_active self ;
  require (negb active) "required inactive".

(** The checks of converter.py. *)
Definition _require_valid_connector (addr : Address) : M W unit :=
  set <- read (fun c => is_set (connector_at addr c)) ;
  require set "invalid connector".

Definition _require_valid_token (addr : Address) : M W unit :=
  token <- read _token ;
  set <- read (fun c => is_set (connector_at addr c)) ;
  require (bool_decide (addr = token) || set) "invalid token".

Definition _require_valid_max_conversion_fee (conversion_fee : Z) : M W unit :=
  require ((0 <=? conversion_fee) && (conversion_fee <=? _MAX_CONVERSION_FEE))
          "invalid max conversion fee".

Definition _require_valid_conversion_fee (conversion_fee : Z) : M W unit :=
  max_fee <- read _max_conversion_fee ;
  require ((0 <=? conversion_fee) && (conversion_fee <=? max_fee))
          "invalid conversion fee".

Definition _require_valid_connector_weight (_weight : Z) : M W unit :=
  require ((0 <? _weight) && (_weight <=? _MAX_WEIGHT)) "invalid connector weight".

Definition _require_max_total_weight_only : M W unit :=
  total <- read _total_connector_weight ;
  require (total =? _MAX_WEIGHT) "required max total weight".

Definition _require_conversions_allowed : M W unit :=
  enabled <- read _conversions_enabled ;
  require enabled "required conversions enabled".

(** The arithmetic of getFinalAmount, given what [self._conversion_fee]
    holds. *)
Definition final_amount_of (conversion_fee _amount _magnitude : Z) : Z :=
  let final_ratio := _MAX_CONVERSION_FEE - conversion_fee in
  _amount * final_ratio ^ _magnitude / _MAX_CONVERSION_FEE ^ _magnitude.

(** getFinalAmount: given a return amount, the amount minus the
    conversion fee. *)
Definition getFinalAmount (_amount _magnitude : Z) : M W Z :=
  conversion_fee <- read _conversion_fee ;
  ret (final_amount_of conversion_fee _amount _magnitude).

(** getConnectorBalance: the virtual balance if one is defined, otherwise
    the balance the connector token reports for the converter. *)
Definition getConnectorBalance (self : Call) (_connectorToken : Address) : M W Z :=
  _require_valid_connector _connectorToken ;;
  virtual <- read (fun c => is_virtual_balance_enabled (connector_at _connectorToken c)) ;
  if virtual
  then read (fun c => virtual_balance (connector_at _connectorToken c))
  else query (balanceOf _connectorToken (score_address self)).

Definition get_purchase_return (self : Call) (connector_token : Address)
    (amount : Z) (from_conversion : bool) : M W Returns :=
  _require_active self ;;
  _require_valid_connector connector_token ;;
  purchase <- read (fun c => is_purchase_enabled (connector_at connector_token c)) ;
  require purchase "required purchase enabled" ;;
  flexible_token <- read _token ;
  token_supply <- query (totalSupply flexible_token) ;
  balance <- getConnectorBalance self connector_token ;
  let connector_balance := if from_conversion then balance - amount else balance in
  connector_weight <- read (fun c => weight (connector_at connector_token c)) ;
  calculated_amount <- lift_formula
    (calculate_purchase_return token_supply connector_balance connector_weight amount) ;
  final_amount <- getFinalAmount calculated_amount 1 ;
  fee <- safe_sub calculated_amount final_amount ;
  ret (mkReturns final_amount fee).

Definition get_sale_return (self : Call) (connector_token : Address)
    (amount : Z) : M W Returns :=
  _require_active self ;;
  _require_valid_connector connector_token ;;
  flexible_token <- read _token ;
  token_supply <- query (totalSupply flexible_token) ;
  connector_balance <- getConnectorBalance self connector_token ;
  connector_weight <- read (fun c => weight (connector_at connector_token c)) ;
  calculated_amount <- lift_formula
    (calculate_sale_return token_supply connector_balance connector_weight amount) ;
  final_amount <- getFinalAmount calculated_amount 1 ;
  fee <- safe_sub calculated_amount final_amount ;
  ret (mkReturns final_amount fee).

Definition get_cross_connector_return (self : Call) (from_token to_token : Address)
    (amount : Z) (from_conversion : bool) : M W Returns :=
  _require_active self ;;
  _require_valid_connector from_token ;;
  _require_valid_connector to_token ;;
  purchase <- read (fun c => is_purchase_enabled (connector_at to_token c)) ;
  require purchase "required purchase enabled" ;;
  balance <- getConnectorBalance self from_token ;
  let from_connector_balance := if from_conversion then balance - amount else balance in
  to_connector_balance <- getConnectorBalance self to_token ;
  from_weight <- read (fun c => weight (connector_at from_token c)) ;
  to_weight <- read (fun c => weight (connector_at to_token c)) ;
  calculated_amount <- lift_formula
    (calculate_cross_connector_return from_connector_balance from_weight
                                      to_connector_balance to_weight amount) ;
  final_amount <- getFinalAmount calculated_amount 2 ;
  fee <- safe_sub calculated_amount final_amount ;
  ret (mkReturns final_amount fee).

(** _buy: buys the token by depositing one of its connector tokens. *)
Definition _buy (self : Call) (trader connector_token : Address)
    (amount min_return : Z) : M W Z :=
  returns <- get_purchase_return self connector_token amount true ;
  let return_amount := returns_amount returns in
  let fee_amount := returns_fee returns in
  require (min_return <=? return_amount)
          "returning amount less than minimum requested amount" ;;
  virtual <- read (fun c => is_virtual_balance_enabled (connector_at connector_token c)) ;
  when virtual
    (balance <- read (fun c => virtual_balance (connector_at connector_token c)) ;
     write (connector_update connector_token (set_virtual_balance (balance + amount)))) ;;
  flexible_token_address <- read _token ;
  call (issue flexible_token_address (score_address self) trader return_amount) ;;
  emit (Conversion connector_token flexible_token_address trader
                   amount return_amount fee_amount) ;;
  token_supply <- query (totalSupply flexible_token_address) ;
  connector_balance <- getConnectorBalance self connector_token ;
  connector_weight <- read (fun c => weight (connector_at connector_token c)) ;
  emit (PriceDataUpdate connector_token token_supply connector_balance
                        connector_weight) ;;
  ret return_amount.

(** _sell: sells the token by withdrawing from one of its connector tokens. *)
Definition _sell (self : Call) (trader connector_token : Address)
    (amount min_return : Z) : M W Z :=
  returns <- get_sale_return self connector_token amount ;
  let return_amount := returns_amount returns in
  let fee_amount := returns_fee returns in
  require (min_return <=? return_amount)
          "returning amount less than minimum requested amount" ;;
  flexible_token_address <- read _token ;
  token_supply <- query (totalSupply flexible_token_address) ;
  connector_balance <- getConnectorBalance self connector_token ;
  require ((return_amount <? connector_balance)
           || ((return_amount =? connector_balance) && (amount =? token_supply)))
          "returning amount does not meet connector balance condition" ;;
  virtual <- read (fun c => is_virtual_balance_enabled (connector_at connector_token c)) ;
  when virtual
    (balance <- read (fun c => virtual_balance (connector_at connector_token c)) ;
     rest <- safe_sub balance return_amount ;
     write (connector_update connector_token (set_virtual_balance rest))) ;;
  call (destroy flexible_token_address (score_address self)
                (score_address self) amount) ;;
  call (transfer connector_token (score_address self) trader return_amount
                 TRANSFER_DATA) ;;
  emit (Conversion flexible_token_address connector_token trader
                   amount return_amount fee_amount) ;;
  token_supply' <- query (totalSupply flexible_token_address) ;
  connector_balance' <- getConnectorBalance self connector_token ;
  connector_weight <- read (fun c => weight (connector_at connector_token c)) ;
  emit (PriceDataUpdate connector_token token_supply' connector_balance'
                        connector_weight) ;;
  ret return_amount.

(** _convert_cross_connector: converts between two connectors. *)
Definition _convert_cross_connector (self : Call) (trader from_token to_token : Address)
    (amount min_return : Z) : M W Z :=
  returns <- get_cross_connector_return self from_token to_token amount true ;
  let return_amount := returns_amount returns in
  let fee_amount := returns_fee returns in
  require (min_return <=? return_amount)
          "returning amount less than minimum requested amount" ;;
  from_virtual <- read (fun c => is_virtual_balance_enabled (connector_at from_token c)) ;
  when from_virtual
    (balance <- read (fun c => virtual_balance (connector_at from_token c)) ;
     write (connector_update from_token (set_virtual_balance (balance + amount)))) ;;
  to_virtual <- read (fun c => is_virtual_balance_enabled (connector_at to_token c)) ;
  when to_virtual
    (balance <- read (fun c => virtual_balance (connector_at to_token c)) ;
     rest <- safe_sub balance return_amount ;
     write (connector_update to_token (set_virtual_balance rest))) ;;
  to_connector_balance <- getConnectorBalance self to_token ;
  require (return_amount <? to_connector_balance)
          "returning amount does not meet connector balance condition" ;;
  call (transfer to_token (score_address self) trader return_amount
                 TRANSFER_DATA) ;;
  emit (Conversion from_token to_token trader amount return_amount fee_amount) ;;
  flexible_token <- read _token ;
  token_supply <- query (totalSupply flexible_token) ;
  from_balance <- getConnectorBalance self from_token ;
  from_weight <- read (fun c => weight (connector_at from_token c)) ;
  emit (PriceDataUpdate from_token token_supply from_balance from_weight) ;;
  to_balance <- getConnectorBalance self to_token ;
  to_weight <- read (fun c => weight (connector_at to_token c)) ;
  emit (PriceDataUpdate to_token token_supply to_balance to_weight) ;;
  ret return_amount.

(** _convert: converts a specific amount of from_token to to_token. *)
Definition _convert (self : Call) (trader from_token to_token : Address)
    (amount min_return : Z) : M W Z :=
  _require_conversions_allowed ;;
  require_positive_value min_return ;;
  require (negb (bool_decide (from_token = to_token)))
          "'from token' and 'to token' must not be same" ;;
  flexible_token <- read _token ;
  if bool_decide (to_token = flexible_token)
  then _buy self trader from_token amount min_return
  else if bool_decide (from_token = flexible_token)
  then _sell self trader to_token amount min_return
  else _convert_cross_connector self trader from_token to_token amount min_return.

(** [try: ... except Exception as e: revert(str(e))].  The exceptions of
    the platform, a revert of the converter and the failure of a called
    SCORE among them, do not derive from [Exception]: the handler does not
    catch them and they leave the method as they were raised.  What it
    catches is an exception of Python itself, which it turns into a revert
    with the same text (see [tokenFallback] for the one the model has). *)
Definition reverting {A} (m : M W A) : M W A :=
  fun s => match m s with
           | Done a s' => Done a s'
           | Failed (Revert msg) s' => Failed (Revert msg) s'
           | Failed (CalleeFailed msg) s' => Failed (CalleeFailed msg) s'
           end.

(** tokenFallback: invoked when the contract receives tokens.  [_data] is
    given decoded: the pair [toToken], [minReturn] of the conversion format,
    or the text of the exception the decoding raises, with which the call
    fails before anything is written.  (A Python exception of the decoding
    is caught and reverted with its text; the platform's exception for a
    [toToken] that is no address is not caught and fails the call itself;
    the model keeps the text and the state of either.)  [self.getManager]
    is compared without being called, so that disjunct is never true; the
    activation state is a query, so asking it before the other two
    conjuncts changes nothing. *)
Definition tokenFallback (self : Call) (_from : Address) (_value : Z)
    (_data : string + Address * Z) : M W (option Z) :=
  require_positive_value _value ;;
  let from_token := msg_sender self in
  owner <- getOwner ;
  set <- read (fun c => is_set (connector_at from_token c)) ;
  active <- _is_active self ;
  if (bool_decide (_from = owner) || false) && set && negb active
  then ret None
  else
    registry <- read _registry ;
    network <- query (getAddress registry NETWORK) ;
    require (bool_decide (_from = network)) "'trader' must be network only" ;;
    reverting
      (match _data with
       | inr (to_token, min_return) =>
           r <- _convert self _from from_token to_token _value min_return ;
           ret (Some r)
       | inl msg => revert msg
       end).

(** addConnector: defines a new connector for the token. *)
Definition addConnector (self : Call) (_token' : Address) (_weight : Z)
    (_enableVirtualBalance : bool) : M W unit :=
  require_owner_only self ;;
  _require_inactive self ;;
  require_valid_address _token' ;;
  require_not_this (score_address self) _token' ;;
  _require_valid_connector_weight _weight ;;
  flexible_token <- read _token ;
  require (negb (bool_decide (flexible_token = _token')))
          "the input token should not be the flexible token" ;;
  set <- read (fun c => is_set (connector_at _token' c)) ;
  require (negb set) "the input token has already been set" ;;
  total <- read _total_connector_weight ;
  require (total + _weight <=? _MAX_WEIGHT) "total connector weight is overflow" ;;
  write (connector_update _token' (set_virtual_balance 0)) ;;
  write (connector_update _token' (set_weight _weight)) ;;
  write (connector_update _token' (set_is_virtual_balance_enabled _enableVirtualBalance)) ;;
  write (connector_update _token' (set_is_purchase_enabled true)) ;;
  write (connector_update _token' (set_is_set true)) ;;
  write (fun c => set_connector_tokens (_connector_tokens c ++ [_token']) c) ;;
  total' <- read _total_connector_weight ;
  write (set_total_connector_weight (total' + _weight)).

(** updateConnector: updates one of the token connectors. *)
Definition updateConnector (self : Call) (_connectorToken : Address) (_weight : Z)
    (_enableVirtualBalance : bool) (_virtualBalance : Z) : M W unit :=
  require_owner_only self ;;
  _require_valid_connector _connectorToken ;;
  _require_valid_connector_weight _weight ;;
  total <- read _total_connector_weight ;
  old_weight <- read (fun c => weight (connector_at _connectorToken c)) ;
  let new_total_weight := total - old_weight + _weight in
  require (new_total_weight <=? _MAX_WEIGHT) "total connector weight is overflow" ;;
  write (set_total_connector_weight new_total_weight) ;;
  write (connector_update _connectorToken (set_weight _weight)) ;;
  write (connector_update _connectorToken
           (set_is_virtual_balance_enabled _enableVirtualBalance)) ;;
  write (connector_update _connectorToken (set_virtual_balance _virtualBalance)).

(** disableConnectorPurchases: selling stays enabled regardless of the flag. *)
Definition disableConnectorPurchases (self : Call) (_connectorToken : Address)
    (_disable : bool) : M W unit :=
  require_owner_only self ;;
  _require_valid_connector _connectorToken ;;
  write (connector_update _connectorToken (set_is_purchase_enabled (negb _disable))).

(** updateRegistry: sets the registry to whichever address the current
    registry is pointing to. *)
Definition updateRegistry (self : Call) : M W unit :=
  allowed <- read _allow_registry_update ;
  owner <- getOwner ;
  require (allowed || bool_decide (msg_sender self = owner))
          "should be allowed updating or caller is the owner" ;;
  registry <- read _registry ;
  new_registry <- query (getAddress registry SCORE_REGISTRY) ;
  require_valid_address new_registry ;;
  registry' <- read _registry ;
  require (negb (bool_decide (new_registry = registry')))
          "new registry should not be same with old one" ;;
  registry'' <- read _registry ;
  write (set_prev_registry registry'') ;;
  write (set_registry new_registry).

(** restoreRegistry: reverts to the previous registry. *)
Definition restoreRegistry (self : Call) : M W unit :=
  require_owner_or_manager_only self ;;
  prev <- read _prev_registry ;
  write (set_registry prev) ;;
  write (set_allow_registry_update false).

Definition disableRegistryUpdate (self : Call) (_disable : bool) : M W unit :=
  require_owner_or_manager_only self ;;
  write (set_allow_registry_update (negb _disable)).

(** disableConversions: the flag is written, and the event logged, only
    when the stored flag equals [_disable]. *)
Definition disableConversions (self : Call) (_disable : bool) : M W unit :=
  require_owner_or_manager_only self ;;
  enabled <- read _conversions_enabled ;
  when (bool_decide (enabled = _disable))
    (let enable := negb _disable in
     write (set_conversions_enabled enable) ;;
     emit (ConversionsEnable enable)).

Definition setConversionFee (self : Call) (_conversionFee : Z) : M W unit :=
  require_owner_or_manager_only self ;;
  _require_valid_conversion_fee _conversionFee ;;
  prev <- read _conversion_fee ;
  emit (ConversionFeeUpdate prev _conversionFee) ;;
  write (set_conversion_fee _conversionFee).

(** getReturn: the expected return of a conversion, without performing it. *)
Definition getReturn (self : Call) (_fromToken _toToken : Address) (_amount : Z)
    : M W Returns :=
  require (negb (bool_decide (_fromToken = _toToken)))
          "'from token' and 'to token' must not be same" ;;
  flexible_token <- read _token ;
  if bool_decide (_toToken = flexible_token)
  then get_purchase_return self _fromToken _amount false
  else if bool_decide (_fromToken = flexible_token)
  then get_sale_return self _toToken _amount
  else get_cross_connector_return self _fromToken _toToken _amount false.

(** The read-only accessors. *)
Definition isAllowRegistryUpdate : M W bool := read _allow_registry_update.
Definition getMaxConversionFee : M W Z := read _max_conversion_fee.
Definition getConversionFee : M W Z := read _conversion_fee.
Definition isConversionsEnabled : M W bool := read _conversions_enabled.
Definition getConnectorTokenCount : M W Z :=
  read (fun c => Z.of_nat (length (_connector_tokens c))).

(** The storage before installation: every [VarDB] reads its default; an
    address slot not yet written is given the zero address, which, like
    [None], is no valid address. *)
Definition uninstalled : Converter :=
  mkConverter ZERO_SCORE_ADDRESS None ZERO_SCORE_ADDRESS false
    ZERO_SCORE_ADDRESS ZERO_SCORE_ADDRESS [] 0 0 0 false ∅.

(** on_install.  Modelled from the spec: the [on_install] of the base
    classes is not under src/; the installer becomes the owner and the
    governed token, "fixed at installation", must be a valid address. *)
Definition on_install (self : Call) (_token' _registry' : Address)
    (_maxConversionFee : Z) (_connectorToken : option Address)
    (_connectorWeight : Z) : M W unit :=
  require_valid_address _registry' ;;
  _require_valid_max_conversion_fee _maxConversionFee ;;
  write (set_owner (msg_sender self)) ;;
  require_valid_address _token' ;;
  write (set_token _token') ;;
  write (set_allow_registry_update true) ;;
  write (set_registry _registry') ;;
  write (set_prev_registry _registry') ;;
  write (set_conversions_enabled true) ;;
  write (set_max_conversion_fee _maxConversionFee) ;;
  match _connectorToken with
  | Some t => when (is_valid_address t) (addConnector self t _connectorWeight false)
  | None => ret tt
  end.

(** ** Transactions *)

(** The external methods that write. *)
Inductive Request :=
| TokenFallback (_from : Address) (_value : Z) (_data : string + Address * Z)
| AddConnector (_token' : Address) (_weight : Z) (_enableVirtualBalance : bool)
| UpdateConnector (_connectorToken : Address) (_weight : Z)
                  (_enableVirtualBalance : bool) (_virtualBalance : Z)
| DisableConnectorPurchases (_connectorToken : Address) (_disable : bool)
| UpdateRegistry
| RestoreRegistry
| DisableRegistryUpdate (_disable : bool)
| DisableConversions (_disable : bool)
| SetConversionFee (_conversionFee : Z).

Definition dispatch (self : Call) (r : Request) : M W unit :=
  match r with
  | TokenFallback f v d => tokenFallback self f v d ;; ret tt
  | AddConnector t w e => addConnector self t w e
  | UpdateConnector t w e v => updateConnector self t w e v
  | DisableConnectorPurchases t d => disableConnectorPurchases self t d
  | UpdateRegistry => updateRegistry self
  | RestoreRegistry => restoreRegistry self
  | DisableRegistryUpdate d => disableRegistryUpdate self d
  | DisableConversions d => disableConversions self d
  | SetConversionFee f => setConversionFee self f
  end.

(** What happens to an installed converter: a transaction sent to it by
    some sender, or anything at all happening to the other SCOREs. *)
Inductive Step :=
| Transaction (sender : Address) (r : Request)
| Elsewhere (w : W).

Definition step (this : Address) (s : State W) (x : Step) : State W :=
  match x with
  | Transaction sender r => transact (dispatch (mkCall this sender) r) s
  | Elsewhere w => mkState (db s) w (eventlog s)
  end.

Definition run (this : Address) (xs : list Step) (s : State W) : State W :=
  fold_left (step this) xs s.

End Methods.

(** ** A small world to run the converter in

    One flexible token with its supply, the converter's holdings of each
    connector token, the activation switch and the address the registry
    forwards to; the formula is the closed form of the curve at full weight. *)

Record Ledger := mkLedger {
  ledger_supply : Z;
  ledger_held : gmap Address Z;
  ledger_active : bool;
  ledger_forward : Address
}.

Definition ledger_network : Address := "hx00000000000000000000000000000000000000e0".

#[export] Instance ledger_flexible_token : FlexibleToken Ledger := {
  totalSupply _ w := ledger_supply w;
  issue _ _ _ v w :=
    inr (mkLedger (ledger_supply w + v) (ledger_held w) (ledger_active w)
                  (ledger_forward w));
  destroy _ _ _ v w :=
    if v <=? ledger_supply w
    then inr (mkLedger (ledger_supply w - v) (ledger_held w) (ledger_active w)
                       (ledger_forward w))
    else inl "out of balance"%string
}.

#[export] Instance ledger_irc_token : IRCToken Ledger := {
  balanceOf t _ w := default 0 (ledger_held w !! t);
  transfer t _ _ v _ w :=
    let held := default 0 (ledger_held w !! t) in
    if v <=? held
    then inr (mkLedger (ledger_supply w) (<[t := held - v]> (ledger_held w))
                       (ledger_active w) (ledger_forward w))
    else inl "out of balance"%string
}.

#[export] Instance ledger_score_registry : ScoreRegistry Ledger := {
  getAddress _ key w :=
    match key with
    | NETWORK => ledger_network
    | SCORE_REGISTRY => ledger_forward w
    end
}.

#[export] Instance ledger_controller : FlexibleTokenController Ledger := {
  controller_active _ _ w := ledger_active w
}.

Definition full_weight_guard (supply balance : Z) (r : Z) : string + Z :=
  if (0 <? supply) && (0 <? balance) then inr r else inl "invalid parameters"%string.

#[export] Instance full_weight_formula : Formula := {
  calculate_purchase_return supply balance _ amount :=
    full_weight_guard supply balance (supply * amount / balance);
  calculate_sale_return supply balance _ amount :=
    full_weight_guard supply balance (balance * amount / supply);
  calculate_cross_connector_return from_balance _ to_balance _ amount :=
    full_weight_guard from_balance to_balance
                      (to_balance * amount / (from_balance + amount))
}.

Definition alice : Address := "hx00000000000000000000000000000000000000a1".
Definition bob : Address := "hx00000000000000000000000000000000000000b2".
Definition converter_score : Address := "cx00000000000000000000000000000000000000c0".
Definition flexible_score : Address := "cx00000000000000000000000000000000000000f1".
Definition registry_score : Address := "cx00000000000000000000000000000000000000e1".
Definition registry_score' : Address := "cx00000000000000000000000000000000000000e2".
Definition icx_score : Address := "cx00000000000000000000000000000000000000d1".
Definition usd_score : Address := "cx00000000000000000000000000000000000000d2".

Definition ledger0 : Ledger :=
  mkLedger 1000 (<[icx_score := 500]> (<[usd_score := 400]> ∅)) false registry_score'.

(** A converter installed by [alice] with a ceiling of 50% on the fee. *)
Definition installed_half : State Ledger :=
  transact (on_install (mkCall converter_score alice) flexible_score registry_score
                       500000 None 0)
           (mkState uninstalled ledger0 []).

(** The same converter once the fee is set to 25%. *)
Definition half_quarter : State Ledger :=
  run converter_score [Transaction alice (SetConversionFee 250000)] installed_half.

(** A converter installed by [alice] with [icx_score] as first connector. *)
Definition installed_full : State Ledger :=
  transact (on_install (mkCall converter_score alice) flexible_score registry_score
                       1000000 (Some icx_score) 500000)
           (mkState uninstalled ledger0 []).

Definition ledger1 : Ledger :=
  mkLedger 1000 (<[icx_score := 500]> (<[usd_score := 400]> ∅)) true registry_score'.

(** [alice] adds a second connector, gives both a virtual balance, and
    the converter is activated. *)
Definition setup : list (@Step Ledger) :=
  [ Transaction alice (AddConnector usd_score 500000 true);
    Transaction alice (UpdateConnector icx_score 500000 true 1000);
    Transaction alice (UpdateConnector usd_score 500000 true 100);
    Transaction bob (AddConnector flexible_score 1 false);
    Transaction alice (AddConnector bob 1 false);
    Elsewhere ledger1 ].

Definition trading : State Ledger := run converter_score setup installed_full.

(** ** Notions used in the statements *)

(** The balance the curve is fed for a connector: what getConnectorBalance
    returns once the connector is known to be set. *)
Definition effective_balance {W} `{!IRCToken W} (self : Call) (t : Address)
    (s : State W) : Z :=
  if is_virtual_balance_enabled (connector_at t (db s))
  then virtual_balance (connector_at t (db s))
  else balanceOf t (score_address self) (world s).

(** A change of the storage alone. *)
Definition on_db {W} (h : Converter -> Converter) (s : State W) : State W :=
  mkState (h (db s)) (world s) (eventlog s).

(** A computation that never writes, calls or logs, and so can only
    return or revert where it started. *)
Definition readonly {W A} (m : M W A) : Prop :=
  forall s, (exists a, m s = Done a s) \/ (exists msg, m s = Failed (Revert msg) s).

(** A computation that does not notice the storage change [h]: run after
    [h] it does what it does without, and leaves [h] applied. *)
Definition commutes {W A} (h : Converter -> Converter) (m : M W A) : Prop :=
  forall s, m (on_db h s) = outcome_map (on_db h) (m s).

(** A computation all of whose storages, final or at the point of failure,
    are related to the initial one. *)
Definition maintains {W A} (R : Converter -> Converter -> Prop) (m : M W A) : Prop :=
  forall s, match m s with
            | Done _ s' => R (db s) (db s')
            | Failed _ s' => R (db s) (db s')
            end.

(** The sum of the weights of the connectors listed in [_connector_tokens]. *)
Fixpoint sum_weights_over (c : Converter) (ts : list Address) : Z :=
  match ts with
  | [] => 0
  | t :: ts => weight (connector_at t c) + sum_weights_over c ts
  end.

Definition sum_weights (c : Converter) : Z :=
  sum_weights_over c (_connector_tokens c).

(** The list of connector tokens names each present connector once, and
    the stored total is the sum of their weights, at most 1,000,000. *)
Record weights_consistent (c : Converter) : Prop := {
  listed_once : NoDup (_connector_tokens c);
  listed_present : forall t, t ∈ _connector_tokens c <-> is_set (connector_at t c) = true;
  total_is_sum : _total_connector_weight c = sum_weights c;
  total_bounded : _total_connector_weight c <= 1000000
}.

(** Two storages that agree on everything the weights depend on. *)
Definition same_weights (c c' : Converter) : Prop :=
  _connector_tokens c' = _connector_tokens c
  /\ _total_connector_weight c' = _total_connector_weight c
  /\ forall t, weight (connector_at t c') = weight (connector_at t c)
            /\ is_set (connector_at t c') = is_set (connector_at t c).

(** Two storages that differ at most in virtual balances. *)
Definition same_but_virtual_balances (c c' : Converter) : Prop :=
  _owner c' = _owner c /\ _manager c' = _manager c /\ _token c' = _token c
  /\ _allow_registry_update c' = _allow_registry_update c
  /\ _prev_registry c' = _prev_registry c /\ _registry c' = _registry c
  /\ _connector_tokens c' = _connector_tokens c
  /\ _total_connector_weight c' = _total_connector_weight c
  /\ _max_conversion_fee c' = _max_conversion_fee c
  /\ _conversion_fee c' = _conversion_fee c
  /\ _conversions_enabled c' = _conversions_enabled c
  /\ forall t, connector_at t c'
             = set_virtual_balance (virtual_balance (connector_at t c'))
                                   (connector_at t c).

(** The registry-update switch, once off, is still off. *)
Definition stays_disallowed (c c' : Converter) : Prop :=
  _allow_registry_update c = false -> _allow_registry_update c' = false.

(** ** Further methods of the converter *)

Section Accessors.
Context {W : Type}.
Context `{!FlexibleToken W} `{!IRCToken W} `{!ScoreRegistry W}.
Context `{!FlexibleTokenController W} `{!Formula}.

(** isActive, getPreviousRegistry, getRegistry. *)
Definition isActive (self : Call) : M W bool := _is_active self.
Definition getPreviousRegistry : M W Address := read _prev_registry.
Definition getRegistry : M W Address := read _registry.

(** getConnector: the five slots of a set connector, the empty dict for
    any other address. *)
Definition getConnector (_address : Address) : M W (option Connector) :=
  set <- read (fun c => is_set (connector_at _address c)) ;
  if set
  then connector <- read (connector_at _address) ;
       ret (Some connector)
  else ret None.

(** withdrawTokens: the guard of the converter, then the method of the base
    class, which is not under src/ and is taken as [super_withdrawTokens]. *)
Definition withdrawTokens
    (super_withdrawTokens : Call -> Address -> Address -> Z -> M W unit)
    (self : Call) (_token' _to : Address) (_amount : Z) : M W unit :=
  active <- _is_active self ;
  set <- read (fun c => is_set (connector_at _token' c)) ;
  require (negb active || negb set)
          "withdrawing token should be inactive or not a connector token" ;;
  super_withdrawTokens self _token' _to _amount.

End Accessors.

(** ** Further notions used in the statements *)

(** The fee is within its ceiling, and the ceiling within a million. *)
Definition fee_bounded (c : Converter) : Prop :=
  0 <= _conversion_fee c <= _max_conversion_fee c
  /\ _max_conversion_fee c <= 1000000.

(** Two storages with the same fee and the same ceiling. *)
Definition same_fees (c c' : Converter) : Prop :=
  _conversion_fee c' = _conversion_fee c
  /\ _max_conversion_fee c' = _max_conversion_fee c.

(** What installation fixes: the governed token and the fee ceiling. *)
Definition keeps_installed (c c' : Converter) : Prop :=
  _token c' = _token c /\ _max_conversion_fee c' = _max_conversion_fee c.

(** No connector is lost: the list of connector tokens only grows at its
    end, and a set connector stays set. *)
Definition connectors_kept (c c' : Converter) : Prop :=
  (exists more, _connector_tokens c' = _connector_tokens c ++ more)
  /\ forall t, is_set (connector_at t c) = true -> is_set (connector_at t c') = true.

(** Every set connector passed the checks of addConnector: a valid
    address, neither the governed token nor the converter itself, with a
    weight of 1 to 1,000,000 parts per million. *)
Definition connectors_sound (this : Address) (c : Converter) : Prop :=
  forall t, is_set (connector_at t c) = true ->
    0 < weight (connector_at t c) <= 1000000
    /\ t <> _token c /\ t <> this /\ is_valid_address t = true.

(** Both registry slots hold a valid address. *)
Definition registries_valid (c : Converter) : Prop :=
  is_valid_address (_registry c) = true
  /\ is_valid_address (_prev_registry c) = true.

Definition same_registries (c c' : Converter) : Prop :=
  _registry c' = _registry c /\ _prev_registry c' = _prev_registry c.

(** The conversions switch, once off, is still off. *)
Definition stays_disabled (c c' : Converter) : Prop :=
  _conversions_enabled c = false -> _conversions_enabled c' = false.

(** The storage after a virtual balance was credited or debited, if the
    connector keeps one. *)
Definition virtual_balance_moved (t : Address) (delta : Z) (c : Converter)
    : Converter :=
  if is_virtual_balance_enabled (connector_at t c)
  then connector_update t
         (set_virtual_balance (virtual_balance (connector_at t c) + delta)) c
  else c.

(** Two storages that differ at most in the connector table, the list of
    connector tokens and the total weight. *)
Definition same_settings (c c' : Converter) : Prop :=
  _owner c' = _owner c /\ _manager c' = _manager c /\ _token c' = _token c
  /\ _allow_registry_update c' = _allow_registry_update c
  /\ _prev_registry c' = _prev_registry c /\ _registry c' = _registry c
  /\ _max_conversion_fee c' = _max_conversion_fee c
  /\ _conversion_fee c' = _conversion_fee c
  /\ _conversions_enabled c' = _conversions_enabled c.

(** The amount and the fee of a quote, given the output of the curve. *)
Definition splits (c : Converter) (magnitude raw : Z) (q : Returns) : Prop :=
  returns_amount q = final_amount_of (_conversion_fee c) raw magnitude
  /\ returns_amount q + returns_fee q = raw
  /\ 0 <= returns_fee q.

(** A computation that leaves the other SCOREs as they are, whether it
    returns or fails. *)
Definition leaves_world {W A} (m : M W A) : Prop :=
  forall s, match m s with
            | Done _ s' => world s' = world s
            | Failed _ s' => world s' = world s
            end.

(** ** Runs in which a request is never accepted *)

Section Runs.
Context {W : Type}.
Context `{!FlexibleToken W} `{!IRCToken W} `{!ScoreRegistry W}.
Context `{!FlexibleTokenController W} `{!Formula}.

(** Along the run [xs] from [s] no call of [r0] is accepted: every
    transaction that calls it is rejected where it is sent. *)
Fixpoint never_accepted (this : Address) (r0 : Request) (xs : list Step)
    (s : State W) : Prop :=
  match xs with
  | [] => True
  | x :: xs' =>
      match x with
      | Transaction sender r =>
          r = r0 -> exists e s', dispatch (mkCall this sender) r s = Failed e s'
      | Elsewhere _ => True
      end
      /\ never_accepted this r0 xs' (step this s x)
  end.

End Runs.

(** ** The script that prints the scaling factors of the formula

    [contracts/formula/auto_generate/print_int_scaling_factors.py].  Text
    is a list of characters. *)

Definition text (s : string) : list ascii := String.list_ascii_of_string s.

(** What stops the script: the exceptions of [<<]. *)
Inductive ShiftError :=
| NegativeShiftCount  (* ValueError: negative shift count *)
| ShiftTooLarge.      (* OverflowError or MemoryError *)

(** The digits of [hex] and of the [x] presentation type. *)
Definition hex_digit (d : Z) : ascii :=
  nth (Z.to_nat d) (text "0123456789abcdef") "0"%char.

(** The digits of [n >= 0] in base 16, most significant first, in front
    of [acc]; [fuel] bounds their number. *)
Fixpoint hex_digits (fuel : nat) (n : Z) (acc : list ascii) : list ascii :=
  match fuel with
  | O => acc
  | S fuel' =>
      let acc' := hex_digit (n mod 16) :: acc in
      if n / 16 =? 0 then acc' else hex_digits fuel' (n / 16) acc'
  end.

Definition hex_magnitude (n : Z) : list ascii :=
  hex_digits (S (Z.to_nat (Z.log2 n))) n [].

(** The builtin [hex]. *)
Definition hex (n : Z) : list ascii :=
  if n <? 0 then text "-0x" ++ hex_magnitude (- n)
  else text "0x" ++ hex_magnitude n.

(** ['{0:#0{1}x}'.format(n, width)]: the sign, the prefix [0x], then
    zeros up to [width] characters in all, then the digits. *)
Definition format_alternate_zero_hex (n width : Z) : list ascii :=
  let sign := if n <? 0 then text "-" else [] in
  let digits := hex_magnitude (Z.abs n) in
  let natural := Z.of_nat (length sign + 2 + length digits) in
  sign ++ text "0x" ++ repeat "0"%char (Z.to_nat (width - natural)) ++ digits.

Section Script.
(** The largest shift count the interpreter carries out on a non-zero
    int; it depends on the machine.  Beyond it [<<] raises OverflowError
    or MemoryError. *)
Variable shift_limit : Z.

(** [MAX_PRECISION] is imported from [common.constants], which is not
    under src/. *)
Variable MAX_PRECISION : Z.

(** [x << n] on ints. *)
Definition shift_left (x n : Z) : ShiftError + Z :=
  if n <? 0 then inl NegativeShiftCount
  else if x =? 0 then inr 0
  else if shift_limit <? n then inl ShiftTooLarge
  else inr (Z.shiftl x n).

Definition FIXED_1 : ShiftError + Z := shift_left 1 MAX_PRECISION.
Definition FIXED_2 : ShiftError + Z := shift_left 2 MAX_PRECISION.
Definition MAX_NUM : ShiftError + Z := shift_left 1 (256 - MAX_PRECISION).

(** The lines the script prints, or the exception that stops it before it
    prints any. *)
Definition print_int_scaling_factors : ShiftError + list (list ascii) :=
  match FIXED_1 with
  | inl e => inl e
  | inr fixed_1 =>
      match FIXED_2 with
      | inl e => inl e
      | inr fixed_2 =>
          match MAX_NUM with
          | inl e => inl e
          | inr max_num =>
              let maxLen :=
                Z.of_nat (length (hex (Z.max fixed_1 (Z.max fixed_2 max_num)))) in
              inr [ text "    _FIXED_1 = " ++ format_alternate_zero_hex fixed_1 maxLen;
                    text "    _FIXED_2 = " ++ format_alternate_zero_hex fixed_2 maxLen;
                    text "    _MAX_NUM = " ++ format_alternate_zero_hex max_num maxLen ]
          end
      end
  end.

End Script.

(** * Properties *)

(** ** The conversion fee *)

Section Fee.
Context {W : Type}.

Lemma getFinalAmount_eq (s : State W) (_amount _magnitude : Z) :
  getFinalAmount _amount _magnitude s
  = Done (final_amount_of (_conversion_fee (db s)) _amount _magnitude) s.
Proof. reflexivity. Qed.

Lemma final_amount_of_nonneg (cf a m : Z) :
  0 <= a -> cf <= _MAX_CONVERSION_FEE -> 0 <= final_amount_of cf a m.
Proof.
  intros Ha Hcf. unfold final_amount_of, _MAX_CONVERSION_FEE in *.
  destruct (Z.le_gt_cases 0 m) as [Hm | Hm].
  - apply Z.div_pos.
    + apply Z.mul_nonneg_nonneg; [lia | apply Z.pow_nonneg; lia].
    + apply Z.pow_pos_nonneg; lia.
  - rewrite (Z.pow_neg_r 1000000 m) by lia. rewrite Z.div_0_r. lia.
Qed.

(** C1, as amended: the denominator of the fee is the constant 1,000,000
    parts per million, not the ceiling chosen at installation.  For
    rawAmount >= 0, magnitude 1 or 2 and 0 <= conversionFee <=
    maxConversionFee <= 1,000,000, getFinalAmount returns, leaving the
    state alone, rawAmount * (1,000,000 - conversionFee)^magnitude //
    1,000,000^magnitude, the division truncating (which is flooring here);
    whenever the installed ceiling is 1,000,000 this is the formula over
    maxConversionFee. *)
Theorem getFinalAmount_ppm (s : State W) (rawAmount magnitude : Z) :
  0 <= rawAmount ->
  magnitude = 1 \/ magnitude = 2 ->
  0 <= _conversion_fee (db s) <= _max_conversion_fee (db s) ->
  _max_conversion_fee (db s) <= 1000000 ->
  exists r,
    getFinalAmount rawAmount magnitude s = Done r s
    /\ r = rawAmount * (1000000 - _conversion_fee (db s)) ^ magnitude
            / 1000000 ^ magnitude
    /\ r = Z.quot (rawAmount * (1000000 - _conversion_fee (db s)) ^ magnitude)
                   (1000000 ^ magnitude)
    /\ (_max_conversion_fee (db s) = 1000000 ->
        r = rawAmount
            * (_max_conversion_fee (db s) - _conversion_fee (db s)) ^ magnitude
            / _max_conversion_fee (db s) ^ magnitude).
Proof.
  intros Hraw Hm Hfee Hmax.
  exists (final_amount_of (_conversion_fee (db s)) rawAmount magnitude).
  split; [apply getFinalAmount_eq|].
  unfold final_amount_of, _MAX_CONVERSION_FEE.
  split; [reflexivity|]. split.
  - rewrite Z.quot_div_nonneg; [reflexivity| |].
    + apply Z.mul_nonneg_nonneg; [lia|]. apply Z.pow_nonneg. lia.
    + apply Z.pow_pos_nonneg; lia.
  - intros ->. reflexivity.
Qed.

(** C7, as amended: for raw >= 0 and 0 <= fee <= maxFee,
    getFinalAmount(raw, 1) <= raw, with equality if and only if fee == 0
    or raw == 0. *)
Theorem getFinalAmount_le_raw (s : State W) (raw : Z) :
  0 <= raw ->
  0 <= _conversion_fee (db s) <= _max_conversion_fee (db s) ->
  exists r,
    getFinalAmount raw 1 s = Done r s
    /\ r <= raw
    /\ (r = raw <-> _conversion_fee (db s) = 0 \/ raw = 0).
Proof.
  intros Hraw [Hfee _].
  exists (final_amount_of (_conversion_fee (db s)) raw 1).
  split; [apply getFinalAmount_eq|].
  unfold final_amount_of, _MAX_CONVERSION_FEE.
  rewrite !Z.pow_1_r.
  set (f := _conversion_fee (db s)) in *.
  assert (Hdiv : raw * (1000000 - f) / 1000000 <= raw).
  { apply Z.div_le_upper_bound; nia. }
  split; [exact Hdiv|]. split.
  - intros Heq.
    assert (Hlow : 1000000 * raw <= raw * (1000000 - f)).
    { rewrite <- Heq at 1. apply Z.mul_div_le. lia. }
    destruct (Z.eq_dec raw 0) as [->|Hne]; [now right|left]. nia.
  - intros [Hf | Hr].
    + rewrite Hf, Z.sub_0_r. apply Z.div_mul. lia.
    + subst raw. reflexivity.
Qed.

End Fee.

(** ** Reasoning about the monad *)

Section Monad.
Context {W : Type}.

Lemma bind_done {A B} (m : M W A) (k : A -> M W B) s b s2 :
  bind m k s = Done b s2 ->
  exists a s1, m s = Done a s1 /\ k a s1 = Done b s2.
Proof.
  unfold bind. destruct (m s) as [a s1|e s1]; [|discriminate].
  intros Hk. exists a, s1. split; [reflexivity|exact Hk].
Qed.

Lemma bind_failed {A B} (m : M W A) (k : A -> M W B) s e s2 :
  bind m k s = Failed e s2 ->
  m s = Failed e s2 \/ exists a s1, m s = Done a s1 /\ k a s1 = Failed e s2.
Proof.
  unfold bind. destruct (m s) as [a s1|e1 s1].
  - intros Hk. right. exists a, s1. split; [reflexivity|exact Hk].
  - intros [= -> ->]. left. reflexivity.
Qed.

Lemma bind_run_done {A B} (m : M W A) (k : A -> M W B) s a s1 :
  m s = Done a s1 -> bind m k s = k a s1.
Proof. unfold bind. intros ->. reflexivity. Qed.

Lemma bind_run_failed {A B} (m : M W A) (k : A -> M W B) s e s1 :
  m s = Failed e s1 -> bind m k s = Failed e s1.
Proof. unfold bind. intros ->. reflexivity. Qed.

Lemma require_done (b : bool) msg (s s' : State W) u :
  require b msg s = Done u s' -> b = true /\ s' = s.
Proof. destruct b; cbn; [intros [= _ <-]; auto | discriminate]. Qed.

Lemma require_failed (b : bool) msg (s s' : State W) e :
  require b msg s = Failed e s' -> b = false /\ e = Revert msg /\ s' = s.
Proof. destruct b; cbn; [discriminate | intros [= <- <-]; auto]. Qed.

Lemma require_true msg (s : State W) : require true msg s = Done tt s.
Proof. reflexivity. Qed.

Lemma require_false msg (s : State W) : require false msg s = Failed (Revert msg) s.
Proof. reflexivity. Qed.

(** *** Read-only computations *)

Lemma readonly_ret {A} (a : A) : readonly (W:=W) (ret a).
Proof. intros s. left. exists a. reflexivity. Qed.

Lemma readonly_revert {A} msg : readonly (W:=W) (A:=A) (revert msg).
Proof. intros s. right. exists msg. reflexivity. Qed.

Lemma readonly_read {A} (f : Converter -> A) : readonly (W:=W) (read f).
Proof. intros s. left. exists (f (db s)). reflexivity. Qed.

Lemma readonly_query {A} (f : W -> A) : readonly (query f).
Proof. intros s. left. exists (f (world s)). reflexivity. Qed.

Lemma readonly_require b msg : readonly (W:=W) (require b msg).
Proof. intros s. destruct b; [left; exists tt | right; exists msg]; reflexivity. Qed.

Lemma readonly_lift_formula r : readonly (W:=W) (lift_formula r).
Proof.
  intros s. destruct r as [msg|v]; [right; exists msg | left; exists v]; reflexivity.
Qed.

Lemma readonly_when b (m : M W unit) : readonly m -> readonly (when b m).
Proof. intros Hm s. destruct b; [apply Hm|]. left. exists tt. reflexivity. Qed.

Lemma readonly_bind {A B} (m : M W A) (k : A -> M W B) :
  readonly m -> (forall a, readonly (k a)) -> readonly (bind m k).
Proof.
  intros Hm Hk s. unfold bind.
  destruct (Hm s) as [[a ->]|[msg ->]]; [apply Hk|].
  right. exists msg. reflexivity.
Qed.

Lemma readonly_if {A} (b : bool) (m1 m2 : M W A) :
  readonly m1 -> readonly m2 -> readonly (if b then m1 else m2).
Proof. destruct b; auto. Qed.

Lemma readonly_done {A} (m : M W A) s a s' :
  readonly m -> m s = Done a s' -> s' = s.
Proof.
  intros Hm Hs. destruct (Hm s) as [[a' H]|[msg H]]; rewrite H in Hs.
  - injection Hs as _ <-. reflexivity.
  - discriminate.
Qed.

Lemma readonly_failed {A} (m : M W A) s e s' :
  readonly m -> m s = Failed e s' -> s' = s /\ exists msg, e = Revert msg.
Proof.
  intros Hm Hs. destruct (Hm s) as [[a' H]|[msg H]]; rewrite H in Hs.
  - discriminate.
  - injection Hs as <- <-. eauto.
Qed.

End Monad.

Create HintDb readonly.
#[export] Hint Resolve readonly_ret readonly_revert readonly_read readonly_query
  readonly_require readonly_lift_formula readonly_if : readonly.
#[export] Hint Extern 2 (readonly (bind _ _)) =>
  apply readonly_bind; [|intro] : readonly.

(** ** The connector table *)

Lemma connector_at_update (k k' : Address) f c :
  connector_at k' (connector_update k f c)
  = if decide (k = k') then f (connector_at k c) else connector_at k' c.
Proof.
  unfold connector_at, connector_update. cbn.
  rewrite lookup_insert. destruct (decide (k = k')); [subst|]; reflexivity.
Qed.

Lemma connector_at_update_eq (k : Address) f c :
  connector_at k (connector_update k f c) = f (connector_at k c).
Proof. rewrite connector_at_update. destruct (decide (k = k)); congruence. Qed.

Lemma connector_at_update_ne (k k' : Address) f c :
  k <> k' -> connector_at k' (connector_update k f c) = connector_at k' c.
Proof. intros. rewrite connector_at_update. destruct (decide (k = k')); congruence. Qed.

Lemma connector_update_twice (k : Address) f g c :
  connector_update k g (connector_update k f c)
  = connector_update k (fun x => g (f x)) c.
Proof.
  unfold connector_update at 1 3. rewrite connector_at_update_eq.
  unfold connector_update. cbn. rewrite insert_insert_eq. reflexivity.
Qed.

Lemma connector_update_swap (k k' : Address) f g c :
  k <> k' ->
  connector_update k' g (connector_update k f c)
  = connector_update k f (connector_update k' g c).
Proof.
  intros Hne. unfold connector_update at 1 3.
  rewrite !connector_at_update_ne by congruence.
  unfold connector_update. cbn. rewrite insert_insert_ne by congruence.
  reflexivity.
Qed.

(** ** The quoting methods *)

Ltac readonly_tac :=
  repeat first
    [ progress cbv zeta
    | apply readonly_bind; [|intro]
    | apply readonly_if
    | solve [auto with readonly] ].

(** Unfolds the monad's operations, leaving the methods folded. *)
Ltac msimpl :=
  cbv beta iota zeta delta
    [bind ret revert read write query call emit require when lift_formula];
  cbn [db world eventlog].

Ltac msimpl_in H :=
  cbv beta iota zeta delta
    [bind ret revert read write query call emit require when lift_formula] in H;
  cbn [db world eventlog] in H.

Section Quotes.
Context {W : Type}.
Context `{!FlexibleToken W} `{!IRCToken W} `{!ScoreRegistry W}.
Context `{!FlexibleTokenController W} `{!Formula}.

Lemma readonly_getFinalAmount a m : readonly (W:=W) (getFinalAmount a m).
Proof. unfold getFinalAmount. readonly_tac. Qed.

Lemma readonly_safe_sub a b : readonly (W:=W) (safe_sub a b).
Proof. unfold safe_sub. readonly_tac. Qed.

Lemma readonly_require_valid_connector t :
  readonly (W:=W) (_require_valid_connector t).
Proof. unfold _require_valid_connector. readonly_tac. Qed.

Lemma readonly_require_active self : readonly (_require_active self).
Proof. unfold _require_active, _is_active. readonly_tac. Qed.

Lemma readonly_getConnectorBalance self t : readonly (getConnectorBalance self t).
Proof.
  unfold getConnectorBalance.
  apply readonly_bind; [apply readonly_require_valid_connector|intros _].
  readonly_tac.
Qed.

Hint Resolve readonly_getFinalAmount readonly_safe_sub
  readonly_require_valid_connector readonly_require_active
  readonly_getConnectorBalance : readonly.

Lemma readonly_get_purchase_return self t a fc :
  readonly (get_purchase_return self t a fc).
Proof. unfold get_purchase_return. readonly_tac. Qed.

Lemma readonly_get_sale_return self t a : readonly (get_sale_return self t a).
Proof. unfold get_sale_return. readonly_tac. Qed.

Lemma readonly_get_cross_connector_return self f t a fc :
  readonly (get_cross_connector_return self f t a fc).
Proof. unfold get_cross_connector_return. readonly_tac. Qed.

Lemma readonly_getReturn self f t a : readonly (getReturn self f t a).
Proof.
  unfold getReturn.
  apply readonly_bind; [auto with readonly|intros _].
  apply readonly_bind; [auto with readonly|intros tok].
  repeat apply readonly_if;
    auto using readonly_get_purchase_return, readonly_get_sale_return,
               readonly_get_cross_connector_return.
Qed.

(** getConnectorBalance returns the effective balance of a set connector
    and reverts on any other address. *)
Lemma getConnectorBalance_set self t (s : State W) :
  is_set (connector_at t (db s)) = true ->
  getConnectorBalance self t s = Done (effective_balance self t s) s.
Proof.
  intros Hset. unfold getConnectorBalance, _require_valid_connector, effective_balance.
  msimpl. rewrite Hset.
  destruct (is_virtual_balance_enabled (connector_at t (db s))); reflexivity.
Qed.

Lemma getConnectorBalance_unset self t (s : State W) :
  is_set (connector_at t (db s)) = false ->
  getConnectorBalance self t s = Failed (Revert "invalid connector") s.
Proof.
  intros Hset. unfold getConnectorBalance, _require_valid_connector.
  msimpl. rewrite Hset. reflexivity.
Qed.

Lemma getConnectorBalance_done self t (s s' : State W) b :
  getConnectorBalance self t s = Done b s' ->
  s' = s /\ is_set (connector_at t (db s)) = true /\ b = effective_balance self t s.
Proof.
  destruct (is_set (connector_at t (db s))) eqn:Hset.
  - rewrite getConnectorBalance_set by assumption. intros [= <- <-]. auto.
  - rewrite getConnectorBalance_unset by assumption. discriminate.
Qed.

(** A quote is given only for set connectors. *)
Lemma get_sale_return_set self t a (s s' : State W) q :
  get_sale_return self t a s = Done q s' ->
  is_set (connector_at t (db s)) = true.
Proof.
  unfold get_sale_return, _require_active, _is_active, _require_valid_connector.
  msimpl.
  destruct (controller_active _ _ _); [|discriminate].
  destruct (is_set (connector_at t (db s))); [reflexivity|discriminate].
Qed.

Lemma get_purchase_return_set self t a fc (s s' : State W) q :
  get_purchase_return self t a fc s = Done q s' ->
  is_set (connector_at t (db s)) = true
  /\ is_purchase_enabled (connector_at t (db s)) = true.
Proof.
  unfold get_purchase_return, _require_active, _is_active, _require_valid_connector.
  msimpl.
  destruct (controller_active _ _ _); [|discriminate].
  destruct (is_set (connector_at t (db s))); [|discriminate].
  destruct (is_purchase_enabled (connector_at t (db s))); [auto|discriminate].
Qed.

Lemma get_cross_connector_return_set self f t a fc (s s' : State W) q :
  get_cross_connector_return self f t a fc s = Done q s' ->
  is_set (connector_at f (db s)) = true
  /\ is_set (connector_at t (db s)) = true
  /\ is_purchase_enabled (connector_at t (db s)) = true.
Proof.
  unfold get_cross_connector_return, _require_active, _is_active,
    _require_valid_connector.
  msimpl.
  destruct (controller_active _ _ _); [|discriminate].
  destruct (is_set (connector_at f (db s))); [|discriminate].
  destruct (is_set (connector_at t (db s))); [|discriminate].
  destruct (is_purchase_enabled (connector_at t (db s))); [auto|discriminate].
Qed.

End Quotes.

#[export] Hint Resolve readonly_getFinalAmount readonly_safe_sub
  readonly_require_valid_connector readonly_require_active
  readonly_getConnectorBalance readonly_get_purchase_return
  readonly_get_sale_return readonly_get_cross_connector_return
  readonly_getReturn : readonly.

(** ** Selling *)


Section Sell.
Context {W : Type}.
Context `{!FlexibleToken W} `{!IRCToken W} `{!ScoreRegistry W}.
Context `{!FlexibleTokenController W} `{!Formula}.


End Sell.

(** ** Storages related along a computation, and storage changes a
       computation does not notice *)

Section Frames.
Context {W : Type}.

Section Maintains.
Context (R : Converter -> Converter -> Prop) `{!Reflexive R} `{!Transitive R}.

Lemma maintains_readonly {A} (m : M W A) : readonly m -> maintains R m.
Proof.
  intros Hm s. destruct (Hm s) as [[a ->]|[msg ->]]; reflexivity.
Qed.

Lemma maintains_emit e : maintains (W:=W) R (emit e).
Proof. intros s. cbn. reflexivity. Qed.

Lemma maintains_call f : maintains (W:=W) R (call f).
Proof. intros s. unfold call. destruct (f (world s)); cbn; reflexivity. Qed.

Lemma maintains_write f : (forall c, R c (f c)) -> maintains (W:=W) R (write f).
Proof. intros Hf s. cbn. apply Hf. Qed.

Lemma maintains_bind {A B} (m : M W A) (k : A -> M W B) :
  maintains R m -> (forall a, maintains R (k a)) -> maintains R (bind m k).
Proof.
  intros Hm Hk s. unfold bind. specialize (Hm s).
  destruct (m s) as [a s1|e s1]; [|exact Hm].
  specialize (Hk a s1). destruct (k a s1); etransitivity; eassumption.
Qed.

Lemma maintains_when b (m : M W unit) : maintains R m -> maintains R (when b m).
Proof. intros Hm s. unfold when. destruct b; [apply Hm|reflexivity]. Qed.

Lemma maintains_if {A} (b : bool) (m1 m2 : M W A) :
  maintains R m1 -> maintains R m2 -> maintains R (if b then m1 else m2).
Proof. destruct b; auto. Qed.

Lemma maintains_transact {A} (m : M W A) s :
  maintains R m -> R (db s) (db (transact m s)).
Proof.
  intros Hm. unfold transact. specialize (Hm s).
  destruct (m s); [exact Hm|reflexivity].
Qed.

End Maintains.

Section Commutes.
Context (h : Converter -> Converter).

Lemma commutes_ret {A} (a : A) : commutes (W:=W) h (ret a).
Proof. intros s. reflexivity. Qed.

Lemma commutes_revert {A} msg : commutes (W:=W) (A:=A) h (revert msg).
Proof. intros s. reflexivity. Qed.

Lemma commutes_require b msg : commutes (W:=W) h (require b msg).
Proof. intros s. destruct b; reflexivity. Qed.

Lemma commutes_lift_formula r : commutes (W:=W) h (lift_formula r).
Proof. intros s. destruct r; reflexivity. Qed.

Lemma commutes_query {A} (f : W -> A) : commutes h (query f).
Proof. intros s. reflexivity. Qed.

Lemma commutes_emit e : commutes (W:=W) h (emit e).
Proof. intros s. reflexivity. Qed.

Lemma commutes_call f : commutes (W:=W) h (call f).
Proof. intros s. unfold call. cbn. destruct (f (world s)); reflexivity. Qed.

Lemma commutes_read {A} (f : Converter -> A) :
  (forall c, f (h c) = f c) -> commutes (W:=W) h (read f).
Proof. intros Hf s. unfold read. cbn. rewrite Hf. reflexivity. Qed.

Lemma commutes_write g :
  (forall c, g (h c) = h (g c)) -> commutes (W:=W) h (write g).
Proof. intros Hg s. unfold write, on_db. cbn. rewrite Hg. reflexivity. Qed.

Lemma commutes_bind {A B} (m : M W A) (k : A -> M W B) :
  commutes h m -> (forall a, commutes h (k a)) -> commutes h (bind m k).
Proof.
  intros Hm Hk s. unfold bind. rewrite Hm.
  destruct (m s) as [a s1|e s1]; cbn; [apply Hk|reflexivity].
Qed.

Lemma commutes_when b (m : M W unit) : commutes h m -> commutes h (when b m).
Proof. intros Hm s. unfold when. destruct b; [apply Hm|reflexivity]. Qed.

Lemma commutes_if {A} (b : bool) (m1 m2 : M W A) :
  commutes h m1 -> commutes h m2 -> commutes h (if b then m1 else m2).
Proof. destruct b; auto. Qed.

End Commutes.

End Frames.

Create HintDb commutes.
#[export] Hint Resolve commutes_ret commutes_revert commutes_require
  commutes_lift_formula commutes_query commutes_emit commutes_call
  commutes_when commutes_if : commutes.

(** The relations between storages are preorders. *)
#[export] Instance same_weights_refl : Reflexive same_weights.
Proof. intros c. unfold same_weights. auto. Qed.

#[export] Instance same_weights_trans : Transitive same_weights.
Proof.
  intros a b c (H1 & H2 & H3) (H4 & H5 & H6). unfold same_weights.
  split; [congruence|]. split; [congruence|].
  intros t. destruct (H3 t), (H6 t). split; congruence.
Qed.

#[export] Instance same_but_virtual_balances_refl : Reflexive same_but_virtual_balances.
Proof.
  intros c. unfold same_but_virtual_balances.
  repeat (split; [reflexivity|]).
  intros t. destruct (connector_at t c); reflexivity.
Qed.

#[export] Instance same_but_virtual_balances_trans :
  Transitive same_but_virtual_balances.
Proof.
  intros a b c H1 H2. unfold same_but_virtual_balances in *.
  destruct H1 as (?&?&?&?&?&?&?&?&?&?&?&H1).
  destruct H2 as (?&?&?&?&?&?&?&?&?&?&?&H2).
  repeat (split; [congruence|]).
  intros t. rewrite (H2 t) at 1. rewrite (H1 t) at 1. reflexivity.
Qed.

#[export] Instance stays_disallowed_refl : Reflexive stays_disallowed.
Proof. intros c H. exact H. Qed.

#[export] Instance stays_disallowed_trans : Transitive stays_disallowed.
Proof. intros a b c H1 H2 H. auto. Qed.

(** ** What the conversion paths leave alone *)

Ltac maintains_tac side :=
  repeat first
    [ progress cbv zeta
    | solve [apply maintains_readonly; [typeclasses eauto|auto with readonly]]
    | apply maintains_emit; typeclasses eauto
    | apply maintains_call; typeclasses eauto
    | apply maintains_bind; [typeclasses eauto| |intro]
    | apply maintains_when; [typeclasses eauto|]
    | apply maintains_if
    | apply maintains_write; side ].

Section Paths.
Context {W : Type}.
Context `{!FlexibleToken W} `{!IRCToken W} `{!ScoreRegistry W}.
Context `{!FlexibleTokenController W} `{!Formula}.

Section Maintained.
Context (R : Converter -> Converter -> Prop) `{!Reflexive R} `{!Transitive R}.
Hypothesis R_virtual_balance :
  forall t v c, R c (connector_update t (set_virtual_balance v) c).

Lemma maintains_buy self trader t a mr : maintains R (_buy self trader t a mr).
Proof. unfold _buy. maintains_tac ltac:(intro; apply R_virtual_balance). Qed.

Lemma maintains_sell self trader t a mr : maintains R (_sell self trader t a mr).
Proof. unfold _sell. maintains_tac ltac:(intro; apply R_virtual_balance). Qed.

Lemma maintains_convert_cross_connector self trader f t a mr :
  maintains R (_convert_cross_connector self trader f t a mr).
Proof.
  unfold _convert_cross_connector.
  maintains_tac ltac:(intro; apply R_virtual_balance).
Qed.

Lemma maintains_convert self trader f t a mr :
  maintains R (_convert self trader f t a mr).
Proof.
  unfold _convert, _require_conversions_allowed, require_positive_value.
  maintains_tac idtac;
    auto using maintains_buy, maintains_sell, maintains_convert_cross_connector.
Qed.

Lemma maintains_reverting {A} (m : M W A) : maintains R m -> maintains R (reverting m).
Proof.
  intros Hm s. unfold reverting. specialize (Hm s).
  destruct (m s) as [a s1|[msg|msg] s1]; exact Hm.
Qed.

Lemma maintains_tokenFallback self _from _value _data :
  maintains R (tokenFallback self _from _value _data).
Proof.
  unfold tokenFallback, require_positive_value, getOwner, _is_active.
  maintains_tac idtac.
  apply maintains_reverting. destruct _data as [msg|[to_token min_return]].
  - maintains_tac idtac.
  - apply maintains_bind; [typeclasses eauto|apply maintains_convert|intro].
    maintains_tac idtac.
Qed.

End Maintained.

End Paths.

(** Writing a slot of the converter leaves the connector table alone. *)
Lemma connector_at_set_owner t (v : Address) c :
  connector_at t (set_owner v c) = connector_at t c.
Proof. reflexivity. Qed.
Lemma connector_at_set_token t (v : Address) c :
  connector_at t (set_token v c) = connector_at t c.
Proof. reflexivity. Qed.
Lemma connector_at_set_max_conversion_fee t (v : Z) c :
  connector_at t (set_max_conversion_fee v c) = connector_at t c.
Proof. reflexivity. Qed.
Lemma connector_at_set_allow_registry_update t (v : bool) c :
  connector_at t (set_allow_registry_update v c) = connector_at t c.
Proof. reflexivity. Qed.
Lemma connector_at_set_prev_registry t (v : Address) c :
  connector_at t (set_prev_registry v c) = connector_at t c.
Proof. reflexivity. Qed.
Lemma connector_at_set_registry t (v : Address) c :
  connector_at t (set_registry v c) = connector_at t c.
Proof. reflexivity. Qed.
Lemma connector_at_set_connector_tokens t (v : list Address) c :
  connector_at t (set_connector_tokens v c) = connector_at t c.
Proof. reflexivity. Qed.
Lemma connector_at_set_total_connector_weight t (v : Z) c :
  connector_at t (set_total_connector_weight v c) = connector_at t c.
Proof. reflexivity. Qed.
Lemma connector_at_set_conversion_fee t (v : Z) c :
  connector_at t (set_conversion_fee v c) = connector_at t c.
Proof. reflexivity. Qed.
Lemma connector_at_set_conversions_enabled t (v : bool) c :
  connector_at t (set_conversions_enabled v c) = connector_at t c.
Proof. reflexivity. Qed.

(** Writing a virtual balance leaves the other four slots alone. *)
Lemma is_set_update_virtual_balance k v t c :
  is_set (connector_at t (connector_update k (set_virtual_balance v) c))
  = is_set (connector_at t c).
Proof. rewrite connector_at_update. destruct (decide (k = t)); subst; reflexivity. Qed.

Lemma weight_update_virtual_balance k v t c :
  weight (connector_at t (connector_update k (set_virtual_balance v) c))
  = weight (connector_at t c).
Proof. rewrite connector_at_update. destruct (decide (k = t)); subst; reflexivity. Qed.

Lemma is_virtual_balance_enabled_update_virtual_balance k v t c :
  is_virtual_balance_enabled
    (connector_at t (connector_update k (set_virtual_balance v) c))
  = is_virtual_balance_enabled (connector_at t c).
Proof. rewrite connector_at_update. destruct (decide (k = t)); subst; reflexivity. Qed.

Lemma is_purchase_enabled_update_virtual_balance k v t c :
  is_purchase_enabled (connector_at t (connector_update k (set_virtual_balance v) c))
  = is_purchase_enabled (connector_at t c).
Proof. rewrite connector_at_update. destruct (decide (k = t)); subst; reflexivity. Qed.

Lemma virtual_balance_update_virtual_balance k v t c :
  virtual_balance (connector_at t (connector_update k (set_virtual_balance v) c))
  = if decide (k = t) then v else virtual_balance (connector_at t c).
Proof. rewrite connector_at_update. destruct (decide (k = t)); subst; reflexivity. Qed.

Create Rewrite HintDb storage.
#[export] Hint Rewrite is_set_update_virtual_balance weight_update_virtual_balance
  is_virtual_balance_enabled_update_virtual_balance
  is_purchase_enabled_update_virtual_balance
  virtual_balance_update_virtual_balance : storage.
#[export] Hint Rewrite connector_at_set_owner connector_at_set_token connector_at_set_max_conversion_fee connector_at_set_allow_registry_update connector_at_set_prev_registry
  connector_at_set_registry connector_at_set_connector_tokens connector_at_set_total_connector_weight connector_at_set_conversion_fee connector_at_set_conversions_enabled : storage.

(** Normalises the storage a run of writes leaves. *)
Ltac storage :=
  cbn [db world eventlog];
  repeat first
    [ progress autorewrite with storage
    | rewrite connector_at_update_eq
    | rewrite connector_at_update ];
  cbn [virtual_balance weight is_virtual_balance_enabled is_purchase_enabled
       is_set set_virtual_balance set_weight set_is_virtual_balance_enabled
       set_is_purchase_enabled set_is_set
       _owner _manager _token _allow_registry_update _prev_registry _registry
       _connector_tokens _total_connector_weight _max_conversion_fee
       _conversion_fee _conversions_enabled
       set_owner set_token set_max_conversion_fee set_allow_registry_update
       set_prev_registry set_registry set_connector_tokens
       set_total_connector_weight set_conversion_fee set_conversions_enabled
       connector_update set_connectors].

(** ** The connector weights *)

(** Case analysis on the next test of the computation in the goal. *)
Ltac branch :=
  match goal with
  | |- context [if ?b then _ else _] => destruct b eqn:?
  end.

Lemma sum_weights_over_ext (c c' : Converter) ts :
  (forall t, t ∈ ts -> weight (connector_at t c') = weight (connector_at t c)) ->
  sum_weights_over c' ts = sum_weights_over c ts.
Proof.
  induction ts as [|t ts IH]; intros Hw; cbn; [reflexivity|].
  rewrite Hw by apply list_elem_of_here.
  rewrite IH; [reflexivity|].
  intros t' Ht'. apply Hw. apply list_elem_of_further. exact Ht'.
Qed.

Lemma sum_weights_over_app c ts ts' :
  sum_weights_over c (ts ++ ts') = sum_weights_over c ts + sum_weights_over c ts'.
Proof. induction ts as [|t ts IH]; cbn; [reflexivity|]. rewrite IH. lia. Qed.

(** Changing the weight of one connector of a duplicate-free list changes
    the sum by the difference. *)
Lemma sum_weights_over_change (c c' : Converter) ts k :
  NoDup ts -> k ∈ ts ->
  (forall t, t <> k -> weight (connector_at t c') = weight (connector_at t c)) ->
  sum_weights_over c' ts
  = sum_weights_over c ts - weight (connector_at k c) + weight (connector_at k c').
Proof.
  intros Hnd Hin Hother. induction Hnd as [|t ts Hnotin Hnd IH]; cbn.
  - inversion Hin.
  - apply elem_of_cons in Hin as [->|Hin].
    + rewrite (sum_weights_over_ext c c' ts); [lia|].
      intros t' Ht'. apply Hother. intros ->. contradiction.
    + rewrite IH by assumption.
      rewrite (Hother t); [lia|]. intros ->. contradiction.
Qed.

Lemma weights_consistent_same (c c' : Converter) :
  weights_consistent c -> same_weights c c' -> weights_consistent c'.
Proof.
  intros [Hnd Hin Hsum Hle] (Hts & Htot & Hcs).
  assert (Hsw : sum_weights c' = sum_weights c).
  { unfold sum_weights. rewrite Hts. apply sum_weights_over_ext.
    intros t _. apply Hcs. }
  split.
  - rewrite Hts. exact Hnd.
  - intros t. rewrite Hts. destruct (Hcs t) as [_ ->]. apply Hin.
  - rewrite Htot, Hsw. exact Hsum.
  - rewrite Htot. exact Hle.
Qed.

Lemma same_weights_connector_update t g c :
  (forall x, weight (g x) = weight x /\ is_set (g x) = is_set x) ->
  same_weights c (connector_update t g c).
Proof.
  intros Hg. unfold same_weights. split; [reflexivity|]. split; [reflexivity|].
  intros t'. rewrite connector_at_update.
  destruct (decide (t = t')) as [<-|_]; [apply Hg|auto].
Qed.

Section Weights.
Context {W : Type}.
Context `{!FlexibleToken W} `{!IRCToken W} `{!ScoreRegistry W}.
Context `{!FlexibleTokenController W} `{!Formula}.

(** addConnector either fails before writing anything, or appends the
    token, sets its five slots and adds its weight to the total. *)
Lemma addConnector_spec self t w e (s : State W) :
  match addConnector self t w e s with
  | Done _ s' =>
      is_set (connector_at t (db s)) = false
      /\ _total_connector_weight (db s) + w <= 1000000
      /\ _connector_tokens (db s') = _connector_tokens (db s) ++ [t]
      /\ _total_connector_weight (db s') = _total_connector_weight (db s) + w
      /\ (forall t', connector_at t' (db s')
                     = if decide (t = t') then mkConnector 0 w e true true
                       else connector_at t' (db s))
  | Failed e' s' => s' = s /\ exists msg, e' = Revert msg
  end.
Proof.
  unfold addConnector, require_owner_only, getOwner, _require_inactive, _is_active,
    require_valid_address, require_not_this, _require_valid_connector_weight.
  msimpl.
  repeat (branch; [|solve [eauto]]).
  split; [apply negb_true_iff; assumption|].
  split; [unfold _MAX_WEIGHT in *; lia|].
  split; [reflexivity|]. split; [reflexivity|].
  intros t'. storage.
  destruct (decide (t = t')); reflexivity.
Qed.

(** updateConnector either fails before writing anything, or replaces the
    weight and the virtual-balance slots of a set connector and moves the
    total by the difference of the weights. *)
Lemma updateConnector_spec self t w e v (s : State W) :
  match updateConnector self t w e v s with
  | Done _ s' =>
      is_set (connector_at t (db s)) = true
      /\ _total_connector_weight (db s')
         = _total_connector_weight (db s) - weight (connector_at t (db s)) + w
      /\ _total_connector_weight (db s') <= 1000000
      /\ _connector_tokens (db s') = _connector_tokens (db s)
      /\ (forall t', connector_at t' (db s')
                     = if decide (t = t')
                       then mkConnector v w e
                              (is_purchase_enabled (connector_at t (db s)))
                              (is_set (connector_at t (db s)))
                       else connector_at t' (db s))
  | Failed e' s' => s' = s /\ exists msg, e' = Revert msg
  end.
Proof.
  unfold updateConnector, require_owner_only, getOwner, _require_valid_connector,
    _require_valid_connector_weight.
  msimpl.
  repeat (branch; [|solve [eauto]]).
  split; [reflexivity|]. split; [reflexivity|].
  split; [storage; unfold _MAX_WEIGHT in *; lia|].
  split; [reflexivity|].
  intros t'. storage.
  destruct (decide (t = t')); [|reflexivity].
  destruct (connector_at t (db s)); unfold set_virtual_balance, set_is_virtual_balance_enabled, set_weight; simpl in *; congruence.
Qed.

Lemma weights_consistent_add self t w e (s s' : State W) :
  weights_consistent (db s) ->
  addConnector self t w e s = Done tt s' ->
  weights_consistent (db s').
Proof.
  intros [Hnd Hin Hsum Hle] Hrun.
  pose proof (addConnector_spec self t w e s) as Hspec. rewrite Hrun in Hspec.
  destruct Hspec as (Hunset & Hbound & Hts & Htot & Hcs).
  assert (Hfresh : t ∉ _connector_tokens (db s)).
  { intros Ht. apply Hin in Ht. congruence. }
  split.
  - rewrite Hts. apply NoDup_app. split; [exact Hnd|]. split; [|apply NoDup_singleton].
    intros x Hx Hxt. apply list_elem_of_singleton in Hxt. subst x. contradiction.
  - intros t'. rewrite Hts, Hcs, elem_of_app, list_elem_of_singleton.
    destruct (decide (t = t')) as [<-|Hne]; cbn.
    + split; auto.
    + rewrite <- Hin. split; [intros [?|?]; [assumption|congruence]|auto].
  - rewrite Htot. unfold sum_weights. rewrite Hts, sum_weights_over_app.
    rewrite (sum_weights_over_ext (db s) (db s')).
    + cbn. rewrite Hcs. destruct (decide (t = t)); [cbn|congruence].
      fold (sum_weights (db s)). lia.
    + intros t' Ht'. rewrite Hcs.
      destruct (decide (t = t')) as [<-|_]; [contradiction|reflexivity].
  - lia.
Qed.

Lemma weights_consistent_update self t w e v (s s' : State W) :
  weights_consistent (db s) ->
  updateConnector self t w e v s = Done tt s' ->
  weights_consistent (db s').
Proof.
  intros [Hnd Hin Hsum Hle] Hrun.
  pose proof (updateConnector_spec self t w e v s) as Hspec. rewrite Hrun in Hspec.
  destruct Hspec as (Hset & Htot & Hbound & Hts & Hcs).
  split.
  - rewrite Hts. exact Hnd.
  - intros t'. rewrite Hts, Hcs, Hin.
    destruct (decide (t = t')) as [<-|_]; cbn; [rewrite Hset|]; reflexivity.
  - rewrite Htot. unfold sum_weights. rewrite Hts.
    rewrite (sum_weights_over_change (db s) (db s') _ t).
    + rewrite (Hcs t). destruct (decide (t = t)); [cbn|congruence].
      fold (sum_weights (db s)). lia.
    + exact Hnd.
    + apply Hin. exact Hset.
    + intros t' Hne. rewrite Hcs.
      destruct (decide (t = t')); [congruence|reflexivity].
  - exact Hbound.
Qed.

(** Every other request leaves what the weights depend on as it was. *)
Lemma maintains_same_weights self r :
  (forall t w e, r <> AddConnector t w e) ->
  (forall t w e v, r <> UpdateConnector t w e v) ->
  maintains (W:=W) same_weights (dispatch self r).
Proof.
  intros Hadd Hupd.
  assert (Hvb : forall t v c,
             same_weights c (connector_update t (set_virtual_balance v) c)).
  { intros. apply same_weights_connector_update. intros x. split; reflexivity. }
  pose (side_plain := fun (f : Converter -> Converter) =>
          forall c, same_weights c (f c)).
  destruct r as [f v d|t w e|t w e v|t d| | |d|d|f]; cbn [dispatch].
  - apply maintains_bind; [typeclasses eauto| |intro].
    + apply maintains_tokenFallback; [typeclasses eauto..|exact Hvb].
    + maintains_tac idtac.
  - exfalso. eapply Hadd. reflexivity.
  - exfalso. eapply Hupd. reflexivity.
  - unfold disableConnectorPurchases, require_owner_only, getOwner.
    maintains_tac ltac:(intro; apply same_weights_connector_update;
                        intro; split; reflexivity).
  - unfold updateRegistry, getOwner, require_valid_address.
    maintains_tac ltac:(intro; repeat split; reflexivity).
  - unfold restoreRegistry, require_owner_or_manager_only, getOwner.
    maintains_tac ltac:(intro; repeat split; reflexivity).
  - unfold disableRegistryUpdate, require_owner_or_manager_only, getOwner.
    maintains_tac ltac:(intro; repeat split; reflexivity).
  - unfold disableConversions, require_owner_or_manager_only, getOwner.
    maintains_tac ltac:(intro; repeat split; reflexivity).
  - unfold setConversionFee, require_owner_or_manager_only, getOwner,
      _require_valid_conversion_fee.
    maintains_tac ltac:(intro; repeat split; reflexivity).
Qed.

Lemma weights_consistent_step this (s : State W) x :
  weights_consistent (db s) -> weights_consistent (db (step this s x)).
Proof.
  intros Hs. destruct x as [sender r|w]; [|exact Hs]. cbn [step].
  destruct r as [f v d|t w e|t w e v|t d| | |d|d|f];
    try (eapply weights_consistent_same; [exact Hs|];
         apply maintains_transact; [typeclasses eauto|];
         apply maintains_same_weights; intros; discriminate).
  - unfold transact. cbn [dispatch].
    destruct (addConnector _ t w e s) as [[] s'|e' s'] eqn:Hrun; [|exact Hs].
    eapply weights_consistent_add; eassumption.
  - unfold transact. cbn [dispatch].
    destruct (updateConnector _ t w e v s) as [[] s'|e' s'] eqn:Hrun; [|exact Hs].
    eapply weights_consistent_update; eassumption.
Qed.

Lemma weights_consistent_run this xs (s : State W) :
  weights_consistent (db s) -> weights_consistent (db (run this xs s)).
Proof.
  revert s. induction xs as [|x xs IH]; intros s Hs; [exact Hs|].
  cbn. apply IH. apply weights_consistent_step. exact Hs.
Qed.

Lemma weights_consistent_on_install self tok reg maxfee ct cw (w0 : W) els s0 :
  on_install self tok reg maxfee ct cw (mkState uninstalled w0 els) = Done tt s0 ->
  weights_consistent (db s0).
Proof.
  unfold on_install, require_valid_address, _require_valid_max_conversion_fee.
  msimpl.
  repeat (branch; [|discriminate]). cbn [db world eventlog].
  match goal with
  | |- context [mkState (set_max_conversion_fee ?v ?c) _ _] =>
      assert (Hempty : weights_consistent (set_max_conversion_fee v c))
  end.
  { split; cbn.
    - apply NoDup_nil_2.
    - intros t. unfold connector_at. cbn. rewrite lookup_empty. cbn.
      rewrite elem_of_nil. split; [contradiction|discriminate].
    - reflexivity.
    - lia. }
  destruct ct as [t|]; [|intros [= <-]; exact Hempty].
  unfold when. destruct (is_valid_address t); [|intros [= <-]; exact Hempty].
  intros Hrun. eapply weights_consistent_add; [|exact Hrun]. exact Hempty.
Qed.

(** C2: from installation on, after any sequence of calls of the
    converter's writing methods (among them addConnector and
    updateConnector, each accepted or rejected), whatever happens to the
    other SCOREs in between, the list of connector tokens names each present
    connector once, the stored total weight is the sum of their weights, and
    it is at most 1,000,000; and an addConnector whose weight would push
    that sum above 1,000,000 reverts with the state as it was. *)
Theorem total_weight_is_sum self tok reg maxfee ct cw (w0 : W) s0 xs :
  on_install self tok reg maxfee ct cw (mkState uninstalled w0 []) = Done tt s0 ->
  let s := run (score_address self) xs s0 in
  weights_consistent (db s)
  /\ _total_connector_weight (db s) = sum_weights (db s)
  /\ _total_connector_weight (db s) <= 1000000
  /\ (forall caller t w e,
        sum_weights (db s) + w > 1000000 ->
        exists msg, addConnector caller t w e s = Failed (Revert msg) s).
Proof.
  intros Hinstall s.
  assert (Hs : weights_consistent (db s)).
  { apply weights_consistent_run. eapply weights_consistent_on_install. eassumption. }
  split; [exact Hs|]. split; [apply Hs|]. split; [apply Hs|].
  intros caller t w e Hover.
  pose proof (addConnector_spec caller t w e s) as Hspec.
  destruct (addConnector caller t w e s) as [[] s'|e' s'].
  - destruct Hspec as (_ & Hle & _). rewrite (total_is_sum _ Hs) in Hle. lia.
  - destruct Hspec as (-> & msg & ->). exists msg. reflexivity.
Qed.

End Weights.

(** ** The registry *)

Section Registry.
Context {W : Type}.
Context `{!FlexibleToken W} `{!IRCToken W} `{!ScoreRegistry W}.
Context `{!FlexibleTokenController W} `{!Formula}.

(** No request but disableRegistryUpdate(False) switches registry updates
    back on. *)
Lemma maintains_stays_disallowed self r :
  r <> DisableRegistryUpdate false ->
  maintains (W:=W) stays_disallowed (dispatch self r).
Proof.
  intros Hr.
  destruct r as [f v d|t w e|t w e v|t d| | |d|d|f]; cbn [dispatch].
  - apply maintains_bind; [typeclasses eauto| |intro].
    + apply maintains_tokenFallback; [typeclasses eauto..|].
      intros t x c Hc. exact Hc.
    + maintains_tac idtac.
  - unfold addConnector, require_owner_only, getOwner, _require_inactive,
      _is_active, require_valid_address, require_not_this,
      _require_valid_connector_weight.
    maintains_tac ltac:(intros c Hc; exact Hc).
  - unfold updateConnector, require_owner_only, getOwner,
      _require_valid_connector_weight.
    maintains_tac ltac:(intros c Hc; exact Hc).
  - unfold disableConnectorPurchases, require_owner_only, getOwner.
    maintains_tac ltac:(intros c Hc; exact Hc).
  - unfold updateRegistry, getOwner, require_valid_address.
    maintains_tac ltac:(intros c Hc; exact Hc).
  - unfold restoreRegistry, require_owner_or_manager_only, getOwner.
    maintains_tac ltac:(intros c Hc; first [exact Hc|reflexivity]).
  - destruct d; [|congruence].
    unfold disableRegistryUpdate, require_owner_or_manager_only, getOwner.
    maintains_tac ltac:(intros c Hc; reflexivity).
  - unfold disableConversions, require_owner_or_manager_only, getOwner.
    maintains_tac ltac:(intros c Hc; exact Hc).
  - unfold setConversionFee, require_owner_or_manager_only, getOwner,
      _require_valid_conversion_fee.
    maintains_tac ltac:(intros c Hc; exact Hc).
Qed.

Lemma run_never_reallowed this xs : forall (s : State W),
  never_accepted this (DisableRegistryUpdate false) xs s ->
  _allow_registry_update (db s) = false ->
  _allow_registry_update (db (run this xs s)) = false.
Proof.
  induction xs as [|x xs IH]; intros s Hxs Hs; [exact Hs|].
  destruct Hxs as [Hx Hrest]. cbn. apply IH; [exact Hrest|].
  destruct x as [sender r|w]; [|exact Hs]. cbn [step].
  assert (Hdec : r = DisableRegistryUpdate false \/ r <> DisableRegistryUpdate false).
  { destruct r as [f v d|t w e|t w e v|t d| | |d|d|f]; try (right; discriminate).
    destruct d; [right; discriminate|left; reflexivity]. }
  destruct Hdec as [Heq|Hne].
  - destruct (Hx Heq) as (e & s' & Hfail). unfold transact. rewrite Hfail. exact Hs.
  - refine (maintains_transact stays_disallowed _ s _ Hs).
    apply maintains_stays_disallowed. exact Hne.
Qed.

Lemma restoreRegistry_done self (s s1 : State W) :
  restoreRegistry self s = Done tt s1 ->
  _allow_registry_update (db s1) = false
  /\ _registry (db s1) = _prev_registry (db s)
  /\ _owner (db s1) = _owner (db s).
Proof.
  unfold restoreRegistry, require_owner_or_manager_only, getOwner. msimpl.
  branch; [|discriminate]. intros [= <-]. auto.
Qed.

Lemma updateRegistry_disallowed self (s : State W) :
  _allow_registry_update (db s) = false ->
  msg_sender self <> _owner (db s) ->
  updateRegistry self s
  = Failed (Revert "should be allowed updating or caller is the owner") s.
Proof.
  intros Hflag Hsender. unfold updateRegistry, getOwner. msimpl.
  rewrite Hflag, bool_decide_eq_false_2 by assumption. reflexivity.
Qed.

(** The owner's updateRegistry does not look at the switch. *)
Lemma updateRegistry_by_owner self (s : State W) :
  msg_sender self = _owner (db s) ->
  let new_registry := getAddress (_registry (db s)) SCORE_REGISTRY (world s) in
  is_valid_address new_registry = true ->
  new_registry <> _registry (db s) ->
  updateRegistry self s
  = Done tt (mkState (set_registry new_registry
                        (set_prev_registry (_registry (db s)) (db s)))
                     (world s) (eventlog s)).
Proof.
  intros Ho new_registry Hv Hne. subst new_registry.
  unfold updateRegistry, getOwner, require_valid_address. msimpl.
  rewrite (bool_decide_eq_true_2 _ Ho), orb_true_r, Hv.
  rewrite (bool_decide_eq_false_2 _ Hne). reflexivity.
Qed.

(** C6, as amended: after restoreRegistry completes, every later
    updateRegistry call by a caller other than the owner is rejected,
    whichever of the converter's writing methods are called in between, for
    as long as no disableRegistryUpdate(False) call has been accepted (a
    rejected one changes nothing; an accepted one sets allowRegistryUpdate
    back to true); the switch does not bind the owner, whose
    updateRegistry goes through whenever the current registry forwards to
    a valid address other than itself. *)
Theorem restoreRegistry_blocks_updateRegistry this sender (s s1 : State W) xs :
  restoreRegistry (mkCall this sender) s = Done tt s1 ->
  never_accepted this (DisableRegistryUpdate false) xs s1 ->
  let s2 := run this xs s1 in
  _allow_registry_update (db s2) = false
  /\ (forall caller, msg_sender caller <> _owner (db s2) ->
        updateRegistry caller s2
        = Failed (Revert "should be allowed updating or caller is the owner") s2)
  /\ (forall caller, msg_sender caller = _owner (db s2) ->
        let new_registry :=
          getAddress (_registry (db s2)) SCORE_REGISTRY (world s2) in
        is_valid_address new_registry = true ->
        new_registry <> _registry (db s2) ->
        updateRegistry caller s2
        = Done tt (mkState (set_registry new_registry
                              (set_prev_registry (_registry (db s2)) (db s2)))
                           (world s2) (eventlog s2)))
  /\ (forall caller s3, disableRegistryUpdate caller false s2 = Done tt s3 ->
        s3 = mkState (set_allow_registry_update true (db s2))
                     (world s2) (eventlog s2)).
Proof.
  intros Hrestore Hxs s2.
  apply restoreRegistry_done in Hrestore as (Hflag & _ & _).
  assert (Hflag2 : _allow_registry_update (db s2) = false).
  { apply run_never_reallowed; assumption. }
  split; [exact Hflag2|]. split; [|split].
  - intros caller Hcaller. apply updateRegistry_disallowed; assumption.
  - intros caller Hcaller. apply updateRegistry_by_owner. exact Hcaller.
  - intros caller s3.
    unfold disableRegistryUpdate, require_owner_or_manager_only, getOwner. msimpl.
    branch; [|discriminate]. intros [= <-]. reflexivity.
Qed.

End Registry.

(** ** The conversions switch *)

Section Switch.
Context {W : Type}.
Context `{!FlexibleToken W} `{!IRCToken W} `{!ScoreRegistry W}.
Context `{!FlexibleTokenController W} `{!Formula}.

(** C10: sent by the owner or the manager, disableConversions(d) changes
    nothing and logs nothing when the stored flag already is (not d);
    otherwise it stores (not d) and logs exactly one ConversionsEnable
    event carrying (not d); either way the flag ends as (not d), and
    sending the same call again changes nothing and logs nothing.  Sent by
    anyone else it is rejected, with nothing changed and nothing logged. *)
Theorem disableConversions_on_change_only self d (s : State W) :
  let authorised :=
    msg_sender self = _owner (db s) \/ Some (msg_sender self) = _manager (db s) in
  (authorised ->
     (_conversions_enabled (db s) = negb d ->
        disableConversions self d s = Done tt s)
     /\ (_conversions_enabled (db s) = d ->
           disableConversions self d s
           = Done tt (mkState (set_conversions_enabled (negb d) (db s)) (world s)
                              (eventlog s ++ [ConversionsEnable (negb d)])))
     /\ (exists s1,
           disableConversions self d s = Done tt s1
           /\ _conversions_enabled (db s1) = negb d
           /\ disableConversions self d s1 = Done tt s1))
  /\ (~ authorised ->
      exists msg, disableConversions self d s = Failed (Revert msg) s).
Proof.
  intros authorised. split.
  2: { intros Hno.
       unfold disableConversions, require_owner_or_manager_only, getOwner. msimpl.
       destruct (bool_decide (msg_sender self = _owner (db s))) eqn:Ho.
       { exfalso. apply Hno. left. exact (bool_decide_eq_true_1 _ Ho). }
       destruct (bool_decide (Some (msg_sender self) = _manager (db s))) eqn:Hm.
       { exfalso. apply Hno. right. exact (bool_decide_eq_true_1 _ Hm). }
       cbn. eauto. }
  intros Hauth.
  assert (Hreq : forall c : Converter,
             _owner c = _owner (db s) -> _manager c = _manager (db s) ->
             bool_decide (msg_sender self = _owner c)
             || bool_decide (Some (msg_sender self) = _manager c) = true).
  { intros c -> ->. apply orb_true_iff.
    destruct Hauth as [Ho|Hm]; [left|right]; apply bool_decide_eq_true_2; assumption. }
  assert (Hsame : forall s0 : State W,
             _owner (db s0) = _owner (db s) -> _manager (db s0) = _manager (db s) ->
             _conversions_enabled (db s0) = negb d ->
             disableConversions self d s0 = Done tt s0).
  { intros s0 Ho Hm Hflag.
    unfold disableConversions, require_owner_or_manager_only, getOwner. msimpl.
    rewrite (Hreq _ Ho Hm), Hflag.
    rewrite bool_decide_eq_false_2 by (destruct d; discriminate). reflexivity. }
  assert (Hdiff : _conversions_enabled (db s) = d ->
            disableConversions self d s
            = Done tt (mkState (set_conversions_enabled (negb d) (db s)) (world s)
                               (eventlog s ++ [ConversionsEnable (negb d)]))).
  { intros Hflag.
    unfold disableConversions, require_owner_or_manager_only, getOwner. msimpl.
    rewrite (Hreq _ eq_refl eq_refl), Hflag.
    rewrite bool_decide_eq_true_2 by reflexivity. reflexivity. }
  split; [apply Hsame; reflexivity|]. split; [exact Hdiff|].
  destruct (bool_decide (_conversions_enabled (db s) = d)) eqn:Hd.
  - apply bool_decide_eq_true_1 in Hd. eexists. split; [apply Hdiff; exact Hd|].
    split; [reflexivity|]. apply Hsame; reflexivity.
  - apply bool_decide_eq_false_1 in Hd.
    assert (Hflag : _conversions_enabled (db s) = negb d).
    { destruct (_conversions_enabled (db s)), d; cbn; congruence. }
    exists s. split; [apply Hsame; auto|]. split; [exact Hflag|].
    apply Hsame; auto.
Qed.

End Switch.

(** ** The three conversion paths, run *)

(** Runs a later getConnectorBalance on a connector known to be set. *)
Ltac balance_of_set :=
  match goal with
  | |- context [getConnectorBalance ?self ?t ?st] =>
      rewrite (getConnectorBalance_set self t st) by (storage; assumption)
  end.

Ltac branch_on_call f :=
  match goal with
  | |- context [f ?a ?b ?c ?d ?w] => destruct (f a b c d w) eqn:?
  end.

Section Conversions.
Context {W : Type}.
Context `{!FlexibleToken W} `{!IRCToken W} `{!ScoreRegistry W}.
Context `{!FlexibleTokenController W} `{!Formula}.

(** A purchase returns its quote; a check that rejects it does so with
    the state untouched. *)
Lemma buy_outcome self trader t amount mr (s : State W) :
  match _buy self trader t amount mr s with
  | Done r s' =>
      mr <= r
      /\ exists fee, get_purchase_return self t amount true s
                     = Done (mkReturns r fee) s
  | Failed (Revert msg) s' => s' = s
  | Failed (CalleeFailed msg) s' => True
  end.
Proof.
  unfold _buy.
  destruct (readonly_get_purchase_return self t amount true s)
    as [[q Hq]|[msg Hq]].
  2: { rewrite (bind_run_failed _ _ _ _ _ Hq). reflexivity. }
  pose proof (get_purchase_return_set _ _ _ _ _ _ _ Hq) as (Hset & Hp).
  rewrite (bind_run_done _ _ _ _ _ Hq). msimpl.
  destruct (mr <=? returns_amount q) eqn:Hmin; [|reflexivity].
  destruct (is_virtual_balance_enabled (connector_at t (db s))) eqn:Hv;
    cbn [db world eventlog];
    branch_on_call (@issue W _); [exact I| |exact I|];
    cbn [db world eventlog]; balance_of_set;
    (split; [lia|]); exists (returns_fee q); destruct q; exact Hq.
Qed.

(** A sale returns its quote; a check that rejects it does so with the
    state untouched. *)
Lemma sell_outcome self trader t amount mr (s : State W) :
  match _sell self trader t amount mr s with
  | Done r s' =>
      mr <= r
      /\ exists fee, get_sale_return self t amount s = Done (mkReturns r fee) s
  | Failed (Revert msg) s' => s' = s
  | Failed (CalleeFailed msg) s' => True
  end.
Proof.
  unfold _sell.
  destruct (readonly_get_sale_return self t amount s) as [[q Hq]|[msg Hq]].
  2: { rewrite (bind_run_failed _ _ _ _ _ Hq). reflexivity. }
  pose proof (get_sale_return_set _ _ _ _ _ _ Hq) as Hset.
  rewrite (bind_run_done _ _ _ _ _ Hq). unfold safe_sub. msimpl.
  destruct (mr <=? returns_amount q) eqn:Hmin; [|reflexivity].
  balance_of_set.
  match goal with
  | |- context [if ?b then _ else _] => destruct b eqn:Hdep
  end; [|reflexivity].
  destruct (is_virtual_balance_enabled (connector_at t (db s))) eqn:Hv;
    try (destruct (returns_amount q <=? virtual_balance (connector_at t (db s)))
           eqn:Hsub; [|reflexivity]);
    cbn [db world eventlog];
    (branch_on_call (@destroy W _); [exact I|]);
    cbn [db world eventlog];
    (match goal with
     | |- context [transfer ?a ?b ?c ?d ?e ?w] => destruct (transfer a b c d e w)
     end; [exact I|]);
    cbn [db world eventlog]; balance_of_set;
    (split; [lia|]); exists (returns_fee q); destruct q; exact Hq.
Qed.

(** A conversion between two distinct connectors returns its quote, which
    is below the balance the destination had before the request; the only
    checks that reject it after a virtual balance was written are the
    underflow check and the destination-balance check, and none rejects
    it after another SCORE was called or an event logged. *)
Lemma cross_outcome self trader f t amount mr (s : State W) :
  f <> t ->
  match _convert_cross_connector self trader f t amount mr s with
  | Done r s' =>
      mr <= r
      /\ (exists fee, get_cross_connector_return self f t amount true s
                      = Done (mkReturns r fee) s)
      /\ (0 <= r -> r < effective_balance self t s)
  | Failed (Revert msg) s' =>
      world s' = world s /\ eventlog s' = eventlog s
      /\ (s' = s \/ msg = "underflow"%string
          \/ msg = "returning amount does not meet connector balance condition"%string)
  | Failed (CalleeFailed msg) s' => True
  end.
Proof.
  intros Hft. unfold _convert_cross_connector.
  destruct (readonly_get_cross_connector_return self f t amount true s)
    as [[q Hq]|[msg Hq]].
  2: { rewrite (bind_run_failed _ _ _ _ _ Hq). auto. }
  pose proof (get_cross_connector_return_set _ _ _ _ _ _ _ _ Hq) as (Hf & Ht & Hp).
  rewrite (bind_run_done _ _ _ _ _ Hq). unfold safe_sub. msimpl.
  destruct (mr <=? returns_amount q) eqn:Hmin; [|auto].
  destruct (is_virtual_balance_enabled (connector_at f (db s))) eqn:Hvf;
    storage;
    destruct (is_virtual_balance_enabled (connector_at t (db s))) eqn:Hvt;
    rewrite ?decide_False by assumption;
    try (destruct (returns_amount q <=? virtual_balance (connector_at t (db s)))
           eqn:Hsub; [|cbn; auto]);
    cbn [db world eventlog]; balance_of_set; unfold effective_balance at 1;
    storage; rewrite ?Hvt; rewrite ?decide_True by reflexivity;
    rewrite ?decide_False by assumption;
    (match goal with
     | |- context [if ?b then _ else _] => destruct b eqn:Hdep
     end; [|cbn; auto]);
    cbn [db world eventlog];
    (match goal with
     | |- context [transfer ?a ?b ?c ?d ?e ?w] =>
         destruct (transfer a b c d e w) eqn:Htr
     end; [exact I|]);
    cbn [db world eventlog]; balance_of_set; cbn [db world eventlog];
    balance_of_set;
    (split; [lia|]);
    (split; [exists (returns_fee q); destruct q; exact Hq|]);
    intros Hr; unfold effective_balance; rewrite Hvt; lia.
Qed.

(** _convert rejects what it may not route, and routes the rest by the
    governed token. *)
Lemma convert_routes self trader f t amount mr (s : State W) :
  (exists msg, _convert self trader f t amount mr s = Failed (Revert msg) s)
  \/ (0 < mr /\ f <> t
      /\ _convert self trader f t amount mr s
         = if bool_decide (t = _token (db s))
           then _buy self trader f amount mr s
           else if bool_decide (f = _token (db s))
           then _sell self trader t amount mr s
           else _convert_cross_connector self trader f t amount mr s).
Proof.
  unfold _convert, _require_conversions_allowed, require_positive_value. msimpl.
  destruct (_conversions_enabled (db s)); [|left; eauto].
  destruct (0 <? mr) eqn:Hmr; [|left; eauto].
  destruct (bool_decide (f = t)) eqn:Hft; cbn [negb]; [left; eauto|].
  right. split; [lia|]. split; [exact (bool_decide_eq_false_1 _ Hft)|].
  destruct (bool_decide (t = _token (db s))); [reflexivity|].
  destruct (bool_decide (f = _token (db s))); reflexivity.
Qed.

Lemma same_but_virtual_balance_written t v c :
  same_but_virtual_balances c (connector_update t (set_virtual_balance v) c).
Proof.
  unfold same_but_virtual_balances. repeat (split; [reflexivity|]).
  intros t'. rewrite connector_at_update.
  destruct (decide (t = t')) as [<-|_]; [reflexivity|].
  destruct (connector_at t' c); reflexivity.
Qed.

(** C5: a conversion between two connectors goes through only if the
    fee-adjusted return is strictly below the effective balance the
    destination connector had before the request; a return equal to that
    balance is never accepted. *)
Theorem cross_return_below_balance self trader f t amount mr (s s' : State W) r :
  f <> _token (db s) -> t <> _token (db s) ->
  _convert self trader f t amount mr s = Done r s' ->
  (exists fee, get_cross_connector_return self f t amount true s
               = Done (mkReturns r fee) s)
  /\ r < effective_balance self t s
  /\ r <> effective_balance self t s.
Proof.
  intros Hf Ht Hrun.
  destruct (convert_routes self trader f t amount mr s)
    as [[msg Hrej]|(Hmr & Hft & Hroute)]; [congruence|].
  rewrite Hroute in Hrun.
  rewrite (bool_decide_eq_false_2 _ Ht), (bool_decide_eq_false_2 _ Hf) in Hrun.
  pose proof (cross_outcome self trader f t amount mr s Hft) as Hout.
  rewrite Hrun in Hout. destruct Hout as (Hmin & Hquote & Hbelow).
  split; [exact Hquote|]. assert (r < effective_balance self t s) by (apply Hbelow; lia).
  split; lia.
Qed.

(** C4, as amended: a conversion request rejected by a check leaves the
    other SCOREs and the event log as they were at the point of rejection,
    and the storage too except possibly for virtual balances.  On the BUY
    and SELL paths every check precedes every write, so the whole state is
    as it was.  On the CROSS path the quote and minimum-return checks
    precede the writes, but the underflow check and the destination-balance
    check run after the virtual balances were written, so only these two
    can reject with virtual balances changed; total weight and fee state
    are as they were even then, and the platform discards the writes of the
    reverted transaction. *)
Theorem convert_rejection_state self trader f t amount mr (s s' : State W) msg :
  _convert self trader f t amount mr s = Failed (Revert msg) s' ->
  world s' = world s /\ eventlog s' = eventlog s
  /\ same_but_virtual_balances (db s) (db s')
  /\ (t = _token (db s) \/ f = _token (db s) -> s' = s)
  /\ (s' = s \/ msg = "underflow"%string
      \/ msg = "returning amount does not meet connector balance condition"%string)
  /\ transact (_convert self trader f t amount mr) s = s.
Proof.
  intros Hrun.
  assert (Hdb : same_but_virtual_balances (db s) (db s')).
  { pose proof (maintains_convert same_but_virtual_balances
                  same_but_virtual_balance_written self trader f t amount mr s)
      as Hm.
    rewrite Hrun in Hm. exact Hm. }
  assert (Htx : transact (_convert self trader f t amount mr) s = s).
  { unfold transact. rewrite Hrun. reflexivity. }
  destruct (convert_routes self trader f t amount mr s)
    as [[msg' Hrej]|(Hmr & Hft & Hroute)].
  { rewrite Hrej in Hrun. injection Hrun as <- <-. auto 10. }
  rewrite Hroute in Hrun.
  destruct (bool_decide (t = _token (db s))) eqn:Hbuy.
  { pose proof (buy_outcome self trader f amount mr s) as Hout.
    rewrite Hrun in Hout. subst s'. auto 10. }
  destruct (bool_decide (f = _token (db s))) eqn:Hsell.
  { pose proof (sell_outcome self trader t amount mr s) as Hout.
    rewrite Hrun in Hout. subst s'. auto 10. }
  pose proof (cross_outcome self trader f t amount mr s Hft) as Hout.
  rewrite Hrun in Hout. destruct Hout as (Hw & He & Hmsg).
  apply bool_decide_eq_false_1 in Hbuy, Hsell.
  repeat (split; [assumption|]). split; [|auto].
  intros [?|?]; contradiction.
Qed.

End Conversions.

(** ** The purchase switch of a connector *)

Lemma purchase_flag_swaps_virtual_balance c b t v c0 :
  connector_update t (set_virtual_balance v)
    (connector_update c (set_is_purchase_enabled b) c0)
  = connector_update c (set_is_purchase_enabled b)
      (connector_update t (set_virtual_balance v) c0).
Proof.
  destruct (decide (c = t)) as [<-|Hne].
  - rewrite !connector_update_twice. reflexivity.
  - apply connector_update_swap. exact Hne.
Qed.

Lemma purchase_flag_set_twice c b b' c0 :
  connector_update c (set_is_purchase_enabled b)
    (connector_update c (set_is_purchase_enabled b') c0)
  = connector_update c (set_is_purchase_enabled b) c0.
Proof. rewrite connector_update_twice. reflexivity. Qed.

(** What a read of a slot other than the purchase switch of [c] sees. *)
Ltac unnoticed_read :=
  intro; try reflexivity;
  rewrite connector_at_update;
  destruct (decide _); subst; first [reflexivity|congruence].

Ltac commutes_tac :=
  repeat first
    [ progress cbv zeta
    | solve [auto with commutes]
    | apply commutes_bind; [|intro]
    | apply commutes_when
    | apply commutes_if
    | apply commutes_read; unnoticed_read
    | apply commutes_write; intro; apply purchase_flag_swaps_virtual_balance ].

Section Purchases.
Context {W : Type}.
Context `{!FlexibleToken W} `{!IRCToken W} `{!ScoreRegistry W}.
Context `{!FlexibleTokenController W} `{!Formula}.

Section Flag.
Context (c : Address) (b : bool).
Local Abbreviation h := (connector_update c (set_is_purchase_enabled b)).

Lemma commutes_getConnectorBalance self t : commutes h (getConnectorBalance self t).
Proof. unfold getConnectorBalance, _require_valid_connector. commutes_tac. Qed.

Lemma commutes_get_sale_return self t a : commutes h (get_sale_return self t a).
Proof.
  pose proof commutes_getConnectorBalance.
  unfold get_sale_return, _require_active, _is_active, _require_valid_connector,
    getFinalAmount, safe_sub.
  commutes_tac.
Qed.

Lemma commutes_sell self trader t a mr : commutes h (_sell self trader t a mr).
Proof.
  pose proof commutes_getConnectorBalance. pose proof commutes_get_sale_return.
  unfold _sell, safe_sub. commutes_tac.
Qed.

Lemma commutes_get_cross_connector_return self f t a fc :
  t <> c -> commutes h (get_cross_connector_return self f t a fc).
Proof.
  intros Ht. pose proof commutes_getConnectorBalance.
  unfold get_cross_connector_return, _require_active, _is_active,
    _require_valid_connector, getFinalAmount, safe_sub.
  commutes_tac.
Qed.

Lemma commutes_convert_cross_connector self trader f t a mr :
  t <> c -> commutes h (_convert_cross_connector self trader f t a mr).
Proof.
  intros Ht. pose proof commutes_getConnectorBalance.
  pose proof (fun self f a fc => commutes_get_cross_connector_return self f t a fc Ht).
  unfold _convert_cross_connector, safe_sub. commutes_tac.
Qed.

(** A conversion that does not buy with [c] (neither the token for [c] nor
    [c] for another connector) does not notice the purchase switch of [c]. *)
Lemma convert_unnoticed self trader f t a mr (s : State W) :
  (f <> t -> t = _token (db s) -> f <> c) ->
  (f <> t -> t <> _token (db s) -> f <> _token (db s) -> t <> c) ->
  _convert self trader f t a mr (on_db h s)
  = outcome_map (on_db h) (_convert self trader f t a mr s).
Proof.
  intros Hbuy Hcross.
  unfold _convert, _require_conversions_allowed, require_positive_value. msimpl.
  change (_conversions_enabled (db (on_db h s))) with (_conversions_enabled (db s)).
  destruct (_conversions_enabled (db s)); [|reflexivity].
  destruct (0 <? mr); [|reflexivity].
  destruct (bool_decide (f = t)) eqn:Hft; cbn [negb]; [reflexivity|].
  apply bool_decide_eq_false_1 in Hft.
  specialize (Hbuy Hft). specialize (Hcross Hft).
  change (_token (db (on_db h s))) with (_token (db s)).
  destruct (bool_decide (t = _token (db s))) eqn:Ht.
  - apply bool_decide_eq_true_1 in Ht. specialize (Hbuy Ht).
    assert (Hc : commutes h (_buy self trader f a mr)); [|apply Hc].
    pose proof commutes_getConnectorBalance.
    unfold _buy, get_purchase_return, _require_active, _is_active,
      _require_valid_connector, getFinalAmount, safe_sub.
    commutes_tac.
  - destruct (bool_decide (f = _token (db s))) eqn:Hf.
    + apply commutes_sell.
    + apply commutes_convert_cross_connector.
      apply Hcross; eapply bool_decide_eq_false_1; eassumption.
Qed.

End Flag.

(** C8: once disableConnectorPurchases(c, True) has completed the switch
    of [c] is off; with the switch off every purchase with [c] and every
    conversion from another connector into [c] is rejected; and a sale into
    [c], or a conversion out of [c] into a connector, does with the switch
    off exactly what it does with the switch on: the same return or the
    same failure, and the same state but for the switch. *)
Theorem purchase_switch self trader c amount mr (s : State W) :
  let off := on_db (connector_update c (set_is_purchase_enabled false)) in
  let on := on_db (connector_update c (set_is_purchase_enabled true)) in
  (forall caller s0,
     disableConnectorPurchases caller c true s0 = Done tt s ->
     s = off s0 /\ is_purchase_enabled (connector_at c (db s)) = false)
  /\ (is_purchase_enabled (connector_at c (db s)) = false ->
      (exists msg, _convert self trader c (_token (db s)) amount mr s
                   = Failed (Revert msg) s)
      /\ (forall f, f <> _token (db s) -> c <> _token (db s) ->
            exists msg, _convert self trader f c amount mr s
                        = Failed (Revert msg) s))
  /\ _convert self trader (_token (db s)) c amount mr (off s)
     = outcome_map off (_convert self trader (_token (db s)) c amount mr (on s))
  /\ (forall t, t <> _token (db s) ->
        _convert self trader c t amount mr (off s)
        = outcome_map off (_convert self trader c t amount mr (on s))).
Proof.
  intros off on.
  assert (Hoff : forall x : State W, off (on x) = off x).
  { intros x. unfold off, on, on_db. cbn [db world eventlog].
    rewrite purchase_flag_set_twice. reflexivity. }
  split; [|split; [|split]].
  - intros caller s0.
    unfold disableConnectorPurchases, require_owner_only, getOwner,
      _require_valid_connector.
    msimpl. repeat (branch; [|discriminate]).
    intros [= <-]. split; [reflexivity|]. storage. reflexivity.
  - intros Hflag. split.
    + destruct (convert_routes self trader c (_token (db s)) amount mr s)
        as [Hrej|(_ & _ & ->)]; [exact Hrej|].
      rewrite bool_decide_eq_true_2 by reflexivity. unfold _buy.
      destruct (readonly_get_purchase_return self c amount true s)
        as [[q Hq]|[msg Hq]].
      * apply get_purchase_return_set in Hq as [_ Hq]. congruence.
      * exists msg. apply bind_run_failed. exact Hq.
    + intros f Hf Hc.
      destruct (convert_routes self trader f c amount mr s)
        as [Hrej|(_ & _ & ->)]; [exact Hrej|].
      rewrite (bool_decide_eq_false_2 _ Hc), (bool_decide_eq_false_2 _ Hf).
      unfold _convert_cross_connector.
      destruct (readonly_get_cross_connector_return self f c amount true s)
        as [[q Hq]|[msg Hq]].
      * apply get_cross_connector_return_set in Hq as (_ & _ & Hq). congruence.
      * exists msg. apply bind_run_failed. exact Hq.
  - rewrite <- Hoff. apply convert_unnoticed.
    + intros Hne Heq. cbn in Heq. congruence.
    + intros _ _ Hne. cbn in Hne. congruence.
  - intros t Ht. rewrite <- Hoff. apply convert_unnoticed.
    + intros _ Heq. cbn in Heq. congruence.
    + intros Hne _ _. congruence.
Qed.

End Purchases.

(** * The properties at work on the small world *)

Ltac by_computation :=
  vm_compute; repeat split; intros; first [reflexivity|discriminate|assumption].

(** C1 as stated fails: with a ceiling of 500,000 and a fee of 250,000 the
    final amount of 100 is 75, not 100 * 250,000 // 500,000 = 50. *)
Lemma getFinalAmount_not_over_ceiling :
  0 <= 100
  /\ 0 <= _conversion_fee (db half_quarter) <= _max_conversion_fee (db half_quarter)
  /\ getFinalAmount 100 1 half_quarter = Done 75 half_quarter
  /\ 100 * (_max_conversion_fee (db half_quarter)
            - _conversion_fee (db half_quarter)) ^ 1
      / _max_conversion_fee (db half_quarter) ^ 1 = 50.
Proof. by_computation. Qed.

Lemma getFinalAmount_ppm_witness :
  0 <= 100 /\ (1 = 1 \/ 1 = 2)
  /\ 0 <= _conversion_fee (db half_quarter) <= _max_conversion_fee (db half_quarter)
  /\ _max_conversion_fee (db half_quarter) <= 1000000
  /\ exists r, getFinalAmount 100 1 half_quarter = Done r half_quarter /\ r = 75.
Proof.
  assert (H0 : 0 <= 100) by lia.
  assert (H1 : 1 = 1 \/ 1 = 2) by (left; reflexivity).
  assert (H2 : 0 <= _conversion_fee (db half_quarter)
               <= _max_conversion_fee (db half_quarter)) by by_computation.
  assert (H3 : _max_conversion_fee (db half_quarter) <= 1000000) by by_computation.
  repeat (split; [assumption|]).
  destruct (getFinalAmount_ppm half_quarter 100 1 H0 H1 H2 H3) as (r & Hr & Heq & _).
  exists r. split; [exact Hr|]. rewrite Heq. reflexivity.
Defined.

(** C7 as stated fails: a raw amount of 0 comes back as 0 under a fee of
    250,000, so equality does not force the fee to be 0. *)
Lemma getFinalAmount_equal_with_fee :
  0 <= 0
  /\ 0 <= _conversion_fee (db half_quarter) <= _max_conversion_fee (db half_quarter)
  /\ getFinalAmount 0 1 half_quarter = Done 0 half_quarter
  /\ _conversion_fee (db half_quarter) <> 0.
Proof. by_computation. Qed.

Lemma getFinalAmount_le_raw_witness :
  0 <= 100
  /\ 0 <= _conversion_fee (db half_quarter) <= _max_conversion_fee (db half_quarter)
  /\ exists r, getFinalAmount 100 1 half_quarter = Done r half_quarter /\ r <= 100.
Proof.
  assert (H0 : 0 <= 100) by lia.
  assert (H2 : 0 <= _conversion_fee (db half_quarter)
               <= _max_conversion_fee (db half_quarter)) by by_computation.
  repeat (split; [assumption|]).
  destruct (getFinalAmount_le_raw half_quarter 100 H0 H2) as (r & Hr & Hle & _).
  exists r. split; assumption.
Defined.

Lemma total_weight_is_sum_witness :
  on_install (mkCall converter_score alice) flexible_score registry_score
             1000000 (Some icx_score) 500000 (mkState uninstalled ledger0 [])
  = Done tt installed_full
  /\ _total_connector_weight (db trading) = sum_weights (db trading)
  /\ _total_connector_weight (db trading) <= 1000000
  /\ exists msg, addConnector (mkCall converter_score alice) bob 1 false trading
                 = Failed (Revert msg) trading.
Proof.
  assert (H : on_install (mkCall converter_score alice) flexible_score
                registry_score 1000000 (Some icx_score) 500000
                (mkState uninstalled ledger0 [])
              = Done tt installed_full) by (vm_compute; reflexivity).
  split; [exact H|].
  destruct (total_weight_is_sum (mkCall converter_score alice) flexible_score
              registry_score 1000000 (Some icx_score) 500000 ledger0
              installed_full setup H) as (_ & Hsum & Hle & Hadd).
  split; [exact Hsum|]. split; [exact Hle|].
  apply Hadd. vm_compute. reflexivity.
Defined.


(** C4 as stated fails: a conversion of 500 from the first connector into
    the second is rejected by the destination-balance check after both
    virtual balances were written. *)
Lemma cross_rejected_after_writes :
  exists msg s',
    _convert (mkCall converter_score icx_score) ledger_network icx_score
             usd_score 500 1 trading = Failed (Revert msg) s'
    /\ virtual_balance (connector_at usd_score (db trading)) = 100
    /\ virtual_balance (connector_at usd_score (db s')) = 50
    /\ db s' <> db trading.
Proof.
  destruct (_convert (mkCall converter_score icx_score) ledger_network icx_score
                     usd_score 500 1 trading) as [r s'|[msg|msg] s'] eqn:E;
    vm_compute in E; try discriminate E.
  injection E as <- <-. eexists _, _. split; [reflexivity|].
  split; [vm_compute; reflexivity|]. split; [vm_compute; reflexivity|].
  intros H.
  apply (f_equal (fun c => virtual_balance (connector_at usd_score c))) in H.
  vm_compute in H. discriminate H.
Qed.

Lemma convert_rejection_state_witness :
  exists msg s',
    _convert (mkCall converter_score icx_score) ledger_network icx_score
             usd_score 500 1 trading = Failed (Revert msg) s'
    /\ world s' = world trading /\ eventlog s' = eventlog trading
    /\ same_but_virtual_balances (db trading) (db s').
Proof.
  destruct (_convert (mkCall converter_score icx_score) ledger_network icx_score
                     usd_score 500 1 trading) as [r s'|[msg|msg] s'] eqn:E.
  - exfalso. vm_compute in E. discriminate E.
  - exists msg, s'. split; [reflexivity|].
    destruct (convert_rejection_state _ _ _ _ _ _ _ _ _ E) as (Hw & He & Hdb & _).
    auto.
  - exfalso. vm_compute in E. discriminate E.
Defined.

Lemma cross_return_below_balance_witness :
  icx_score <> _token (db trading) /\ usd_score <> _token (db trading)
  /\ exists r s',
       _convert (mkCall converter_score icx_score) ledger_network icx_score
                usd_score 100 1 trading = Done r s'
       /\ r < effective_balance (mkCall converter_score icx_score) usd_score trading.
Proof.
  assert (H1 : icx_score <> _token (db trading))
    by (intros H; vm_compute in H; discriminate H).
  assert (H2 : usd_score <> _token (db trading))
    by (intros H; vm_compute in H; discriminate H).
  split; [exact H1|]. split; [exact H2|].
  destruct (_convert (mkCall converter_score icx_score) ledger_network icx_score
                     usd_score 100 1 trading) as [r s'|e s'] eqn:E.
  - exists r, s'. split; [reflexivity|].
    apply (cross_return_below_balance _ _ _ _ _ _ _ _ _ H1 H2 E).
  - exfalso. vm_compute in E. discriminate E.
Defined.

(** C6 as stated fails: right after restoreRegistry the owner's
    updateRegistry goes through. *)
Lemma owner_updates_after_restore :
  exists s1 s2,
    restoreRegistry (mkCall converter_score alice) installed_half = Done tt s1
    /\ alice = _owner (db s1)
    /\ _allow_registry_update (db s1) = false
    /\ updateRegistry (mkCall converter_score alice) s1 = Done tt s2
    /\ _registry (db s2) = registry_score'.
Proof.
  exists (transact (restoreRegistry (mkCall converter_score alice)) installed_half).
  exists (transact (updateRegistry (mkCall converter_score alice))
            (transact (restoreRegistry (mkCall converter_score alice))
               installed_half)).
  by_computation.
Qed.

Lemma restoreRegistry_blocks_updateRegistry_witness :
  let s1 := transact (restoreRegistry (mkCall converter_score alice)) trading in
  let xs := [Transaction bob UpdateRegistry;
             Transaction bob (DisableRegistryUpdate false);
             Transaction alice (DisableRegistryUpdate true);
             Elsewhere ledger0] in
  restoreRegistry (mkCall converter_score alice) trading = Done tt s1
  /\ never_accepted converter_score (DisableRegistryUpdate false) xs s1
  /\ updateRegistry (mkCall converter_score bob) (run converter_score xs s1)
     = Failed (Revert "should be allowed updating or caller is the owner")
              (run converter_score xs s1)
  /\ exists s3,
       updateRegistry (mkCall converter_score alice) (run converter_score xs s1)
       = Done tt s3
       /\ _registry (db s3) = registry_score'.
Proof.
  intros s1 xs.
  assert (H1 : restoreRegistry (mkCall converter_score alice) trading = Done tt s1)
    by (vm_compute; reflexivity).
  assert (H2 : never_accepted converter_score (DisableRegistryUpdate false) xs s1).
  { unfold xs. cbn [never_accepted].
    split; [intros Heq; discriminate Heq|].
    split.
    { intros _.
      destruct (dispatch (mkCall converter_score bob) (DisableRegistryUpdate false)
                  (step converter_score s1 (Transaction bob UpdateRegistry)))
        as [[] s'|e s'] eqn:E; [vm_compute in E; discriminate E|eauto]. }
    split; [intros Heq; discriminate Heq|].
    split; exact I. }
  split; [exact H1|]. split; [exact H2|].
  destruct (restoreRegistry_blocks_updateRegistry converter_score alice trading
              s1 xs H1 H2) as (_ & Hblock & Howner & _).
  split.
  - apply (Hblock (mkCall converter_score bob)).
    intros H. vm_compute in H. discriminate H.
  - eexists. split.
    + apply (Howner (mkCall converter_score alice)).
      * vm_compute. reflexivity.
      * vm_compute. reflexivity.
      * intros H. vm_compute in H. discriminate H.
    + vm_compute. reflexivity.
Defined.

Lemma purchase_switch_witness :
  let s := transact (disableConnectorPurchases (mkCall converter_score alice)
                                               usd_score true) trading in
  disableConnectorPurchases (mkCall converter_score alice) usd_score true trading
  = Done tt s
  /\ is_purchase_enabled (connector_at usd_score (db s)) = false
  /\ (exists msg,
        _convert (mkCall converter_score usd_score) ledger_network usd_score
                 (_token (db s)) 100 1 s = Failed (Revert msg) s)
  /\ (exists msg,
        _convert (mkCall converter_score icx_score) ledger_network icx_score
                 usd_score 100 1 s = Failed (Revert msg) s).
Proof.
  intros s.
  assert (H1 : disableConnectorPurchases (mkCall converter_score alice) usd_score
                 true trading = Done tt s) by (vm_compute; reflexivity).
  destruct (purchase_switch (mkCall converter_score usd_score) ledger_network
              usd_score 100 1 s) as (Hoff & Hbuy & _).
  destruct (Hoff _ _ H1) as [_ Hflag].
  destruct (purchase_switch (mkCall converter_score icx_score) ledger_network
              usd_score 100 1 s) as (_ & Hcross & _).
  split; [exact H1|]. split; [exact Hflag|]. split.
  - exact (proj1 (Hbuy Hflag)).
  - apply (proj2 (Hcross Hflag) icx_score).
    + intros H. vm_compute in H. discriminate H.
    + intros H. vm_compute in H. discriminate H.
Defined.

Lemma disableConversions_on_change_only_witness :
  (alice = _owner (db trading) \/ Some alice = _manager (db trading))
  /\ _conversions_enabled (db trading) = true
  /\ disableConversions (mkCall converter_score alice) true trading
     = Done tt (mkState (set_conversions_enabled false (db trading)) (world trading)
                        (eventlog trading ++ [ConversionsEnable false])).
Proof.
  assert (H : alice = _owner (db trading) \/ Some alice = _manager (db trading))
    by (left; vm_compute; reflexivity).
  assert (Hflag : _conversions_enabled (db trading) = true)
    by (vm_compute; reflexivity).
  split; [exact H|]. split; [exact Hflag|].
  apply (proj1 (proj2 (proj1 (disableConversions_on_change_only
                                (mkCall converter_score alice) true trading) H))
           Hflag).
Defined.

(** * Further properties *)

(** ** The fee, again *)

Section FeeBounds.
Context {W : Type}.
Context `{!FlexibleToken W} `{!IRCToken W} `{!ScoreRegistry W}.
Context `{!FlexibleTokenController W} `{!Formula}.

Lemma final_amount_of_mono (cf a a' m : Z) :
  cf <= 1000000 -> a <= a' ->
  final_amount_of cf a m <= final_amount_of cf a' m.
Proof.
  intros Hcf Ha. unfold final_amount_of, _MAX_CONVERSION_FEE.
  destruct (Z.le_gt_cases 0 m) as [Hm | Hm].
  - apply Z.div_le_mono; [apply Z.pow_pos_nonneg; lia|].
    apply Z.mul_le_mono_nonneg_r; [apply Z.pow_nonneg; lia|exact Ha].
  - rewrite (Z.pow_neg_r 1000000 m) by lia. rewrite !Z.div_0_r. lia.
Qed.

Lemma final_amount_of_two_le_one (cf a : Z) :
  0 <= a -> 0 <= cf <= 1000000 ->
  final_amount_of cf a 2 <= final_amount_of cf a 1.
Proof.
  intros Ha Hcf. unfold final_amount_of, _MAX_CONVERSION_FEE.
  set (r := 1000000 - cf). assert (Hr : 0 <= r <= 1000000) by (unfold r; lia).
  rewrite !Z.pow_1_r, Z.pow_2_r.
  replace (a * r / 1000000) with (a * r * 1000000 / 1000000 ^ 2).
  - apply Z.div_le_mono; [lia|]. nia.
  - change (1000000 ^ 2) with (1000000 * 1000000).
    rewrite Z.div_mul_cancel_r by lia. reflexivity.
Qed.

Lemma final_amount_of_le (cf a m : Z) :
  0 <= a -> 0 <= cf <= 1000000 -> 0 <= m ->
  final_amount_of cf a m <= a.
Proof.
  intros Ha Hcf Hm. unfold final_amount_of, _MAX_CONVERSION_FEE.
  assert (Hp : 0 < 1000000 ^ m) by (apply Z.pow_pos_nonneg; lia).
  apply Z.div_le_upper_bound; [exact Hp|].
  rewrite (Z.mul_comm (1000000 ^ m)).
  apply Z.mul_le_mono_nonneg_l; [exact Ha|].
  apply Z.pow_le_mono_l. lia.
Qed.

(** X1: under a fee within its bounds the fee of a conversion between two
    connectors (magnitude 2) takes at least what the fee of a simple
    conversion (magnitude 1) takes: for a raw amount >= 0,
    0 <= getFinalAmount(raw, 2) <= getFinalAmount(raw, 1) <= raw. *)
Theorem getFinalAmount_cross_le_single (s : State W) (raw : Z) :
  0 <= raw -> fee_bounded (db s) ->
  exists r1 r2,
    getFinalAmount raw 1 s = Done r1 s
    /\ getFinalAmount raw 2 s = Done r2 s
    /\ 0 <= r2 <= r1 /\ r1 <= raw.
Proof.
  intros Hraw [[Hlo Hhi] Hmax].
  exists (final_amount_of (_conversion_fee (db s)) raw 1),
         (final_amount_of (_conversion_fee (db s)) raw 2).
  split; [reflexivity|]. split; [reflexivity|]. split; [split|].
  - apply final_amount_of_nonneg; unfold _MAX_CONVERSION_FEE; lia.
  - apply final_amount_of_two_le_one; lia.
  - apply final_amount_of_le; lia.
Qed.

(** X2: under a fee within its bounds getFinalAmount never favours the
    smaller amount: for raw <= raw' and either magnitude,
    getFinalAmount(raw, m) <= getFinalAmount(raw', m); and when the fee is
    the whole million, nothing is left of any amount. *)
Theorem getFinalAmount_monotone (s : State W) (raw raw' m : Z) :
  raw <= raw' -> m = 1 \/ m = 2 -> fee_bounded (db s) ->
  exists r r',
    getFinalAmount raw m s = Done r s
    /\ getFinalAmount raw' m s = Done r' s
    /\ r <= r'
    /\ (_conversion_fee (db s) = 1000000 -> r = 0 /\ r' = 0).
Proof.
  intros Hraw Hm [[Hlo Hhi] Hmax].
  exists (final_amount_of (_conversion_fee (db s)) raw m),
         (final_amount_of (_conversion_fee (db s)) raw' m).
  split; [reflexivity|]. split; [reflexivity|]. split.
  - apply final_amount_of_mono; lia.
  - intros ->. unfold final_amount_of, _MAX_CONVERSION_FEE.
    destruct Hm as [-> | ->]; cbn [Z.sub Z.opp Z.add Z.pos_sub];
      rewrite ?Z.sub_diag; split;
      (rewrite Z.pow_0_l by lia; rewrite Z.mul_0_r; reflexivity).
Qed.

End FeeBounds.

(** ** More frames *)

#[export] Instance same_settings_refl : Reflexive same_settings.
Proof. intros c. unfold same_settings. auto 10. Qed.

#[export] Instance same_settings_trans : Transitive same_settings.
Proof.
  intros a b c (?&?&?&?&?&?&?&?&?) (?&?&?&?&?&?&?&?&?). unfold same_settings.
  repeat split; congruence.
Qed.

#[export] Instance same_fees_refl : Reflexive same_fees.
Proof. intros c. split; reflexivity. Qed.

#[export] Instance same_fees_trans : Transitive same_fees.
Proof. intros a b c [? ?] [? ?]. split; congruence. Qed.

#[export] Instance keeps_installed_refl : Reflexive keeps_installed.
Proof. intros c. split; reflexivity. Qed.

#[export] Instance keeps_installed_trans : Transitive keeps_installed.
Proof. intros a b c [? ?] [? ?]. split; congruence. Qed.

#[export] Instance same_registries_refl : Reflexive same_registries.
Proof. intros c. split; reflexivity. Qed.

#[export] Instance same_registries_trans : Transitive same_registries.
Proof. intros a b c [? ?] [? ?]. split; congruence. Qed.

#[export] Instance stays_disabled_refl : Reflexive stays_disabled.
Proof. intros c H. exact H. Qed.

#[export] Instance stays_disabled_trans : Transitive stays_disabled.
Proof. intros a b c H1 H2 H. auto. Qed.

#[export] Instance connectors_kept_refl : Reflexive connectors_kept.
Proof.
  intros c. split; [|auto]. exists []. rewrite app_nil_r. reflexivity.
Qed.

#[export] Instance connectors_kept_trans : Transitive connectors_kept.
Proof.
  intros a b c [[m1 H1] K1] [[m2 H2] K2]. split; [|auto].
  exists (m1 ++ m2). rewrite H2, H1, app_assoc. reflexivity.
Qed.

(** Proves that a method of the converter other than tokenFallback
    maintains a relation every single write of the method maintains. *)
Ltac maintains_method side :=
  unfold addConnector, updateConnector, disableConnectorPurchases, updateRegistry,
    restoreRegistry, disableRegistryUpdate, disableConversions, setConversionFee,
    require_owner_only, require_owner_or_manager_only, getOwner,
    _require_inactive, _is_active, require_valid_address, require_not_this,
    _require_valid_connector_weight, _require_valid_conversion_fee;
  maintains_tac side.

Section Invariants.
Context {W : Type}.
Context `{!FlexibleToken W} `{!IRCToken W} `{!ScoreRegistry W}.
Context `{!FlexibleTokenController W} `{!Formula}.

Lemma maintains_dispatch_tokenFallback R `{!Reflexive R} `{!Transitive R}
    self f v d :
  (forall t x c, R c (connector_update t (set_virtual_balance x) c)) ->
  maintains (W:=W) R (dispatch self (TokenFallback f v d)).
Proof.
  intros Hvb. cbn [dispatch].
  apply maintains_bind; [typeclasses eauto| |intro].
  - apply maintains_tokenFallback; [typeclasses eauto..|exact Hvb].
  - maintains_tac idtac.
Qed.

(** An invariant of the storage every transaction keeps is kept by every
    run. *)
Lemma run_invariant (P : Converter -> Prop) this xs (s : State W) :
  (forall sender r (s0 : State W),
     P (db s0) -> P (db (transact (dispatch (mkCall this sender) r) s0))) ->
  P (db s) -> P (db (run this xs s)).
Proof.
  intros Hstep. revert s. induction xs as [|x xs IH]; intros s Hs; [exact Hs|].
  cbn. apply IH. destruct x as [sender r|w]; [|exact Hs]. apply Hstep. exact Hs.
Qed.

Lemma run_maintains R `{!Reflexive R} `{!Transitive R} this xs (s : State W) :
  (forall sender r, Transaction sender r ∈ xs ->
     maintains (W:=W) R (dispatch (mkCall this sender) r)) ->
  R (db s) (db (run this xs s)).
Proof.
  revert s. induction xs as [|x xs IH]; intros s Hxs; [reflexivity|].
  cbn. etransitivity; [|apply IH].
  - destruct x as [sender r|w]; [|reflexivity]. cbn [step].
    apply maintains_transact; [typeclasses eauto|].
    apply Hxs. apply list_elem_of_here.
  - intros sender r Hin. apply Hxs. apply list_elem_of_further. exact Hin.
Qed.

(** No request writes the governed token or the fee ceiling. *)
Lemma maintains_keeps_installed self r :
  maintains (W:=W) keeps_installed (dispatch self r).
Proof.
  destruct r as [f v d|t w e|t w e v|t d| | |d|d|f];
    [apply maintains_dispatch_tokenFallback;
       [typeclasses eauto..|intros; split; reflexivity]|..];
    cbn [dispatch]; maintains_method ltac:(intro; split; reflexivity).
Qed.

(** No request unsets a connector or drops it from the list. *)
Lemma connectors_kept_connector_update t g c :
  (forall x, is_set x = true -> is_set (g x) = true) ->
  connectors_kept c (connector_update t g c).
Proof.
  intros Hg. split; [exists []; rewrite app_nil_r; reflexivity|].
  intros t'. rewrite connector_at_update.
  destruct (decide (t = t')) as [<-|_]; [apply Hg|auto].
Qed.

Lemma maintains_connectors_kept self r :
  maintains (W:=W) connectors_kept (dispatch self r).
Proof.
  assert (Hplain : forall c c' : Converter,
             _connector_tokens c' = _connector_tokens c ->
             _connectors c' = _connectors c -> connectors_kept c c').
  { intros c c' Hts Hcs. split; [exists []; rewrite app_nil_r; exact Hts|].
    intros t. unfold connector_at. rewrite Hcs. auto. }
  destruct r as [f v d|t w e|t w e v|t d| | |d|d|f];
    [apply maintains_dispatch_tokenFallback;
       [typeclasses eauto..|
        intros ? ? ?; apply connectors_kept_connector_update; intros y Hy; exact Hy]|..];
    cbn [dispatch];
    maintains_method
      ltac:(intro;
            first [ apply connectors_kept_connector_update; intros x Hx;
                    first [exact Hx|reflexivity]
                  | apply Hplain; reflexivity
                  | split; [eexists; reflexivity|intros ? Hx; exact Hx] ]).
Qed.

End Invariants.

(** ** Installation and what it fixes *)

Section Installed.
Context {W : Type}.
Context `{!FlexibleToken W} `{!IRCToken W} `{!ScoreRegistry W}.
Context `{!FlexibleTokenController W} `{!Formula}.

Lemma maintains_same_settings_addConnector self t w e :
  maintains (W:=W) same_settings (addConnector self t w e).
Proof. maintains_method ltac:(intro; repeat split; reflexivity). Qed.

(** What on_install leaves in the slots the connectors do not touch. *)
Lemma on_install_done self tok reg maxfee ct cw (w0 : W) els s0 :
  on_install self tok reg maxfee ct cw (mkState uninstalled w0 els) = Done tt s0 ->
  _owner (db s0) = msg_sender self /\ _token (db s0) = tok
  /\ _registry (db s0) = reg /\ _prev_registry (db s0) = reg
  /\ _max_conversion_fee (db s0) = maxfee /\ _conversion_fee (db s0) = 0
  /\ _conversions_enabled (db s0) = true /\ _allow_registry_update (db s0) = true
  /\ is_valid_address reg = true /\ is_valid_address tok = true
  /\ 0 <= maxfee <= 1000000.
Proof.
  unfold on_install, require_valid_address, _require_valid_max_conversion_fee.
  msimpl.
  destruct (is_valid_address reg) eqn:Hreg; [|discriminate].
  destruct ((0 <=? maxfee) && (maxfee <=? _MAX_CONVERSION_FEE)) eqn:Hfee;
    [|discriminate].
  destruct (is_valid_address tok) eqn:Htok; [|discriminate].
  cbn [db world eventlog].
  assert (Hmax : 0 <= maxfee <= 1000000).
  { apply andb_true_iff in Hfee as [? ?]. unfold _MAX_CONVERSION_FEE in *. lia. }
  match goal with
  | |- context [mkState (set_max_conversion_fee ?v ?c) ?w ?l] =>
      set (s1 := mkState (set_max_conversion_fee v c) w l)
  end.
  assert (Hkeep : forall s0 : State W, same_settings (db s1) (db s0) ->
            _owner (db s0) = msg_sender self /\ _token (db s0) = tok
            /\ _registry (db s0) = reg /\ _prev_registry (db s0) = reg
            /\ _max_conversion_fee (db s0) = maxfee /\ _conversion_fee (db s0) = 0
            /\ _conversions_enabled (db s0) = true
            /\ _allow_registry_update (db s0) = true
            /\ true = true /\ true = true /\ 0 <= maxfee <= 1000000).
  { intros s2 (-> & _ & -> & -> & -> & -> & -> & -> & ->). cbn. auto 12. }
  destruct ct as [t|]; [|intros [= <-]; apply Hkeep; reflexivity].
  unfold when. destruct (is_valid_address t);
    [|intros [= <-]; apply Hkeep; reflexivity].
  intros Hrun. apply Hkeep.
  pose proof (maintains_same_settings_addConnector self t cw false s1) as Hm.
  rewrite Hrun in Hm. exact Hm.
Qed.

(** setConversionFee either fails before writing anything, or stores the
    fee and logs the change. *)
Lemma setConversionFee_spec self f (s : State W) :
  match setConversionFee self f s with
  | Done _ s' =>
      0 <= f <= _max_conversion_fee (db s)
      /\ (msg_sender self = _owner (db s)
          \/ Some (msg_sender self) = _manager (db s))
      /\ s' = mkState (set_conversion_fee f (db s)) (world s)
                      (eventlog s ++ [ConversionFeeUpdate (_conversion_fee (db s)) f])
  | Failed e s' => s' = s /\ exists msg, e = Revert msg
  end.
Proof.
  unfold setConversionFee, require_owner_or_manager_only, getOwner,
    _require_valid_conversion_fee.
  msimpl.
  destruct (bool_decide (msg_sender self = _owner (db s))
            || bool_decide (Some (msg_sender self) = _manager (db s))) eqn:Hauth;
    [|eauto].
  destruct ((0 <=? f) && (f <=? _max_conversion_fee (db s))) eqn:Hf; [|eauto].
  apply andb_true_iff in Hf as [? ?]. split; [lia|]. split; [|reflexivity].
  apply orb_true_iff in Hauth as [Ho|Hm]; [left|right];
    eapply bool_decide_eq_true_1; eassumption.
Qed.

Lemma maintains_same_fees self r :
  (forall f, r <> SetConversionFee f) ->
  maintains (W:=W) same_fees (dispatch self r).
Proof.
  intros Hr.
  destruct r as [f v d|t w e|t w e v|t d| | |d|d|f];
    [apply maintains_dispatch_tokenFallback;
       [typeclasses eauto..|intros; split; reflexivity]|..];
    cbn [dispatch]; try (maintains_method ltac:(intro; split; reflexivity)).
  exfalso. eapply Hr. reflexivity.
Qed.

Lemma fee_bounded_step this sender r (s : State W) :
  fee_bounded (db s) ->
  fee_bounded (db (transact (dispatch (mkCall this sender) r) s)).
Proof.
  intros Hs.
  destruct (match r with SetConversionFee _ => true | _ => false end) eqn:Hr.
  - destruct r; try discriminate Hr. unfold transact. cbn [dispatch].
    pose proof (setConversionFee_spec (mkCall this sender) _conversionFee s) as Hspec.
    destruct (setConversionFee _ _ s) as [[] s'|e s']; [|exact Hs].
    destruct Hspec as (Hf & _ & ->). destruct Hs as [_ Hmax].
    split; cbn; [exact Hf|exact Hmax].
  - assert (Hsame : same_fees (db s)
                      (db (transact (dispatch (mkCall this sender) r) s))).
    { apply maintains_transact; [typeclasses eauto|].
      apply maintains_same_fees. intros f ->. discriminate Hr. }
    destruct Hsame as [Hf Hm]. unfold fee_bounded. rewrite Hf, Hm. exact Hs.
Qed.

(** X3: the maximum conversion fee accepted at installation lies between 0
    and 1,000,000 and is never changed afterwards, and neither is the
    governed token; whatever requests follow, the conversion fee stays
    between 0 and that maximum. *)
Theorem fee_stays_within_ceiling self tok reg maxfee ct cw (w0 : W) s0 xs :
  on_install self tok reg maxfee ct cw (mkState uninstalled w0 []) = Done tt s0 ->
  let s := run (score_address self) xs s0 in
  _max_conversion_fee (db s) = maxfee
  /\ _token (db s) = tok
  /\ 0 <= _conversion_fee (db s) <= maxfee
  /\ maxfee <= 1000000.
Proof.
  intros Hinstall s.
  apply on_install_done in Hinstall
    as (_ & Htok & _ & _ & Hmax & Hfee & _ & _ & _ & _ & Hrange).
  assert (Hkeep : keeps_installed (db s0) (db s)).
  { apply run_maintains; [typeclasses eauto..|].
    intros sender r _. apply maintains_keeps_installed. }
  assert (Hb : fee_bounded (db s)).
  { apply run_invariant.
    - intros sender r s1. apply fee_bounded_step.
    - unfold fee_bounded. rewrite Hfee, Hmax. lia. }
  destruct Hkeep as [Ht Hm]. destruct Hb as [Hb1 Hb2].
  rewrite Hm in *. rewrite Hmax in *. rewrite Ht, Htok. auto.
Qed.

(** X4: a connector, once added, is never removed: along any run the list
    of connector tokens only grows at its end, every connector that was
    set is still set, and getConnectorTokenCount never decreases. *)
Theorem connectors_never_removed this xs (s : State W) :
  let s' := run this xs s in
  (exists more, _connector_tokens (db s') = _connector_tokens (db s) ++ more)
  /\ (forall t, is_set (connector_at t (db s)) = true ->
                is_set (connector_at t (db s')) = true)
  /\ (exists n n', getConnectorTokenCount s = Done n s
                   /\ getConnectorTokenCount s' = Done n' s' /\ n <= n').
Proof.
  intros s'.
  assert (Hkept : connectors_kept (db s) (db s')).
  { apply run_maintains; [typeclasses eauto..|].
    intros sender r _. apply maintains_connectors_kept. }
  destruct Hkept as [[more Hmore] Hset].
  split; [exists more; exact Hmore|]. split; [exact Hset|].
  eexists _, _. split; [reflexivity|]. split; [reflexivity|].
  rewrite Hmore, length_app. lia.
Qed.

End Installed.

(** ** The connectors, again *)

Section Sound.
Context {W : Type}.
Context `{!FlexibleToken W} `{!IRCToken W} `{!ScoreRegistry W}.
Context `{!FlexibleTokenController W} `{!Formula}.

(** What addConnector checked when it returns. *)
Lemma addConnector_checks self t w e (s : State W) :
  match addConnector self t w e s with
  | Done _ s' =>
      msg_sender self = _owner (db s)
      /\ controller_active (score_address self) (_token (db s)) (world s) = false
      /\ is_valid_address t = true /\ score_address self <> t
      /\ 0 < w <= 1000000 /\ _token (db s) <> t
  | Failed _ _ => True
  end.
Proof.
  unfold addConnector, require_owner_only, getOwner, _require_inactive, _is_active,
    require_valid_address, require_not_this, _require_valid_connector_weight.
  msimpl.
  destruct (bool_decide (msg_sender self = _owner (db s))) eqn:Ho; [|exact I].
  destruct (controller_active (score_address self) (_token (db s)) (world s))
    eqn:Ha; cbn [negb]; [exact I|].
  destruct (is_valid_address t) eqn:Hv; [|exact I].
  destruct (bool_decide (score_address self = t)) eqn:Hthis; cbn [negb]; [exact I|].
  destruct ((0 <? w) && (w <=? _MAX_WEIGHT)) eqn:Hw; [|exact I].
  destruct (bool_decide (_token (db s) = t)) eqn:Htok; cbn [negb]; [exact I|].
  destruct (is_set (connector_at t (db s))); cbn [negb]; [exact I|].
  destruct (_total_connector_weight (db s) + w <=? _MAX_WEIGHT); [|exact I].
  apply andb_true_iff in Hw as [? ?]. unfold _MAX_WEIGHT in *.
  split; [exact (bool_decide_eq_true_1 _ Ho)|]. split; [reflexivity|].
  split; [reflexivity|]. split; [exact (bool_decide_eq_false_1 _ Hthis)|].
  split; [lia|]. exact (bool_decide_eq_false_1 _ Htok).
Qed.

(** What updateConnector checked when it returns. *)
Lemma updateConnector_checks self t w e v (s : State W) :
  match updateConnector self t w e v s with
  | Done _ s' => msg_sender self = _owner (db s) /\ 0 < w <= 1000000
  | Failed _ _ => True
  end.
Proof.
  unfold updateConnector, require_owner_only, getOwner, _require_valid_connector,
    _require_valid_connector_weight.
  msimpl.
  destruct (bool_decide (msg_sender self = _owner (db s))) eqn:Ho; [|exact I].
  destruct (is_set (connector_at t (db s))); [|exact I].
  destruct ((0 <? w) && (w <=? _MAX_WEIGHT)) eqn:Hw; [|exact I].
  match goal with
  | |- context [if ?b then _ else _] => destruct b
  end; [|exact I].
  apply andb_true_iff in Hw as [? ?]. unfold _MAX_WEIGHT in *.
  split; [exact (bool_decide_eq_true_1 _ Ho)|lia].
Qed.

Lemma connectors_sound_add self t w e (s s' : State W) :
  connectors_sound (score_address self) (db s) ->
  addConnector self t w e s = Done tt s' ->
  connectors_sound (score_address self) (db s').
Proof.
  intros Hs Hrun.
  pose proof (addConnector_spec self t w e s) as Hspec.
  pose proof (addConnector_checks self t w e s) as Hchk.
  pose proof (maintains_keeps_installed self (AddConnector t w e) s) as Hkeep.
  cbn [dispatch] in Hkeep. rewrite Hrun in Hspec, Hchk, Hkeep.
  destruct Hspec as (_ & _ & _ & _ & Hcs).
  destruct Hchk as (_ & _ & Hv & Hthis & Hw & Htok). destruct Hkeep as [Ht _].
  intros t'. rewrite Hcs, Ht.
  destruct (decide (t = t')) as [<-|_]; [|apply Hs].
  intros _. cbn. split; [exact Hw|]. split; [congruence|]. split; [congruence|].
  exact Hv.
Qed.

Lemma connectors_sound_step this sender r (s : State W) :
  connectors_sound this (db s) ->
  connectors_sound this (db (transact (dispatch (mkCall this sender) r) s)).
Proof.
  intros Hs.
  destruct r as [f v d|t w e|t w e v|t d| | |d|d|f].
  all: try match goal with
    | |- connectors_sound _ (db (transact (dispatch ?self ?r) ?st)) =>
        assert (Hsw : same_weights (db st) (db (transact (dispatch self r) st)))
          by (apply maintains_transact; [typeclasses eauto|];
              apply maintains_same_weights; intros; discriminate);
        assert (Hk : keeps_installed (db st) (db (transact (dispatch self r) st)))
          by (apply maintains_transact; [typeclasses eauto|];
              apply maintains_keeps_installed);
        destruct Hsw as (_ & _ & Hcs); destruct Hk as [Ht _];
        intros t'; rewrite Ht; destruct (Hcs t') as [-> ->]; apply Hs
    end.
  - unfold transact. cbn [dispatch].
    destruct (addConnector _ t w e s) as [[] s'|e' s'] eqn:Hrun; [|exact Hs].
    exact (connectors_sound_add (mkCall this sender) t w e s s' Hs Hrun).
  - unfold transact. cbn [dispatch].
    pose proof (updateConnector_spec (mkCall this sender) t w e v s) as Hspec.
    pose proof (updateConnector_checks (mkCall this sender) t w e v s) as Hchk.
    pose proof (maintains_keeps_installed (mkCall this sender)
                  (UpdateConnector t w e v) s) as Hkeep.
    cbn [dispatch] in Hkeep.
    destruct (updateConnector _ t w e v s) as [[] s'|e' s']; [|exact Hs].
    destruct Hspec as (Hset & _ & _ & _ & Hcs). destruct Hchk as [_ Hw].
    destruct Hkeep as [Ht _].
    intros t'. rewrite Hcs, Ht.
    destruct (decide (t = t')) as [<-|_]; [|apply Hs].
    intros _. cbn. split; [exact Hw|]. apply Hs. exact Hset.
Qed.

(** X5: from installation on, whatever requests follow, every set
    connector is a valid address other than the governed token and other
    than the converter itself, and its weight is between 1 and 1,000,000
    parts per million. *)
Theorem connectors_stay_sound self tok reg maxfee ct cw (w0 : W) s0 xs :
  on_install self tok reg maxfee ct cw (mkState uninstalled w0 []) = Done tt s0 ->
  let s := run (score_address self) xs s0 in
  forall t, is_set (connector_at t (db s)) = true ->
    0 < weight (connector_at t (db s)) <= 1000000
    /\ t <> tok /\ t <> score_address self /\ is_valid_address t = true.
Proof.
  intros Hinstall s.
  assert (Htok : _token (db s) = tok).
  { pose proof (on_install_done _ _ _ _ _ _ _ _ _ Hinstall) as (_ & Ht & _).
    assert (Hkeep : keeps_installed (db s0) (db s)).
    { apply run_maintains; [typeclasses eauto..|].
      intros sender r _. apply maintains_keeps_installed. }
    destruct Hkeep as [-> _]. exact Ht. }
  assert (Hsound : connectors_sound (score_address self) (db s)).
  { apply run_invariant; [intros sender r s1; apply connectors_sound_step|].
    revert Hinstall.
    unfold on_install, require_valid_address, _require_valid_max_conversion_fee.
    msimpl. repeat (branch; [|discriminate]). cbn [db world eventlog].
    match goal with
    | |- context [mkState (set_max_conversion_fee ?v ?c) ?w ?l] =>
        set (s1 := mkState (set_max_conversion_fee v c) w l)
    end.
    assert (Hempty : connectors_sound (score_address self) (db s1)).
    { intros t. unfold connector_at. cbn. rewrite lookup_empty. discriminate. }
    destruct ct as [t|]; [|intros [= <-]; exact Hempty].
    unfold when. destruct (is_valid_address t); [|intros [= <-]; exact Hempty].
    intros Hrun. exact (connectors_sound_add self t cw false s1 s0 Hempty Hrun). }
  intros t Ht. specialize (Hsound t Ht). rewrite Htok in Hsound. exact Hsound.
Qed.

End Sound.

(** ** The registry, again *)

Section RegistrySlots.
Context {W : Type}.
Context `{!FlexibleToken W} `{!IRCToken W} `{!ScoreRegistry W}.
Context `{!FlexibleTokenController W} `{!Formula}.

(** updateRegistry either fails before writing anything, or moves the
    current registry to the previous slot and adopts the address the
    current registry forwards to. *)
Lemma updateRegistry_spec self (s : State W) :
  let new_registry := getAddress (_registry (db s)) SCORE_REGISTRY (world s) in
  match updateRegistry self s with
  | Done _ s' =>
      (_allow_registry_update (db s) = true \/ msg_sender self = _owner (db s))
      /\ is_valid_address new_registry = true
      /\ new_registry <> _registry (db s)
      /\ s' = mkState (set_registry new_registry
                         (set_prev_registry (_registry (db s)) (db s)))
                      (world s) (eventlog s)
  | Failed e s' => s' = s /\ exists msg, e = Revert msg
  end.
Proof.
  cbv zeta. unfold updateRegistry, getOwner, require_valid_address. msimpl.
  destruct (_allow_registry_update (db s)
            || bool_decide (msg_sender self = _owner (db s))) eqn:Hauth; [|eauto].
  destruct (is_valid_address
              (getAddress (_registry (db s)) SCORE_REGISTRY (world s))) eqn:Hv;
    [|eauto].
  destruct (bool_decide (getAddress (_registry (db s)) SCORE_REGISTRY (world s)
                         = _registry (db s))) eqn:Hne; cbn [negb]; [eauto|].
  split; [|split; [reflexivity|split; [exact (bool_decide_eq_false_1 _ Hne)|
                                       reflexivity]]].
  apply orb_true_iff in Hauth as [Ha|Ho]; [left; exact Ha|right].
  exact (bool_decide_eq_true_1 _ Ho).
Qed.

(** restoreRegistry either fails before writing anything, or adopts the
    previous registry and switches registry updates off. *)
Lemma restoreRegistry_spec self (s : State W) :
  match restoreRegistry self s with
  | Done _ s' =>
      (msg_sender self = _owner (db s) \/ Some (msg_sender self) = _manager (db s))
      /\ s' = mkState (set_allow_registry_update false
                         (set_registry (_prev_registry (db s)) (db s)))
                      (world s) (eventlog s)
  | Failed e s' => s' = s /\ exists msg, e = Revert msg
  end.
Proof.
  unfold restoreRegistry, require_owner_or_manager_only, getOwner. msimpl.
  destruct (bool_decide (msg_sender self = _owner (db s))
            || bool_decide (Some (msg_sender self) = _manager (db s))) eqn:Hauth;
    [|eauto].
  split; [|reflexivity].
  apply orb_true_iff in Hauth as [Ho|Hm]; [left|right];
    eapply bool_decide_eq_true_1; eassumption.
Qed.

Lemma maintains_same_registries self r :
  r <> UpdateRegistry -> r <> RestoreRegistry ->
  maintains (W:=W) same_registries (dispatch self r).
Proof.
  intros Hu Hr.
  destruct r as [f v d|t w e|t w e v|t d| | |d|d|f];
    [apply maintains_dispatch_tokenFallback;
       [typeclasses eauto..|intros; split; reflexivity]|..];
    try congruence;
    cbn [dispatch]; maintains_method ltac:(intro; split; reflexivity).
Qed.

Lemma registries_valid_step this sender r (s : State W) :
  registries_valid (db s) ->
  registries_valid (db (transact (dispatch (mkCall this sender) r) s)).
Proof.
  intros Hs.
  destruct r as [f v d|t w e|t w e v|t d| | |d|d|f].
  all: try match goal with
    | |- registries_valid (db (transact (dispatch ?self ?r) ?st)) =>
        assert (Hsame : same_registries (db st)
                          (db (transact (dispatch self r) st)))
          by (apply maintains_transact; [typeclasses eauto|];
              apply maintains_same_registries; discriminate);
        destruct Hsame as [Hreg Hprev]; unfold registries_valid;
        rewrite Hreg, Hprev; exact Hs
    end.
  - unfold transact. cbn [dispatch].
    pose proof (updateRegistry_spec (mkCall this sender) s) as Hspec.
    cbv zeta in Hspec.
    destruct (updateRegistry _ s) as [[] s'|e s']; [|exact Hs].
    destruct Hspec as (_ & Hv & _ & ->). destruct Hs as [Hreg _].
    split; cbn; assumption.
  - unfold transact. cbn [dispatch].
    pose proof (restoreRegistry_spec (mkCall this sender) s) as Hspec.
    destruct (restoreRegistry _ s) as [[] s'|e s']; [|exact Hs].
    destruct Hspec as (_ & ->). destruct Hs as [_ Hprev].
    split; cbn; assumption.
Qed.

(** X6: from installation on, whatever requests follow and whatever the
    registries forward to, the converter's current and previous registry
    are both valid addresses: neither is ever the zero address. *)
Theorem registries_stay_valid self tok reg maxfee ct cw (w0 : W) s0 xs :
  on_install self tok reg maxfee ct cw (mkState uninstalled w0 []) = Done tt s0 ->
  let s := run (score_address self) xs s0 in
  is_valid_address (_registry (db s)) = true
  /\ is_valid_address (_prev_registry (db s)) = true
  /\ _registry (db s) <> ZERO_SCORE_ADDRESS.
Proof.
  intros Hinstall s.
  apply on_install_done in Hinstall
    as (_ & _ & Hreg & Hprev & _ & _ & _ & _ & Hv & _).
  assert (Hs : registries_valid (db s)).
  { apply run_invariant; [intros sender r s1; apply registries_valid_step|].
    split; [rewrite Hreg|rewrite Hprev]; exact Hv. }
  destruct Hs as [H1 H2]. split; [exact H1|]. split; [exact H2|].
  intros Hz. unfold is_valid_address in H1. rewrite Hz in H1.
  rewrite bool_decide_eq_true_2 in H1 by reflexivity. discriminate H1.
Qed.

(** X7: restoreRegistry undoes updateRegistry: after an updateRegistry
    that succeeded, a restoreRegistry that succeeds puts the registry the
    converter had before the update back in place, leaves registry updates
    switched off, and touches nothing else but these slots; a second
    restoreRegistry then changes nothing. *)
Theorem restoreRegistry_undoes_updateRegistry self self' (s s1 s2 : State W) :
  updateRegistry self s = Done tt s1 ->
  restoreRegistry self' s1 = Done tt s2 ->
  _registry (db s2) = _registry (db s)
  /\ _prev_registry (db s2) = _registry (db s)
  /\ _allow_registry_update (db s2) = false
  /\ s2 = mkState (set_allow_registry_update false
                     (set_prev_registry (_registry (db s)) (db s)))
                  (world s) (eventlog s)
  /\ restoreRegistry self' s2 = Done tt s2.
Proof.
  intros Hup Hre.
  pose proof (updateRegistry_spec self s) as Hspec1. cbv zeta in Hspec1.
  pose proof (restoreRegistry_spec self' s1) as Hspec2.
  rewrite Hup in Hspec1. rewrite Hre in Hspec2.
  destruct Hspec2 as (Hauth & ->). destruct Hspec1 as (_ & _ & _ & ->).
  cbn [db world eventlog] in *.
  split; [reflexivity|]. split; [reflexivity|]. split; [reflexivity|].
  split; [destruct s as [[] ? ?]; reflexivity|].
  unfold restoreRegistry, require_owner_or_manager_only, getOwner. msimpl.
  cbn in Hauth |- *.
  assert (Hb : bool_decide (msg_sender self' = _owner (db s))
               || bool_decide (Some (msg_sender self') = _manager (db s)) = true).
  { apply orb_true_iff.
    destruct Hauth as [Ho|Hm]; [left|right]; apply bool_decide_eq_true_2; assumption. }
  rewrite Hb. destruct s as [[] ? ?]; reflexivity.
Qed.

End RegistrySlots.

(** ** The conversions switch, again *)

Section Disabled.
Context {W : Type}.
Context `{!FlexibleToken W} `{!IRCToken W} `{!ScoreRegistry W}.
Context `{!FlexibleTokenController W} `{!Formula}.

Lemma maintains_stays_disabled self r :
  r <> DisableConversions false ->
  maintains (W:=W) stays_disabled (dispatch self r).
Proof.
  intros Hr.
  destruct r as [f v d|t w e|t w e v|t d| | |d|d|f];
    [apply maintains_dispatch_tokenFallback;
       [typeclasses eauto..|intros ? ? ? Hc; exact Hc]|..];
    cbn [dispatch];
    try (maintains_method ltac:(intros c Hc; exact Hc)).
  destruct d; [|congruence].
  maintains_method ltac:(intros c Hc; reflexivity).
Qed.

Lemma convert_disabled self trader f t a mr (s : State W) :
  _conversions_enabled (db s) = false ->
  _convert self trader f t a mr s
  = Failed (Revert "required conversions enabled") s.
Proof.
  intros Hoff. unfold _convert, _require_conversions_allowed. msimpl.
  rewrite Hoff. reflexivity.
Qed.

Lemma tokenFallback_disabled self f v d (s : State W) :
  _conversions_enabled (db s) = false ->
  transact (tokenFallback self f v d) s = s.
Proof.
  intros Hoff. unfold transact, tokenFallback, require_positive_value, getOwner,
    _is_active, reverting.
  msimpl.
  destruct (0 <? v); [|reflexivity].
  match goal with
  | |- context [if ?b then _ else _] => destruct b
  end; [reflexivity|].
  destruct (bool_decide (f = _)); [|reflexivity].
  destruct d as [msg|[to_token min_return]]; [reflexivity|].
  unfold bind. rewrite convert_disabled by exact Hoff. reflexivity.
Qed.

(** X8: the emergency stop holds: after disableConversions(True) has
    completed, and until disableConversions(False) is sent, every
    conversion is rejected with the state untouched, and no token transfer
    notified to the converter changes its storage, another SCORE or the
    log. *)
Theorem disableConversions_stops_conversions this sender (s s1 : State W) xs :
  disableConversions (mkCall this sender) true s = Done tt s1 ->
  (forall sender', Transaction sender' (DisableConversions false) ∉ xs) ->
  let s2 := run this xs s1 in
  _conversions_enabled (db s2) = false
  /\ (forall caller trader f t a mr,
        exists msg, _convert caller trader f t a mr s2 = Failed (Revert msg) s2)
  /\ (forall caller f v d, transact (tokenFallback caller f v d) s2 = s2).
Proof.
  intros Hoff Hxs s2.
  assert (H1 : _conversions_enabled (db s1) = false).
  { revert Hoff.
    unfold disableConversions, require_owner_or_manager_only, getOwner. msimpl.
    branch; [|discriminate].
    destruct (_conversions_enabled (db s)) eqn:He; cbn; intros [= <-];
      [reflexivity|exact He]. }
  assert (H2 : _conversions_enabled (db s2) = false).
  { refine (run_maintains stays_disabled this xs s1 _ H1).
    intros sender' r Hin. apply maintains_stays_disabled. intros ->.
    exact (Hxs sender' Hin). }
  split; [exact H2|]. split.
  - intros. eexists. apply convert_disabled. exact H2.
  - intros. apply tokenFallback_disabled. exact H2.
Qed.

End Disabled.

(** ** What a conversion does when it goes through *)

Section Effects.
Context {W : Type}.
Context `{!FlexibleToken W} `{!IRCToken W} `{!ScoreRegistry W}.
Context `{!FlexibleTokenController W} `{!Formula}.

Lemma buy_run self trader t amount mr (s : State W) :
  match _buy self trader t amount mr s with
  | Done r s' =>
      exists fee,
        get_purchase_return self t amount true s = Done (mkReturns r fee) s
        /\ mr <= r
        /\ issue (_token (db s)) (score_address self) trader r (world s)
           = inr (world s')
        /\ db s' = virtual_balance_moved t amount (db s)
        /\ eventlog s'
           = eventlog s
             ++ [Conversion t (_token (db s)) trader amount r fee;
                 PriceDataUpdate t (totalSupply (_token (db s)) (world s'))
                                 (effective_balance self t s')
                                 (weight (connector_at t (db s)))]
  | Failed _ _ => True
  end.
Proof.
  unfold _buy.
  destruct (readonly_get_purchase_return self t amount true s)
    as [[q Hq]|[msg Hq]].
  2: { rewrite (bind_run_failed _ _ _ _ _ Hq). exact I. }
  pose proof (get_purchase_return_set _ _ _ _ _ _ _ Hq) as (Hset & Hp).
  rewrite (bind_run_done _ _ _ _ _ Hq). msimpl.
  destruct (mr <=? returns_amount q) eqn:Hmin; [|exact I].
  unfold virtual_balance_moved.
  destruct (is_virtual_balance_enabled (connector_at t (db s))) eqn:Hv;
    cbn [db world eventlog];
    (branch_on_call (@issue W _); [exact I|]);
    cbn [db world eventlog]; balance_of_set; cbn [db world eventlog];
    exists (returns_fee q);
    (split; [destruct q; exact Hq|]); (split; [lia|]);
    (split; [assumption|]); (split; [reflexivity|]);
    rewrite <- app_assoc; cbn [app]; storage; reflexivity.
Qed.

Lemma sell_run self trader t amount mr (s : State W) :
  match _sell self trader t amount mr s with
  | Done r s' =>
      exists fee w1,
        get_sale_return self t amount s = Done (mkReturns r fee) s
        /\ mr <= r
        /\ (is_virtual_balance_enabled (connector_at t (db s)) = true ->
            r <= virtual_balance (connector_at t (db s)))
        /\ destroy (_token (db s)) (score_address self) (score_address self)
                   amount (world s) = inr w1
        /\ transfer t (score_address self) trader r TRANSFER_DATA w1
           = inr (world s')
        /\ db s' = virtual_balance_moved t (- r) (db s)
        /\ eventlog s'
           = eventlog s
             ++ [Conversion (_token (db s)) t trader amount r fee;
                 PriceDataUpdate t (totalSupply (_token (db s)) (world s'))
                                 (effective_balance self t s')
                                 (weight (connector_at t (db s)))]
  | Failed _ _ => True
  end.
Proof.
  unfold _sell.
  destruct (readonly_get_sale_return self t amount s) as [[q Hq]|[msg Hq]].
  2: { rewrite (bind_run_failed _ _ _ _ _ Hq). exact I. }
  pose proof (get_sale_return_set _ _ _ _ _ _ Hq) as Hset.
  rewrite (bind_run_done _ _ _ _ _ Hq). unfold safe_sub. msimpl.
  destruct (mr <=? returns_amount q) eqn:Hmin; [|exact I].
  balance_of_set.
  match goal with
  | |- context [if ?b then _ else _] => destruct b eqn:Hdep
  end; [|exact I].
  unfold virtual_balance_moved.
  destruct (is_virtual_balance_enabled (connector_at t (db s))) eqn:Hv;
    try (destruct (returns_amount q <=? virtual_balance (connector_at t (db s)))
           eqn:Hsub; [|exact I]);
    cbn [db world eventlog];
    (branch_on_call (@destroy W _); [exact I|]);
    cbn [db world eventlog];
    (match goal with
     | |- context [transfer ?a ?b ?c ?d ?e ?w] =>
         destruct (transfer a b c d e w) eqn:Htr
     end; [exact I|]);
    cbn [db world eventlog]; balance_of_set; cbn [db world eventlog];
    (match goal with
     | Hd : destroy _ _ _ _ _ = inr ?w1 |- _ => exists (returns_fee q), w1
     end);
    (split; [destruct q; exact Hq|]); (split; [lia|]);
    (split; [intros Hx; first [lia|discriminate Hx]|]);
    (split; [first [eassumption|reflexivity]|]);
    (split; [first [eassumption|reflexivity]|]);
    (split; [rewrite ?Z.add_opp_r; reflexivity|]);
    rewrite <- app_assoc; cbn [app]; storage; reflexivity.
Qed.

Lemma cross_run self trader f t amount mr (s : State W) :
  f <> t ->
  match _convert_cross_connector self trader f t amount mr s with
  | Done r s' =>
      exists fee,
        get_cross_connector_return self f t amount true s
        = Done (mkReturns r fee) s
        /\ mr <= r
        /\ (is_virtual_balance_enabled (connector_at t (db s)) = true ->
            2 * r < virtual_balance (connector_at t (db s)))
        /\ transfer t (score_address self) trader r TRANSFER_DATA (world s)
           = inr (world s')
        /\ db s' = virtual_balance_moved t (- r)
                     (virtual_balance_moved f amount (db s))
        /\ eventlog s'
           = eventlog s
             ++ [Conversion f t trader amount r fee;
                 PriceDataUpdate f (totalSupply (_token (db s)) (world s'))
                                 (effective_balance self f s')
                                 (weight (connector_at f (db s)));
                 PriceDataUpdate t (totalSupply (_token (db s)) (world s'))
                                 (effective_balance self t s')
                                 (weight (connector_at t (db s)))]
  | Failed _ _ => True
  end.
Proof.
  intros Hft. unfold _convert_cross_connector.
  destruct (readonly_get_cross_connector_return self f t amount true s)
    as [[q Hq]|[msg Hq]].
  2: { rewrite (bind_run_failed _ _ _ _ _ Hq). exact I. }
  pose proof (get_cross_connector_return_set _ _ _ _ _ _ _ _ Hq) as (Hf & Ht & Hp).
  rewrite (bind_run_done _ _ _ _ _ Hq). unfold safe_sub. msimpl.
  destruct (mr <=? returns_amount q) eqn:Hmin; [|exact I].
  unfold virtual_balance_moved.
  destruct (is_virtual_balance_enabled (connector_at f (db s))) eqn:Hvf;
    storage;
    destruct (is_virtual_balance_enabled (connector_at t (db s))) eqn:Hvt;
    rewrite ?decide_False by assumption;
    try (destruct (returns_amount q <=? virtual_balance (connector_at t (db s)))
           eqn:Hsub; [|exact I]);
    cbn [db world eventlog]; balance_of_set; unfold effective_balance at 1;
    storage; rewrite ?Hvt; rewrite ?decide_True by reflexivity;
    rewrite ?decide_False by assumption;
    (match goal with
     | |- context [if ?b then _ else _] => destruct b eqn:Hdep
     end; [|exact I]);
    cbn [db world eventlog];
    (match goal with
     | |- context [transfer ?a ?b ?c ?d ?e ?w] =>
         destruct (transfer a b c d e w) eqn:Htr
     end; [exact I|]);
    cbn [db world eventlog]; balance_of_set; cbn [db world eventlog];
    balance_of_set; cbn [db world eventlog];
    exists (returns_fee q);
    (split; [destruct q; exact Hq|]); (split; [lia|]);
    (split; [intros Hx; first [lia|discriminate Hx]|]);
    (split; [first [assumption|reflexivity]|]);
    (split; [rewrite ?Z.add_opp_r; reflexivity|]);
    rewrite <- !app_assoc; cbn [app]; storage; reflexivity.
Qed.

End Effects.

(** ** What a quote is made of *)

Section QuoteSpecs.
Context {W : Type}.
Context `{!FlexibleToken W} `{!IRCToken W} `{!ScoreRegistry W}.
Context `{!FlexibleTokenController W} `{!Formula}.

Lemma fee_split_run (s : State W) magnitude raw :
  match (final_amount <- getFinalAmount raw magnitude ;
         fee <- safe_sub raw final_amount ;
         ret (mkReturns final_amount fee)) s with
  | Done q s' => s' = s /\ splits (db s) magnitude raw q
  | Failed e s' => s' = s /\ exists msg, e = Revert msg
  end.
Proof.
  unfold getFinalAmount, safe_sub. msimpl.
  destruct (final_amount_of (_conversion_fee (db s)) raw magnitude <=? raw) eqn:Hle;
    [|eauto].
  split; [reflexivity|]. unfold splits. cbn. split; [reflexivity|]. lia.
Qed.

Lemma get_purchase_return_spec self t a fc (s : State W) :
  match get_purchase_return self t a fc s with
  | Done q s' =>
      s' = s
      /\ controller_active (score_address self) (_token (db s)) (world s) = true
      /\ is_set (connector_at t (db s)) = true
      /\ is_purchase_enabled (connector_at t (db s)) = true
      /\ exists raw,
           calculate_purchase_return
             (totalSupply (_token (db s)) (world s))
             (if fc then effective_balance self t s - a
              else effective_balance self t s)
             (weight (connector_at t (db s))) a = inr raw
           /\ splits (db s) 1 raw q
  | Failed e s' => s' = s /\ exists msg, e = Revert msg
  end.
Proof.
  unfold get_purchase_return, _require_active, _is_active,
    _require_valid_connector.
  msimpl.
  destruct (controller_active _ _ _); [|eauto].
  destruct (is_set (connector_at t (db s))) eqn:Hset; [|eauto].
  destruct (is_purchase_enabled (connector_at t (db s))); [|eauto].
  balance_of_set.
  match goal with
  | |- context [calculate_purchase_return ?a ?b ?c ?d] =>
      destruct (calculate_purchase_return a b c d) as [msg|raw] eqn:Hraw
  end; [eauto|].
  pose proof (fee_split_run s 1 raw) as Hsplit.
  unfold bind, ret in Hsplit |- *.
  destruct (getFinalAmount raw 1 s) as [fa s1|e s1]; [|destruct Hsplit; auto].
  destruct (safe_sub raw fa s1) as [fee s2|e s2]; [|destruct Hsplit; auto].
  destruct Hsplit as [-> Hsplit]. repeat (split; [reflexivity|]).
  exists raw. split; [reflexivity|exact Hsplit].
Qed.

Lemma get_sale_return_spec self t a (s : State W) :
  match get_sale_return self t a s with
  | Done q s' =>
      s' = s
      /\ controller_active (score_address self) (_token (db s)) (world s) = true
      /\ is_set (connector_at t (db s)) = true
      /\ exists raw,
           calculate_sale_return
             (totalSupply (_token (db s)) (world s))
             (effective_balance self t s)
             (weight (connector_at t (db s))) a = inr raw
           /\ splits (db s) 1 raw q
  | Failed e s' => s' = s /\ exists msg, e = Revert msg
  end.
Proof.
  unfold get_sale_return, _require_active, _is_active, _require_valid_connector.
  msimpl.
  destruct (controller_active _ _ _); [|eauto].
  destruct (is_set (connector_at t (db s))) eqn:Hset; [|eauto].
  balance_of_set.
  match goal with
  | |- context [calculate_sale_return ?a ?b ?c ?d] =>
      destruct (calculate_sale_return a b c d) as [msg|raw] eqn:Hraw
  end; [eauto|].
  pose proof (fee_split_run s 1 raw) as Hsplit.
  unfold bind, ret in Hsplit |- *.
  destruct (getFinalAmount raw 1 s) as [fa s1|e s1]; [|destruct Hsplit; auto].
  destruct (safe_sub raw fa s1) as [fee s2|e s2]; [|destruct Hsplit; auto].
  destruct Hsplit as [-> Hsplit]. repeat (split; [reflexivity|]).
  exists raw. split; [reflexivity|exact Hsplit].
Qed.

Lemma get_cross_connector_return_spec self f t a fc (s : State W) :
  match get_cross_connector_return self f t a fc s with
  | Done q s' =>
      s' = s
      /\ controller_active (score_address self) (_token (db s)) (world s) = true
      /\ is_set (connector_at f (db s)) = true
      /\ is_set (connector_at t (db s)) = true
      /\ is_purchase_enabled (connector_at t (db s)) = true
      /\ exists raw,
           calculate_cross_connector_return
             (if fc then effective_balance self f s - a
              else effective_balance self f s)
             (weight (connector_at f (db s)))
             (effective_balance self t s)
             (weight (connector_at t (db s))) a = inr raw
           /\ splits (db s) 2 raw q
  | Failed e s' => s' = s /\ exists msg, e = Revert msg
  end.
Proof.
  unfold get_cross_connector_return, _require_active, _is_active,
    _require_valid_connector.
  msimpl.
  destruct (controller_active _ _ _); [|eauto].
  destruct (is_set (connector_at f (db s))) eqn:Hf; [|eauto].
  destruct (is_set (connector_at t (db s))) eqn:Ht; [|eauto].
  destruct (is_purchase_enabled (connector_at t (db s))); [|eauto].
  balance_of_set. balance_of_set.
  match goal with
  | |- context [calculate_cross_connector_return ?a ?b ?c ?d ?e] =>
      destruct (calculate_cross_connector_return a b c d e) as [msg|raw] eqn:Hraw
  end; [eauto|].
  pose proof (fee_split_run s 2 raw) as Hsplit.
  unfold bind, ret in Hsplit |- *.
  destruct (getFinalAmount raw 2 s) as [fa s1|e s1]; [|destruct Hsplit; auto].
  destruct (safe_sub raw fa s1) as [fee s2|e s2]; [|destruct Hsplit; auto].
  destruct Hsplit as [-> Hsplit]. repeat (split; [reflexivity|]).
  exists raw. split; [reflexivity|exact Hsplit].
Qed.

End QuoteSpecs.

Section QuoteTheorems.
Context {W : Type}.
Context `{!FlexibleToken W} `{!IRCToken W} `{!ScoreRegistry W}.
Context `{!FlexibleTokenController W} `{!Formula}.

(** X9: a quote of getReturn is given only for two different tokens while
    the converter is active, changes nothing, and is the output of the
    curve function of its route (purchase when the target is the governed
    token, sale when the source is, cross otherwise; on the connectors'
    effective balances and weights, all of them set connectors, the
    purchased one enabled) split in two: the amount getFinalAmount leaves of
    it (magnitude 2 on the cross route, 1 otherwise) and a fee >= 0 that
    adds up with the amount to that output. *)
Theorem getReturn_quote self f t a (s s' : State W) q :
  getReturn self f t a s = Done q s' ->
  s' = s /\ f <> t
  /\ controller_active (score_address self) (_token (db s)) (world s) = true
  /\ exists raw,
       splits (db s) (if bool_decide (t = _token (db s)) then 1
                      else if bool_decide (f = _token (db s)) then 1 else 2) raw q
       /\ if bool_decide (t = _token (db s))
          then calculate_purchase_return (totalSupply (_token (db s)) (world s))
                 (effective_balance self f s) (weight (connector_at f (db s))) a
               = inr raw
               /\ is_set (connector_at f (db s)) = true
               /\ is_purchase_enabled (connector_at f (db s)) = true
          else if bool_decide (f = _token (db s))
          then calculate_sale_return (totalSupply (_token (db s)) (world s))
                 (effective_balance self t s) (weight (connector_at t (db s))) a
               = inr raw
               /\ is_set (connector_at t (db s)) = true
          else calculate_cross_connector_return
                 (effective_balance self f s) (weight (connector_at f (db s)))
                 (effective_balance self t s) (weight (connector_at t (db s))) a
               = inr raw
               /\ is_set (connector_at f (db s)) = true
               /\ is_set (connector_at t (db s)) = true
               /\ is_purchase_enabled (connector_at t (db s)) = true.
Proof.
  unfold getReturn. msimpl.
  destruct (bool_decide (f = t)) eqn:Hft; cbn [negb]; [discriminate|].
  apply bool_decide_eq_false_1 in Hft.
  destruct (bool_decide (t = _token (db s))).
  - intros Hrun. pose proof (get_purchase_return_spec self f a false s) as Hspec.
    rewrite Hrun in Hspec.
    destruct Hspec as (-> & Hact & Hset & Hp & raw & Hraw & Hsplit).
    repeat (split; [assumption || reflexivity|]). exists raw. auto.
  - destruct (bool_decide (f = _token (db s))).
    + intros Hrun. pose proof (get_sale_return_spec self t a s) as Hspec.
      rewrite Hrun in Hspec.
      destruct Hspec as (-> & Hact & Hset & raw & Hraw & Hsplit).
      repeat (split; [assumption || reflexivity|]). exists raw. auto.
    + intros Hrun.
      pose proof (get_cross_connector_return_spec self f t a false s) as Hspec.
      rewrite Hrun in Hspec.
      destruct Hspec as (-> & Hact & Hf & Ht & Hp & raw & Hraw & Hsplit).
      repeat (split; [assumption || reflexivity|]). exists raw. auto.
Qed.

(** X10: a conversion goes through only while conversions are enabled and
    the converter is active, between two different tokens; it returns the
    amount of the quote of its route, taken on the state before the request
    with the deposit taken off the source connector's balance, and at least
    the requested minimum, which is positive; for a sale this is the very
    quote getReturn gives on that state. *)
Theorem convert_returns_quote self trader f t a mr (s s' : State W) r :
  _convert self trader f t a mr s = Done r s' ->
  0 < mr <= r /\ f <> t /\ _conversions_enabled (db s) = true
  /\ controller_active (score_address self) (_token (db s)) (world s) = true
  /\ exists fee,
       (if bool_decide (t = _token (db s))
        then get_purchase_return self f a true s
        else if bool_decide (f = _token (db s))
        then get_sale_return self t a s
        else get_cross_connector_return self f t a true s)
       = Done (mkReturns r fee) s
       /\ (f = _token (db s) ->
           getReturn self f t a s = Done (mkReturns r fee) s).
Proof.
  intros Hrun.
  assert (Hen : _conversions_enabled (db s) = true).
  { destruct (_conversions_enabled (db s)) eqn:Hen; [reflexivity|].
    rewrite convert_disabled in Hrun by exact Hen. discriminate Hrun. }
  destruct (convert_routes self trader f t a mr s)
    as [[msg Hrej]|(Hmr & Hft & Hroute)]; [congruence|].
  rewrite Hroute in Hrun.
  assert (Hget : forall fee, f = _token (db s) ->
            get_sale_return self t a s = Done (mkReturns r fee) s ->
            getReturn self f t a s = Done (mkReturns r fee) s).
  { intros fee Hf Hq. unfold getReturn. msimpl.
    rewrite (bool_decide_eq_false_2 _ Hft). cbn [negb].
    rewrite (bool_decide_eq_false_2 (t = _token (db s))) by congruence.
    rewrite (bool_decide_eq_true_2 _ Hf). exact Hq. }
  destruct (bool_decide (t = _token (db s))) eqn:Hbuy.
  - pose proof (buy_outcome self trader f a mr s) as Hout. rewrite Hrun in Hout.
    destruct Hout as (Hmin & fee & Hq).
    split; [lia|]. split; [exact Hft|]. split; [exact Hen|].
    split.
    { pose proof (get_purchase_return_spec self f a true s) as Hspec.
      rewrite Hq in Hspec. tauto. }
    exists fee. split; [exact Hq|].
    intros Hf. apply bool_decide_eq_true_1 in Hbuy. congruence.
  - destruct (bool_decide (f = _token (db s))) eqn:Hsell.
    + pose proof (sell_outcome self trader t a mr s) as Hout. rewrite Hrun in Hout.
      destruct Hout as (Hmin & fee & Hq).
      split; [lia|]. split; [exact Hft|]. split; [exact Hen|].
      split.
      { pose proof (get_sale_return_spec self t a s) as Hspec.
        rewrite Hq in Hspec. tauto. }
      exists fee. split; [exact Hq|]. intros Hf. apply Hget; assumption.
    + pose proof (cross_outcome self trader f t a mr s Hft) as Hout.
      rewrite Hrun in Hout. destruct Hout as (Hmin & (fee & Hq) & _).
      split; [lia|]. split; [exact Hft|]. split; [exact Hen|].
      split.
      { pose proof (get_cross_connector_return_spec self f t a true s) as Hspec.
        rewrite Hq in Hspec. tauto. }
      exists fee. split; [exact Hq|].
      intros Hf. apply bool_decide_eq_false_1 in Hsell. contradiction.
Qed.




End QuoteTheorems.

(** ** Deposits and who may convert *)

Section Admission.
Context {W : Type}.
Context `{!FlexibleToken W} `{!IRCToken W} `{!ScoreRegistry W}.
Context `{!FlexibleTokenController W} `{!Formula}.

(** The two ways tokenFallback returns. *)
Lemma tokenFallback_run self _from _value _data (s : State W) :
  match tokenFallback self _from _value _data s with
  | Done None s' =>
      s' = s /\ 0 < _value /\ _from = _owner (db s)
      /\ is_set (connector_at (msg_sender self) (db s)) = true
      /\ controller_active (score_address self) (_token (db s)) (world s) = false
  | Done (Some r) s' =>
      0 < _value
      /\ _from = getAddress (_registry (db s)) NETWORK (world s)
      /\ exists to_token min_return,
           _data = inr (to_token, min_return)
           /\ _convert self _from (msg_sender self) to_token _value min_return s
              = Done r s'
  | Failed _ _ => True
  end.
Proof.
  unfold tokenFallback, require_positive_value, getOwner, _is_active, reverting.
  msimpl.
  destruct (0 <? _value) eqn:Hv; [|eauto].
  apply Z.ltb_lt in Hv.
  destruct (bool_decide (_from = _owner (db s))) eqn:Ho; cbn [orb andb].
  - apply bool_decide_eq_true_1 in Ho.
    destruct (is_set (connector_at (msg_sender self) (db s))) eqn:Hset; cbn [andb].
    + destruct (controller_active (score_address self) (_token (db s)) (world s))
        eqn:Hact; cbn [negb]; [|auto].
      destruct (bool_decide (_from = getAddress (_registry (db s)) NETWORK (world s)))
        eqn:Hn; [|eauto].
      apply bool_decide_eq_true_1 in Hn.
      destruct _data as [msg|[to_token min_return]]; [eauto|].
      destruct (_convert self _from (msg_sender self) to_token _value min_return s)
        as [r s'|[msg|msg] s'] eqn:Hc; eauto 8.
    + destruct (bool_decide (_from = getAddress (_registry (db s)) NETWORK (world s)))
        eqn:Hn; [|eauto].
      apply bool_decide_eq_true_1 in Hn.
      destruct _data as [msg|[to_token min_return]]; [eauto|].
      destruct (_convert self _from (msg_sender self) to_token _value min_return s)
        as [r s'|[msg|msg] s'] eqn:Hc; eauto 8.
  - destruct (bool_decide (_from = getAddress (_registry (db s)) NETWORK (world s)))
      eqn:Hn; [|eauto].
    apply bool_decide_eq_true_1 in Hn.
    destruct _data as [msg|[to_token min_return]]; [eauto|].
    destruct (_convert self _from (msg_sender self) to_token _value min_return s)
      as [r s'|[msg|msg] s'] eqn:Hc; eauto 8.
Qed.

(** X14: tokenFallback returns only for a positive amount, and in one of
    two ways.  Without a result: the tokens came from the owner (not from
    the manager), their token is a set connector and the converter is
    inactive; nothing is written, called or logged.  With a result: the
    tokens came from the network address the current registry gives, the
    data held a target token and a minimum return, and the result and the
    state are those of _convert for the sender's token, that target, the
    received amount and that minimum. *)
Theorem tokenFallback_admission self _from _value _data (s s' : State W) o :
  tokenFallback self _from _value _data s = Done o s' ->
  0 < _value
  /\ match o with
     | None =>
         s' = s /\ _from = _owner (db s)
         /\ is_set (connector_at (msg_sender self) (db s)) = true
         /\ controller_active (score_address self) (_token (db s)) (world s) = false
     | Some r =>
         _from = getAddress (_registry (db s)) NETWORK (world s)
         /\ exists to_token min_return,
              _data = inr (to_token, min_return)
              /\ _convert self _from (msg_sender self) to_token _value min_return s
                 = Done r s'
     end.
Proof.
  intros Hrun. pose proof (tokenFallback_run self _from _value _data s) as H0.
  rewrite Hrun in H0. destruct o as [r|].
  - destruct H0 as (Hv & Hn & Hc). auto.
  - destruct H0 as (-> & Hv & Ho & Hset & Hact). auto.
Qed.

(** X15: only the network converts.  Tokens received from anyone but the
    network address of the current registry leave the converter, the other
    SCOREs and the event log exactly as they were: the transaction is
    rejected, or it is a deposit of the owner. *)
Theorem only_network_converts self _from _value _data (s : State W) :
  _from <> getAddress (_registry (db s)) NETWORK (world s) ->
  transact (tokenFallback self _from _value _data) s = s.
Proof.
  intros Hn. unfold transact.
  pose proof (tokenFallback_run self _from _value _data s) as H0.
  destruct (tokenFallback self _from _value _data s) as [[r|] s'|e s'];
    [|tauto|reflexivity].
  destruct H0 as (_ & Hfrom & _). contradiction.
Qed.

End Admission.

(** ** The connectors as the accessors show them *)

Section Views.
Context {W : Type}.
Context `{!FlexibleToken W} `{!IRCToken W} `{!ScoreRegistry W}.
Context `{!FlexibleTokenController W} `{!Formula}.

Lemma getConnector_run t (s : State W) :
  getConnector t s
  = Done (if is_set (connector_at t (db s)) then Some (connector_at t (db s))
          else None) s.
Proof.
  unfold getConnector. msimpl.
  destruct (is_set (connector_at t (db s))); reflexivity.
Qed.

(** X17: from installation on, whatever requests follow, the views of
    the connectors agree: the list of connector tokens names no token
    twice; a token is in it exactly when getConnector gives its five slots
    rather than the empty dict; getConnectorBalance returns a balance only
    for a token of the list, for any other it reverts with 'invalid
    connector', and for one of the list that keeps a virtual balance it
    returns that balance. *)
Theorem connector_views_agree self tok reg maxfee ct cw (w0 : W) s0 xs :
  on_install self tok reg maxfee ct cw (mkState uninstalled w0 []) = Done tt s0 ->
  let s := run (score_address self) xs s0 in
  NoDup (_connector_tokens (db s))
  /\ forall t,
       (t ∈ _connector_tokens (db s)
        <-> exists c, getConnector t s = Done (Some c) s)
       /\ (t ∉ _connector_tokens (db s) <-> getConnector t s = Done None s)
       /\ (forall b s', getConnectorBalance self t s = Done b s' ->
             t ∈ _connector_tokens (db s))
       /\ (t ∉ _connector_tokens (db s) ->
           getConnectorBalance self t s = Failed (Revert "invalid connector") s)
       /\ (t ∈ _connector_tokens (db s) ->
           is_virtual_balance_enabled (connector_at t (db s)) = true ->
           getConnectorBalance self t s
           = Done (virtual_balance (connector_at t (db s))) s).
Proof.
  intros Hinstall s.
  assert (Hc : weights_consistent (db s)).
  { apply weights_consistent_run.
    exact (weights_consistent_on_install _ _ _ _ _ _ _ _ _ Hinstall). }
  split; [exact (listed_once _ Hc)|].
  intros t. pose proof (listed_present _ Hc t) as Hiff.
  rewrite getConnector_run.
  destruct (is_set (connector_at t (db s))) eqn:Hset.
  - assert (Hin : t ∈ _connector_tokens (db s)) by (apply Hiff; reflexivity).
    split; [split; [eauto|intros _; exact Hin]|].
    split; [split; [intros Hn; contradiction|discriminate]|].
    split; [intros b s' _; exact Hin|].
    split; [intros Hn; contradiction|].
    intros _ Hv. rewrite getConnectorBalance_set by exact Hset.
    unfold effective_balance. rewrite Hv. reflexivity.
  - assert (Hout : t ∉ _connector_tokens (db s)).
    { intros Hin. apply Hiff in Hin. discriminate Hin. }
    split; [split; [intros Hin; contradiction|intros [c Hc']; discriminate Hc']|].
    split; [split; [reflexivity|intros _; exact Hout]|].
    split.
    { intros b s' Hb. rewrite getConnectorBalance_unset in Hb by exact Hset.
      discriminate Hb. }
    split; [intros _; apply getConnectorBalance_unset; exact Hset|].
    intros Hin. contradiction.
Qed.

(** X18: from installation on, whatever requests follow, while the
    converter is active no token of the connector list can be withdrawn:
    withdrawTokens reverts before the method of the base class is reached,
    whoever calls and whatever that method does.  While the converter is
    inactive, or for a token that is not in the list, withdrawTokens is
    that method. *)
Theorem withdrawTokens_keeps_reserves super self tok reg maxfee ct cw (w0 : W)
    s0 xs sender t _to _amount :
  on_install self tok reg maxfee ct cw (mkState uninstalled w0 []) = Done tt s0 ->
  let s := run (score_address self) xs s0 in
  let caller := mkCall (score_address self) sender in
  (controller_active (score_address self) tok (world s) = true ->
   t ∈ _connector_tokens (db s) ->
   withdrawTokens super caller t _to _amount s
   = Failed (Revert "withdrawing token should be inactive or not a connector token") s)
  /\ (controller_active (score_address self) tok (world s) = false
      \/ t ∉ _connector_tokens (db s) ->
      withdrawTokens super caller t _to _amount s = super caller t _to _amount s).
Proof.
  intros Hinstall s caller.
  assert (Hc : weights_consistent (db s)).
  { apply weights_consistent_run.
    exact (weights_consistent_on_install _ _ _ _ _ _ _ _ _ Hinstall). }
  assert (Htok : _token (db s) = tok).
  { pose proof (on_install_done _ _ _ _ _ _ _ _ _ Hinstall) as (_ & Ht & _).
    assert (Hkeep : keeps_installed (db s0) (db s)).
    { apply run_maintains; [typeclasses eauto..|].
      intros sender' r _. apply maintains_keeps_installed. }
    destruct Hkeep as [-> _]. exact Ht. }
  pose proof (listed_present _ Hc t) as Hiff. clearbody s.
  unfold withdrawTokens, _is_active. msimpl.
  change (score_address caller) with (score_address self). rewrite Htok.
  split.
  - intros -> Hin. apply Hiff in Hin. rewrite Hin. reflexivity.
  - intros [-> | Hn]; [reflexivity|].
    destruct (is_set (connector_at t (db s))) eqn:Hset.
    + exfalso. apply Hn, Hiff. reflexivity.
    + rewrite orb_true_r. reflexivity.
Qed.

End Views.

(** ** What the administration never touches *)

Section World.
Context {W : Type}.
Context `{!FlexibleToken W} `{!IRCToken W} `{!ScoreRegistry W}.
Context `{!FlexibleTokenController W} `{!Formula}.

Lemma leaves_world_readonly {A} (m : M W A) : readonly m -> leaves_world m.
Proof. intros Hm s. destruct (Hm s) as [[a ->]|[msg ->]]; reflexivity. Qed.

Lemma leaves_world_write f : leaves_world (W:=W) (write f).
Proof. intros s. reflexivity. Qed.

Lemma leaves_world_emit e : leaves_world (W:=W) (emit e).
Proof. intros s. reflexivity. Qed.

Lemma leaves_world_bind {A B} (m : M W A) (k : A -> M W B) :
  leaves_world m -> (forall a, leaves_world (k a)) -> leaves_world (bind m k).
Proof.
  intros Hm Hk s. unfold bind. specialize (Hm s).
  destruct (m s) as [a s1|e s1]; [|exact Hm].
  specialize (Hk a s1). destruct (k a s1); congruence.
Qed.

Lemma leaves_world_when b (m : M W unit) : leaves_world m -> leaves_world (when b m).
Proof. intros Hm s. unfold when. destruct b; [apply Hm|reflexivity]. Qed.

(** Every method of the administration leaves the other SCOREs alone. *)
Lemma leaves_world_dispatch self r :
  (forall f v d, r <> TokenFallback f v d) -> leaves_world (W:=W) (dispatch self r).
Proof.
  intros Hr.
  destruct r; cbn [dispatch]; [exfalso; eapply Hr; reflexivity|..];
    unfold addConnector, updateConnector, disableConnectorPurchases, updateRegistry,
      restoreRegistry, disableRegistryUpdate, disableConversions, setConversionFee,
      require_owner_only, require_owner_or_manager_only, getOwner,
      _require_inactive, _is_active, require_valid_address, require_not_this,
      _require_valid_connector_weight, _require_valid_conversion_fee;
    repeat first
      [ progress cbv zeta
      | solve [apply leaves_world_readonly; auto with readonly]
      | apply leaves_world_emit
      | apply leaves_world_write
      | apply leaves_world_bind; [|intro]
      | apply leaves_world_when ].
Qed.

(** X19: the administration moves no tokens.  A transaction calling
    addConnector, updateConnector, disableConnectorPurchases,
    updateRegistry, restoreRegistry, disableRegistryUpdate,
    disableConversions or setConversionFee, accepted or rejected, by
    whatever sender, leaves every other SCORE (the balances and the supply
    of the tokens among them) as it was; only what tokenFallback starts
    issues, destroys or transfers tokens. *)
Theorem administration_moves_no_tokens this sender r (s : State W) :
  (forall f v d, r <> TokenFallback f v d) ->
  world (step this s (Transaction sender r)) = world s.
Proof.
  intros Hr. cbn [step]. unfold transact.
  pose proof (leaves_world_dispatch (mkCall this sender) r Hr s) as H0.
  destruct (dispatch (mkCall this sender) r s); [exact H0|reflexivity].
Qed.

End World.

(** ** Installation *)

Section Install.
Context {W : Type}.
Context `{!FlexibleToken W} `{!IRCToken W} `{!ScoreRegistry W}.
Context `{!FlexibleTokenController W} `{!Formula}.

(** X20: installation is accepted exactly when the registry and the
    governed token are valid addresses, the fee ceiling is between 0 and
    1,000,000 and, if a first connector is given as a valid address, the
    converter is inactive, the connector is neither the converter nor the
    governed token and its weight is between 1 and 1,000,000; a connector
    given as an invalid address is passed over without failing.  An
    accepted installation makes the installer the owner, stores the token,
    the registry in both registry slots and the ceiling, sets the fee to 0,
    enables conversions and registry updates, and holds as only connector
    the first one, if any, with the given weight, purchases enabled and no
    virtual balance; it calls no other SCORE and logs nothing.  A rejected
    one is a revert. *)
Theorem on_install_result self tok reg maxfee ct cw (w0 : W) els :
  let first := match ct with
               | Some t => if is_valid_address t then Some t else None
               | None => None
               end in
  let acceptable :=
    is_valid_address reg = true /\ 0 <= maxfee <= 1000000
    /\ is_valid_address tok = true
    /\ forall t, first = Some t ->
         controller_active (score_address self) tok w0 = false
         /\ t <> score_address self /\ t <> tok /\ 0 < cw <= 1000000 in
  match on_install self tok reg maxfee ct cw (mkState uninstalled w0 els) with
  | Done _ s0 =>
      acceptable /\ world s0 = w0 /\ eventlog s0 = els
      /\ _owner (db s0) = msg_sender self /\ _token (db s0) = tok
      /\ _registry (db s0) = reg /\ _prev_registry (db s0) = reg
      /\ _max_conversion_fee (db s0) = maxfee /\ _conversion_fee (db s0) = 0
      /\ _conversions_enabled (db s0) = true
      /\ _allow_registry_update (db s0) = true
      /\ _connector_tokens (db s0) = match first with Some t => [t] | None => [] end
      /\ _total_connector_weight (db s0)
         = match first with Some _ => cw | None => 0 end
      /\ forall t, connector_at t (db s0)
                   = if bool_decide (first = Some t)
                     then mkConnector 0 cw false true true
                     else unset_connector
  | Failed e _ => ~ acceptable /\ exists msg, e = Revert msg
  end.
Proof.
  intros first acceptable.
  assert (Hunset : forall t : Address, connector_at t uninstalled = unset_connector).
  { intros t. unfold connector_at. cbn. rewrite lookup_empty. reflexivity. }
  unfold on_install, require_valid_address, _require_valid_max_conversion_fee.
  msimpl.
  destruct (is_valid_address reg) eqn:Hreg;
    [|split; [intros (Hx & _); discriminate Hx|eauto]].
  destruct ((0 <=? maxfee) && (maxfee <=? _MAX_CONVERSION_FEE)) eqn:Hfee;
    [|split; [|eauto]].
  2:{ intros (_ & Hx & _). apply andb_false_iff in Hfee.
      unfold _MAX_CONVERSION_FEE in Hfee. destruct Hfee as [Hf|Hf].
      - apply Z.leb_gt in Hf. lia.
      - apply Z.leb_gt in Hf. lia. }
  apply andb_true_iff in Hfee as [Hf1 Hf2].
  apply Z.leb_le in Hf1, Hf2. unfold _MAX_CONVERSION_FEE in Hf2.
  destruct (is_valid_address tok) eqn:Htok;
    [|split; [intros (_ & _ & Hx & _); discriminate Hx|eauto]].
  assert (Hnone : first = None ->
    match Done (W:=W) tt
            (mkState
               (set_max_conversion_fee maxfee
                  (set_conversions_enabled true
                     (set_prev_registry reg
                        (set_registry reg
                           (set_allow_registry_update true
                              (set_token tok (set_owner (msg_sender self) uninstalled)))))))
               w0 els) with
    | Done _ s0 =>
        acceptable /\ world s0 = w0 /\ eventlog s0 = els
        /\ _owner (db s0) = msg_sender self /\ _token (db s0) = tok
        /\ _registry (db s0) = reg /\ _prev_registry (db s0) = reg
        /\ _max_conversion_fee (db s0) = maxfee /\ _conversion_fee (db s0) = 0
        /\ _conversions_enabled (db s0) = true
        /\ _allow_registry_update (db s0) = true
        /\ _connector_tokens (db s0) = match first with Some t => [t] | None => [] end
        /\ _total_connector_weight (db s0)
           = match first with Some _ => cw | None => 0 end
        /\ forall t, connector_at t (db s0)
                     = if bool_decide (first = Some t)
                       then mkConnector 0 cw false true true
                       else unset_connector
    | Failed e _ => ~ acceptable /\ exists msg, e = Revert msg
    end).
  { intros Hfirst. rewrite Hfirst. cbn [db world eventlog].
    split.
    { split; [reflexivity|]. split; [lia|]. split; [reflexivity|].
      intros t Ht. rewrite Hfirst in Ht. discriminate Ht. }
    repeat (split; [reflexivity|]).
    intros t. rewrite bool_decide_eq_false_2 by discriminate.
    storage. apply Hunset. }
  destruct ct as [t|]; [|exact (Hnone eq_refl)].
  unfold when. subst first. cbn beta iota in *.
  destruct (is_valid_address t) eqn:Ht; [|exact (Hnone eq_refl)].
  clear Hnone.
  unfold addConnector, require_owner_only, getOwner, _require_inactive, _is_active,
    require_valid_address, require_not_this, _require_valid_connector_weight.
  msimpl. cbn [_owner set_owner set_token set_allow_registry_update set_registry
    set_prev_registry set_conversions_enabled set_max_conversion_fee uninstalled].
  rewrite bool_decide_eq_true_2 by reflexivity. storage.
  destruct (controller_active (score_address self) tok w0) eqn:Hact; cbn [negb].
  { split; [|eauto]. intros (_ & _ & _ & Hx).
    destruct (Hx t eq_refl) as (Hy & _). discriminate Hy. }
  rewrite Ht.
  destruct (bool_decide (score_address self = t)) eqn:Hthis; cbn [negb].
  { split; [|eauto]. intros (_ & _ & _ & Hx).
    destruct (Hx t eq_refl) as (_ & Hy & _).
    apply bool_decide_eq_true_1 in Hthis. congruence. }
  apply bool_decide_eq_false_1 in Hthis.
  destruct ((0 <? cw) && (cw <=? _MAX_WEIGHT)) eqn:Hw.
  2:{ split; [|eauto]. intros (_ & _ & _ & Hx).
      destruct (Hx t eq_refl) as (_ & _ & _ & Hy).
      apply andb_false_iff in Hw. unfold _MAX_WEIGHT in Hw. destruct Hw as [Hw|Hw].
      - apply Z.ltb_ge in Hw. lia.
      - apply Z.leb_gt in Hw. lia. }
  apply andb_true_iff in Hw as [Hw1 Hw2].
  apply Z.ltb_lt in Hw1. apply Z.leb_le in Hw2. unfold _MAX_WEIGHT in Hw2.
  storage.
  destruct (bool_decide (tok = t)) eqn:Hsame; cbn [negb].
  { split; [|eauto]. intros (_ & _ & _ & Hx).
    destruct (Hx t eq_refl) as (_ & _ & Hy & _).
    apply bool_decide_eq_true_1 in Hsame. congruence. }
  apply bool_decide_eq_false_1 in Hsame.
  storage. rewrite Hunset. cbn [is_set unset_connector negb]. storage.
  cbn [uninstalled _total_connector_weight].
  replace (0 + cw <=? _MAX_WEIGHT) with true
    by (symmetry; apply Z.leb_le; unfold _MAX_WEIGHT; lia).
  storage.
  split.
  { split; [reflexivity|]. split; [lia|]. split; [reflexivity|].
    intros t' [= <-]. repeat split; try assumption; try lia; congruence. }
  repeat (split; [reflexivity|]).
  intros t'. storage.
  destruct (decide (t = t')) as [<-|Hne].
  - rewrite bool_decide_eq_true_2 by reflexivity. rewrite Hunset. reflexivity.
  - rewrite bool_decide_eq_false_2 by congruence. apply Hunset.
Qed.

End Install.

(** ** Virtual balances under trading *)

Section Reserves.
Context {W : Type}.
Context `{!FlexibleToken W} `{!IRCToken W} `{!ScoreRegistry W}.
Context `{!FlexibleTokenController W} `{!Formula}.

Lemma virtual_balance_after_move t d t' c :
  virtual_balance (connector_at t' (virtual_balance_moved t d c))
  = if decide (t = t')
    then if is_virtual_balance_enabled (connector_at t c)
         then virtual_balance (connector_at t c) + d
         else virtual_balance (connector_at t c)
    else virtual_balance (connector_at t' c).
Proof.
  unfold virtual_balance_moved.
  destruct (is_virtual_balance_enabled (connector_at t c)).
  - storage. destruct (decide (t = t')); reflexivity.
  - destruct (decide (t = t')) as [->|]; reflexivity.
Qed.

Lemma is_virtual_balance_enabled_after_move t d t' c :
  is_virtual_balance_enabled (connector_at t' (virtual_balance_moved t d c))
  = is_virtual_balance_enabled (connector_at t' c).
Proof.
  unfold virtual_balance_moved.
  destruct (is_virtual_balance_enabled (connector_at t c)); [|reflexivity].
  storage. reflexivity.
Qed.

(** What a conversion that goes through does to one virtual balance. *)
Lemma convert_virtual_balance self trader f t a mr (s s' : State W) r t' :
  0 < a ->
  _convert self trader f t a mr s = Done r s' ->
  0 <= virtual_balance (connector_at t' (db s)) ->
  0 <= virtual_balance (connector_at t' (db s')).
Proof.
  intros Ha Hrun Hvb.
  destruct (convert_routes self trader f t a mr s)
    as [[msg Hrej]|(Hmr & Hft & Hroute)]; [congruence|].
  rewrite Hroute in Hrun.
  destruct (bool_decide (t = _token (db s))).
  - pose proof (buy_run self trader f a mr s) as H0. rewrite Hrun in H0.
    destruct H0 as (fee & _ & _ & _ & -> & _).
    rewrite virtual_balance_after_move.
    destruct (decide (f = t')) as [<-|_]; [|exact Hvb].
    destruct (is_virtual_balance_enabled (connector_at f (db s))); lia.
  - destruct (bool_decide (f = _token (db s))).
    + pose proof (sell_run self trader t a mr s) as H0. rewrite Hrun in H0.
      destruct H0 as (fee & w1 & _ & _ & Hle & _ & _ & -> & _).
      rewrite virtual_balance_after_move.
      destruct (decide (t = t')) as [<-|_]; [|exact Hvb].
      destruct (is_virtual_balance_enabled (connector_at t (db s)));
        [specialize (Hle eq_refl)|]; lia.
    + pose proof (cross_run self trader f t a mr s Hft) as H0. rewrite Hrun in H0.
      destruct H0 as (fee & _ & Hmin & Hlt & _ & -> & _).
      rewrite virtual_balance_after_move, is_virtual_balance_enabled_after_move.
      rewrite !virtual_balance_after_move.
      destruct (decide (t = t')) as [<-|Hne].
      * rewrite decide_False by exact Hft.
        destruct (is_virtual_balance_enabled (connector_at t (db s)));
          [specialize (Hlt eq_refl)|]; lia.
      * destruct (decide (f = t')) as [<-|_]; [|exact Hvb].
        destruct (is_virtual_balance_enabled (connector_at f (db s))); lia.
Qed.

(** X21: trading never drives a virtual balance below zero: whatever
    tokens are notified to the converter, by whom and with what data, a
    virtual balance that was not negative before the transaction is not
    negative after it.  (The owner may set any virtual balance through
    updateConnector, which checks none.) *)
Theorem trading_keeps_virtual_balances_nonneg self _from _value _data
    (s : State W) t :
  0 <= virtual_balance (connector_at t (db s)) ->
  0 <= virtual_balance
         (connector_at t (db (transact (tokenFallback self _from _value _data) s))).
Proof.
  intros Hvb. unfold transact.
  pose proof (tokenFallback_run self _from _value _data s) as H0.
  destruct (tokenFallback self _from _value _data s) as [[r|] s'|e s'];
    [|destruct H0 as (-> & _); exact Hvb|exact Hvb].
  destruct H0 as (Hv & _ & to_token & min_return & _ & Hc).
  exact (convert_virtual_balance _ _ _ _ _ _ _ _ _ t Hv Hc Hvb).
Qed.

End Reserves.

(** ** Who may change what *)

Section Authority.
Context {W : Type}.
Context `{!FlexibleToken W} `{!IRCToken W} `{!ScoreRegistry W}.
Context `{!FlexibleTokenController W} `{!Formula}.

(** X22: the administration is closed to strangers.  A transaction sent
    by someone other than the owner leaves the storage, the other SCOREs
    and the event log exactly as they were when it calls addConnector,
    updateConnector or disableConnectorPurchases (the manager included);
    when it calls restoreRegistry, disableRegistryUpdate,
    disableConversions or setConversionFee and the sender is not the
    manager either; and when it calls updateRegistry while registry
    updates are switched off. *)
Theorem strangers_change_nothing this sender r (s : State W) :
  sender <> _owner (db s) ->
  match r with
  | TokenFallback _ _ _ => False
  | AddConnector _ _ _ | UpdateConnector _ _ _ _
  | DisableConnectorPurchases _ _ => True
  | UpdateRegistry => _allow_registry_update (db s) = false
  | RestoreRegistry | DisableRegistryUpdate _ | DisableConversions _
  | SetConversionFee _ => Some sender <> _manager (db s)
  end ->
  step this s (Transaction sender r) = s.
Proof.
  intros Ho Hr. cbn [step]. unfold transact.
  destruct r; cbn [dispatch]; [contradiction|..];
    unfold addConnector, updateConnector, disableConnectorPurchases, updateRegistry,
      restoreRegistry, disableRegistryUpdate, disableConversions, setConversionFee,
      require_owner_only, require_owner_or_manager_only, getOwner;
    msimpl; cbn [msg_sender];
    rewrite ?(bool_decide_eq_false_2 _ Ho);
    rewrite ?(bool_decide_eq_false_2 _ Hr); rewrite ?Hr;
    reflexivity.
Qed.

(** X23: an active converter takes no new connector: a transaction sent
    while the converter is active, whatever it calls, leaves the list of
    connector tokens, and which connectors are set, as they were. *)
Theorem active_converter_takes_no_connector this sender r (s : State W) :
  controller_active this (_token (db s)) (world s) = true ->
  let s' := step this s (Transaction sender r) in
  _connector_tokens (db s') = _connector_tokens (db s)
  /\ forall t, is_set (connector_at t (db s')) = is_set (connector_at t (db s)).
Proof.
  intros Hact s'. subst s'. cbn [step].
  destruct r as [f v d|t w e|t w e v|t d| | |d|d|f].
  2:{ unfold transact. cbn [dispatch].
      pose proof (addConnector_checks (mkCall this sender) t w e s) as Hchk.
      destruct (addConnector (mkCall this sender) t w e s) as [[] s'|e' s'];
        [|split; reflexivity].
      cbn [score_address] in Hchk. destruct Hchk as (_ & Hina & _). congruence. }
  2:{ unfold transact. cbn [dispatch].
      pose proof (updateConnector_spec (mkCall this sender) t w e v s) as Hspec.
      destruct (updateConnector (mkCall this sender) t w e v s) as [[] s'|e' s'];
        [|split; reflexivity].
      destruct Hspec as (Hset & _ & _ & Hl & Hcs).
      split; [exact Hl|]. intros t'. rewrite Hcs.
      destruct (decide (t = t')) as [<-|_]; [|reflexivity].
      cbn [is_set]. reflexivity. }
  all: match goal with
       | |- context [dispatch _ ?r'] =>
           assert (Hsw : same_weights (db s)
                           (db (transact (dispatch (mkCall this sender) r') s)))
             by (apply maintains_transact; [typeclasses eauto|];
                 apply maintains_same_weights; intros; discriminate);
           destruct Hsw as (Hl & _ & Hc);
           split; [exact Hl|intros t0; apply (Hc t0)]
       end.
Qed.

End Authority.

(** ** The scaling factors *)






(** ** The further properties at work on the small world *)

Lemma getFinalAmount_cross_le_single_witness :
  0 <= 100 /\ fee_bounded (db half_quarter)
  /\ exists r1 r2,
       getFinalAmount 100 1 half_quarter = Done r1 half_quarter
       /\ getFinalAmount 100 2 half_quarter = Done r2 half_quarter
       /\ 0 <= r2 <= r1 /\ r1 <= 100.
Proof.
  assert (H0 : 0 <= 100) by lia.
  assert (H1 : fee_bounded (db half_quarter)) by by_computation.
  split; [exact H0|]. split; [exact H1|].
  exact (getFinalAmount_cross_le_single half_quarter 100 H0 H1).
Defined.

Lemma getFinalAmount_monotone_witness :
  100 <= 200 /\ (1 = 1 \/ 1 = 2) /\ fee_bounded (db half_quarter)
  /\ exists r r',
       getFinalAmount 100 1 half_quarter = Done r half_quarter
       /\ getFinalAmount 200 1 half_quarter = Done r' half_quarter
       /\ r <= r'.
Proof.
  assert (H0 : 100 <= 200) by lia.
  assert (H1 : 1 = 1 \/ 1 = 2) by (left; reflexivity).
  assert (H2 : fee_bounded (db half_quarter)) by by_computation.
  split; [exact H0|]. split; [exact H1|]. split; [exact H2|].
  destruct (getFinalAmount_monotone half_quarter 100 200 1 H0 H1 H2)
    as (r & r' & Hr & Hr' & Hle & _).
  exists r, r'. auto.
Defined.

Lemma fee_stays_within_ceiling_witness :
  on_install (mkCall converter_score alice) flexible_score registry_score
             1000000 (Some icx_score) 500000 (mkState uninstalled ledger0 [])
  = Done tt installed_full
  /\ _max_conversion_fee (db trading) = 1000000
  /\ _token (db trading) = flexible_score
  /\ 0 <= _conversion_fee (db trading) <= 1000000.
Proof.
  assert (Hinstall : on_install (mkCall converter_score alice) flexible_score
                       registry_score 1000000 (Some icx_score) 500000
                       (mkState uninstalled ledger0 [])
                     = Done tt installed_full) by (vm_compute; reflexivity).
  split; [exact Hinstall|].
  destruct (fee_stays_within_ceiling (mkCall converter_score alice) flexible_score
              registry_score 1000000 (Some icx_score) 500000 ledger0
              installed_full setup Hinstall) as (Hm & Ht & Hf & _).
  split; [exact Hm|]. split; [exact Ht|]. exact Hf.
Defined.

Lemma connectors_stay_sound_witness :
  on_install (mkCall converter_score alice) flexible_score registry_score
             1000000 (Some icx_score) 500000 (mkState uninstalled ledger0 [])
  = Done tt installed_full
  /\ is_set (connector_at usd_score (db trading)) = true
  /\ 0 < weight (connector_at usd_score (db trading)) <= 1000000
  /\ usd_score <> flexible_score /\ usd_score <> converter_score.
Proof.
  assert (Hinstall : on_install (mkCall converter_score alice) flexible_score
                       registry_score 1000000 (Some icx_score) 500000
                       (mkState uninstalled ledger0 [])
                     = Done tt installed_full) by (vm_compute; reflexivity).
  assert (Hset : is_set (connector_at usd_score (db trading)) = true)
    by (vm_compute; reflexivity).
  split; [exact Hinstall|]. split; [exact Hset|].
  destruct (connectors_stay_sound (mkCall converter_score alice) flexible_score
              registry_score 1000000 (Some icx_score) 500000 ledger0
              installed_full setup Hinstall usd_score Hset)
    as (Hw & Ht & Hthis & _).
  split; [exact Hw|]. split; [exact Ht|]. exact Hthis.
Defined.

Lemma registries_stay_valid_witness :
  on_install (mkCall converter_score alice) flexible_score registry_score
             1000000 (Some icx_score) 500000 (mkState uninstalled ledger0 [])
  = Done tt installed_full
  /\ is_valid_address
       (_registry (db (run converter_score
                         (setup ++ [Transaction bob UpdateRegistry]) installed_full)))
     = true.
Proof.
  assert (Hinstall : on_install (mkCall converter_score alice) flexible_score
                       registry_score 1000000 (Some icx_score) 500000
                       (mkState uninstalled ledger0 [])
                     = Done tt installed_full) by (vm_compute; reflexivity).
  split; [exact Hinstall|].
  exact (proj1 (registries_stay_valid (mkCall converter_score alice) flexible_score
                  registry_score 1000000 (Some icx_score) 500000 ledger0
                  installed_full (setup ++ [Transaction bob UpdateRegistry])
                  Hinstall)).
Defined.

Lemma restoreRegistry_undoes_updateRegistry_witness :
  let s1 := transact (updateRegistry (mkCall converter_score bob)) installed_half in
  let s2 := transact (restoreRegistry (mkCall converter_score alice)) s1 in
  updateRegistry (mkCall converter_score bob) installed_half = Done tt s1
  /\ restoreRegistry (mkCall converter_score alice) s1 = Done tt s2
  /\ _registry (db s1) = registry_score'
  /\ _registry (db s2) = _registry (db installed_half)
  /\ _allow_registry_update (db s2) = false.
Proof.
  intros s1 s2.
  assert (H1 : updateRegistry (mkCall converter_score bob) installed_half
               = Done tt s1) by (vm_compute; reflexivity).
  assert (H2 : restoreRegistry (mkCall converter_score alice) s1 = Done tt s2)
    by (vm_compute; reflexivity).
  split; [exact H1|]. split; [exact H2|].
  split; [vm_compute; reflexivity|].
  destruct (restoreRegistry_undoes_updateRegistry (mkCall converter_score bob)
              (mkCall converter_score alice) installed_half s1 s2 H1 H2)
    as (Hr & _ & Ha & _).
  split; [exact Hr|exact Ha].
Defined.

Lemma disableConversions_stops_conversions_witness :
  let s1 := transact (disableConversions (mkCall converter_score alice) true)
                     trading in
  let xs := [Transaction alice (SetConversionFee 1000);
             Transaction alice (DisableConversions true);
             Elsewhere ledger1] in
  disableConversions (mkCall converter_score alice) true trading = Done tt s1
  /\ (forall sender', Transaction sender' (DisableConversions false) ∉ xs)
  /\ exists msg,
       _convert (mkCall converter_score icx_score) ledger_network icx_score
                usd_score 100 1 (run converter_score xs s1)
       = Failed (Revert msg) (run converter_score xs s1).
Proof.
  intros s1 xs.
  assert (H1 : disableConversions (mkCall converter_score alice) true trading
               = Done tt s1) by (vm_compute; reflexivity).
  assert (H2 : forall sender',
             Transaction sender' (DisableConversions false) ∉ xs).
  { intros sender' Hin. unfold xs in Hin.
    repeat (apply elem_of_cons in Hin as [Hin|Hin]; [discriminate Hin|]).
    apply elem_of_nil in Hin. exact Hin. }
  split; [exact H1|]. split; [exact H2|].
  destruct (disableConversions_stops_conversions converter_score alice trading
              s1 xs H1 H2) as (_ & Hstop & _).
  exact (Hstop (mkCall converter_score icx_score) ledger_network icx_score
               usd_score 100 1).
Defined.

Lemma getReturn_quote_witness :
  exists q,
    getReturn (mkCall converter_score alice) icx_score usd_score 100 trading
    = Done q trading
    /\ icx_score <> usd_score
    /\ controller_active converter_score (_token (db trading)) (world trading) = true
    /\ returns_amount q + returns_fee q = 9 /\ 0 <= returns_fee q.
Proof.
  destruct (getReturn (mkCall converter_score alice) icx_score usd_score 100
                      trading) as [q s'|e s'] eqn:E.
  - destruct (getReturn_quote _ _ _ _ _ _ _ E)
      as (-> & Hne & Hact & raw & (_ & Hsum & Hfee) & Hroute).
    exists q. split; [reflexivity|]. split; [exact Hne|]. split; [exact Hact|].
    split; [|exact Hfee]. rewrite Hsum.
    vm_compute in Hroute. destruct Hroute as (Hraw & _).
    injection Hraw as <-. reflexivity.
  - exfalso. vm_compute in E. discriminate E.
Defined.

Lemma convert_returns_quote_witness :
  exists r s' fee,
    _convert (mkCall converter_score icx_score) ledger_network icx_score
             usd_score 100 1 trading = Done r s'
    /\ 0 < 1 <= r
    /\ get_cross_connector_return (mkCall converter_score icx_score) icx_score
         usd_score 100 true trading = Done (mkReturns r fee) trading.
Proof.
  destruct (_convert (mkCall converter_score icx_score) ledger_network icx_score
                     usd_score 100 1 trading) as [r s'|e s'] eqn:E.
  - destruct (convert_returns_quote _ _ _ _ _ _ _ _ _ E)
      as (Hmin & _ & _ & _ & fee & Hq & _).
    exists r, s', fee. split; [reflexivity|]. split; [exact Hmin|].
    vm_compute in Hq |- *. exact Hq.
  - exfalso. vm_compute in E. discriminate E.
Defined.




Lemma tokenFallback_admission_witness :
  (exists r s',
     tokenFallback (mkCall converter_score icx_score) ledger_network 100
                   (inr (usd_score, 1)) trading = Done (Some r) s'
     /\ _convert (mkCall converter_score icx_score) ledger_network icx_score
                 usd_score 100 1 trading = Done r s')
  /\ tokenFallback (mkCall converter_score icx_score) alice 100
                   (inl "no conversion") installed_full
     = Done None installed_full
  /\ alice = _owner (db installed_full).
Proof.
  split.
  - destruct (tokenFallback (mkCall converter_score icx_score) ledger_network 100
                            (inr (usd_score, 1)) trading)
      as [[r|] s'|e s'] eqn:E.
    + destruct (tokenFallback_admission _ _ _ _ _ _ _ E)
        as (_ & _ & to_token & min_return & Hd & Hc).
      injection Hd as <- <-. exists r, s'. split; [reflexivity|exact Hc].
    + exfalso. vm_compute in E. discriminate E.
    + exfalso. vm_compute in E. discriminate E.
  - assert (E : tokenFallback (mkCall converter_score icx_score) alice 100
                  (inl "no conversion") installed_full
                = Done None installed_full) by (vm_compute; reflexivity).
    split; [exact E|].
    destruct (tokenFallback_admission _ _ _ _ _ _ _ E) as (_ & _ & Ho & _).
    exact Ho.
Defined.

Lemma only_network_converts_witness :
  bob <> getAddress (_registry (db trading)) NETWORK (world trading)
  /\ transact (tokenFallback (mkCall converter_score icx_score) bob 100
                             (inr (usd_score, 1))) trading = trading.
Proof.
  assert (Hn : bob <> getAddress (_registry (db trading)) NETWORK (world trading))
    by (intros H; vm_compute in H; discriminate H).
  split; [exact Hn|].
  exact (only_network_converts (mkCall converter_score icx_score) bob 100
           (inr (usd_score, 1)) trading Hn).
Defined.

Lemma connector_views_agree_witness :
  on_install (mkCall converter_score alice) flexible_score registry_score
             1000000 (Some icx_score) 500000 (mkState uninstalled ledger0 [])
  = Done tt installed_full
  /\ NoDup (_connector_tokens (db trading))
  /\ (usd_score ∈ _connector_tokens (db trading)
      <-> exists c, getConnector usd_score trading = Done (Some c) trading)
  /\ (bob ∉ _connector_tokens (db trading)
      <-> getConnector bob trading = Done None trading)
  /\ getConnectorBalance (mkCall converter_score alice) bob trading
     = Failed (Revert "invalid connector") trading
  /\ getConnectorBalance (mkCall converter_score alice) usd_score trading
     = Done 100 trading.
Proof.
  assert (Hinstall : on_install (mkCall converter_score alice) flexible_score
                       registry_score 1000000 (Some icx_score) 500000
                       (mkState uninstalled ledger0 [])
                     = Done tt installed_full) by (vm_compute; reflexivity).
  split; [exact Hinstall|].
  destruct (connector_views_agree (mkCall converter_score alice) flexible_score
              registry_score 1000000 (Some icx_score) 500000 ledger0
              installed_full setup Hinstall) as (Hnd & Hviews).
  split; [exact Hnd|].
  destruct (Hviews usd_score) as (Hu1 & _ & _ & _ & Hu5).
  destruct (Hviews bob) as (_ & Hb2 & _ & Hb4 & _).
  split; [exact Hu1|]. split; [exact Hb2|]. split.
  - apply Hb4. replace (_connector_tokens (db trading)) with [icx_score; usd_score]
      by (vm_compute; reflexivity).
    intros Hin. apply elem_of_cons in Hin as [Hin|Hin]; [discriminate Hin|].
    apply elem_of_cons in Hin as [Hin|Hin]; [discriminate Hin|].
    apply elem_of_nil in Hin. exact Hin.
  - replace 100 with (virtual_balance (connector_at usd_score (db trading)))
      by (vm_compute; reflexivity).
    apply Hu5.
    + replace (_connector_tokens (db trading)) with [icx_score; usd_score]
        by (vm_compute; reflexivity).
      apply list_elem_of_further, list_elem_of_here.
    + vm_compute. reflexivity.
Defined.

Lemma withdrawTokens_keeps_reserves_witness :
  on_install (mkCall converter_score alice) flexible_score registry_score
             1000000 (Some icx_score) 500000 (mkState uninstalled ledger0 [])
  = Done tt installed_full
  /\ controller_active converter_score flexible_score (world trading) = true
  /\ usd_score ∈ _connector_tokens (db trading)
  /\ exists msg,
       withdrawTokens (fun _ _ _ _ => ret tt) (mkCall converter_score alice)
                      usd_score alice 10 trading
       = Failed (Revert msg) trading.
Proof.
  assert (Hinstall : on_install (mkCall converter_score alice) flexible_score
                       registry_score 1000000 (Some icx_score) 500000
                       (mkState uninstalled ledger0 [])
                     = Done tt installed_full) by (vm_compute; reflexivity).
  assert (Ha : controller_active converter_score flexible_score (world trading)
               = true) by (vm_compute; reflexivity).
  assert (Hin : usd_score ∈ _connector_tokens (db trading)).
  { replace (_connector_tokens (db trading)) with [icx_score; usd_score]
      by (vm_compute; reflexivity).
    apply list_elem_of_further, list_elem_of_here. }
  split; [exact Hinstall|]. split; [exact Ha|]. split; [exact Hin|].
  eexists.
  exact (proj1 (withdrawTokens_keeps_reserves (fun _ _ _ _ => ret tt)
                  (mkCall converter_score alice) flexible_score registry_score
                  1000000 (Some icx_score) 500000 ledger0 installed_full setup
                  alice usd_score alice 10 Hinstall) Ha Hin).
Defined.

Lemma administration_moves_no_tokens_witness :
  (forall f v d, UpdateConnector icx_score 500000 true 5 <> TokenFallback f v d)
  /\ world (step converter_score trading
              (Transaction alice (UpdateConnector icx_score 500000 true 5)))
     = world trading
  /\ db (step converter_score trading
           (Transaction alice (UpdateConnector icx_score 500000 true 5)))
     <> db trading.
Proof.
  assert (Hr : forall f v d,
             UpdateConnector icx_score 500000 true 5 <> TokenFallback f v d)
    by discriminate.
  split; [exact Hr|]. split.
  - exact (administration_moves_no_tokens converter_score alice
             (UpdateConnector icx_score 500000 true 5) trading Hr).
  - intros H.
    apply (f_equal (fun c => virtual_balance (connector_at icx_score c))) in H.
    vm_compute in H. discriminate H.
Defined.

Lemma trading_keeps_virtual_balances_nonneg_witness :
  0 <= virtual_balance (connector_at usd_score (db trading))
  /\ virtual_balance
       (connector_at usd_score
          (db (transact (tokenFallback (mkCall converter_score icx_score)
                           ledger_network 100 (inr (usd_score, 1))) trading)))
     < virtual_balance (connector_at usd_score (db trading))
  /\ 0 <= virtual_balance
            (connector_at usd_score
               (db (transact (tokenFallback (mkCall converter_score icx_score)
                                ledger_network 100 (inr (usd_score, 1)))
                             trading))).
Proof.
  assert (H0 : 0 <= virtual_balance (connector_at usd_score (db trading)))
    by by_computation.
  split; [exact H0|]. split; [vm_compute; reflexivity|].
  exact (trading_keeps_virtual_balances_nonneg (mkCall converter_score icx_score)
           ledger_network 100 (inr (usd_score, 1)) trading usd_score H0).
Defined.

Lemma strangers_change_nothing_witness :
  bob <> _owner (db trading) /\ Some bob <> _manager (db trading)
  /\ step converter_score trading (Transaction bob (SetConversionFee 10)) = trading
  /\ step converter_score trading (Transaction alice (SetConversionFee 10))
     <> trading.
Proof.
  assert (Ho : bob <> _owner (db trading))
    by (intros H; vm_compute in H; discriminate H).
  assert (Hm : Some bob <> _manager (db trading))
    by (intros H; vm_compute in H; discriminate H).
  split; [exact Ho|]. split; [exact Hm|]. split.
  - exact (strangers_change_nothing converter_score bob (SetConversionFee 10)
             trading Ho Hm).
  - intros H. apply (f_equal (fun s => _conversion_fee (db s))) in H.
    vm_compute in H. discriminate H.
Defined.

Lemma active_converter_takes_no_connector_witness :
  let s := run converter_score [Elsewhere ledger1] installed_full in
  controller_active converter_score (_token (db s)) (world s) = true
  /\ _connector_tokens
       (db (step converter_score s
              (Transaction alice (AddConnector usd_score 500000 false))))
     = _connector_tokens (db s)
  /\ _connector_tokens
       (db (step converter_score installed_full
              (Transaction alice (AddConnector usd_score 500000 false))))
     = _connector_tokens (db installed_full) ++ [usd_score].
Proof.
  intros s.
  assert (Ha : controller_active converter_score (_token (db s)) (world s) = true)
    by (vm_compute; reflexivity).
  split; [exact Ha|]. split.
  - exact (proj1 (active_converter_takes_no_connector converter_score alice
                    (AddConnector usd_score 500000 false) s Ha)).
  - vm_compute. reflexivity.
Defined.

(** The model prints what the interpreter prints at the ends of the
    range. *)
Lemma print_int_scaling_factors_samples :
  print_int_scaling_factors 1000000 0
  = inr [text "    _FIXED_1 = 0x00000000000000000000000000000000000000000000000000000000000000001";
         text "    _FIXED_2 = 0x00000000000000000000000000000000000000000000000000000000000000002";
         text "    _MAX_NUM = 0x10000000000000000000000000000000000000000000000000000000000000000"]
  /\ print_int_scaling_factors 1000000 256
     = inr [text "    _FIXED_1 = 0x10000000000000000000000000000000000000000000000000000000000000000";
            text "    _FIXED_2 = 0x20000000000000000000000000000000000000000000000000000000000000000";
            text "    _MAX_NUM = 0x00000000000000000000000000000000000000000000000000000000000000001"]
  /\ format_alternate_zero_hex (-255) 10 = text "-0x00000ff"
  /\ format_alternate_zero_hex 255 2 = text "0xff"
  /\ hex 0 = text "0x0" /\ hex (-17) = text "-0x11".
Proof. vm_compute. repeat split; reflexivity. Qed.

